(** * XTree construction (ao/src/render/brep/xtree.cpp)

    A shallow embedding of [XTree<N>::XTree], [cornerMask], [findVertex],
    [vert3] and [massPoint], with the evaluator as an explicit state and
    the calls made on it recorded in order.  Doubles are Rocq's primitive
    binary64 floats, so the arithmetic of the model is the arithmetic of
    the program. *)

From Stdlib Require Import ZArith List Bool Lia Uint63 Floats.
Import ListNotations.

Set Warnings "-inexact-float,-notation-for-abbreviation,-register-all".
Set Implicit Arguments.

(** ** Scalars *)

(** [double] is [PrimFloat.float].  A C++ [float] is a binary64 value
    that has been rounded to binary32. *)
Notation double := PrimFloat.float (only parsing).

(** [x.template cast<float>()] on one coefficient: round to 24 bits of
    precision with binary32's exponent range. *)
Definition cast_float (x : double) : double :=
  SF2Prim
    match Prim2SF x with
    | S754_finite s m e => binary_round 24 128 s m e
    | y => y
    end.

(** Conversion of an [unsigned] or [int] loop counter to floating point. *)
Definition of_nat (n : nat) : double :=
  PrimFloat.of_uint63 (Uint63.of_Z (Z.of_nat n)).

Definition isnan (x : double) : bool := PrimFloat.is_nan x.

Declare Scope dbl_scope.
Delimit Scope dbl_scope with dbl.
Notation "x + y" := (PrimFloat.add x y) : dbl_scope.
Notation "x - y" := (PrimFloat.sub x y) : dbl_scope.
Notation "x * y" := (PrimFloat.mul x y) : dbl_scope.
Notation "x / y" := (PrimFloat.div x y) : dbl_scope.
Notation "x <? y" := (PrimFloat.ltb x y) : dbl_scope.
Notation "x <=? y" := (PrimFloat.leb x y) : dbl_scope.

(** ** Fixed-size Eigen arrays and matrices *)

(** A vector is the list of its coefficients, a matrix the list of its
    rows.  Sums run left to right from the first term. *)
Notation vec := (list double) (only parsing).
Notation matrix := (list (list double)) (only parsing).

Definition vzero (n : nat) : vec := repeat 0%float n.
Definition mzero (r c : nat) : matrix := repeat (vzero c) r.

Fixpoint zipWith {A B C} (f : A -> B -> C) (u : list A) (v : list B) : list C :=
  match u, v with
  | a :: u', b :: v' => f a b :: zipWith f u' v'
  | _, _ => []
  end.

Definition vadd (u v : vec) : vec := zipWith PrimFloat.add u v.
Definition vsub (u v : vec) : vec := zipWith PrimFloat.sub u v.
Definition vscale (u : vec) (k : double) : vec := map (fun x => (x * k)%dbl) u.
Definition vdiv (u : vec) (k : double) : vec := map (fun x => (x / k)%dbl) u.
Definition madd (a b : matrix) : matrix := zipWith vadd a b.

(** [redux]: the sum of a non-empty coefficient list. *)
Definition sum (l : list double) : double :=
  match l with
  | [] => 0%float
  | x :: l' => fold_left PrimFloat.add l' x
  end.

Definition dot (u v : vec) : double := sum (zipWith PrimFloat.mul u v).
Definition norm (u : vec) : double := PrimFloat.sqrt (dot u u).

Definition col (m : matrix) (j : nat) : vec := map (fun r => nth j r 0%float) m.
Definition ncols (m : matrix) : nat := match m with [] => 0 | r :: _ => length r end.
Definition transpose (m : matrix) : matrix := map (col m) (seq 0 (ncols m)).
Definition mulmv (m : matrix) (v : vec) : vec := map (fun r => dot r v) m.
Definition mulmm (a b : matrix) : matrix :=
  map (fun r => map (fun j => dot r (col b j)) (seq 0 (ncols b))) a.

(** The square matrix with [d] on its diagonal and zero elsewhere. *)
Definition diagonal (d : vec) : matrix :=
  map (fun i => map (fun j => if Nat.eqb i j then nth i d 0%float else 0%float)
                    (seq 0 (length d)))
      (seq 0 (length d)).

(** [x.count()]: the number of coefficients that are not zero. *)
Definition count_nonzero (d : vec) : nat :=
  length (filter (fun x => negb (PrimFloat.eqb x 0%float)) d).

(** [_pow(x, y)] *)
Fixpoint _pow (x y : nat) : nat :=
  match y with
  | 0 => 1
  | S y' => x * _pow x y'
  end.

(** ** Interval *)

Module Interval.

(** Modelled from the spec: interval.hpp is not among the sources.  The
    cell and corner states, with the enumerators' integer values (EMPTY
    is the zero one, which is what the conversions to [bool] in the
    terminal corner loop rely on). *)
Inductive State := EMPTY | FILLED | AMBIGUOUS.

Definition State_value (s : State) : Z :=
  match s with EMPTY => 0 | FILLED => 1 | AMBIGUOUS => 2 end.

Definition State_eqb (a b : State) : bool :=
  Z.eqb (State_value a) (State_value b).

(** The result of an interval evaluation. *)
Record I := mkI { lower : double; upper : double }.

End Interval.

Notation EMPTY := Interval.EMPTY.
Notation FILLED := Interval.FILLED.
Notation AMBIGUOUS := Interval.AMBIGUOUS.

(** ** Region *)

(** Modelled from the spec: region.hpp is not among the sources.  A box
    [lower, upper] in N dimensions and the coordinates [perp] that lift
    its points into the evaluator's three.  Bit [j] of a corner or child
    index selects upper over lower along axis [j]. *)
Record Region := mkRegion { lower : vec; upper : vec; perp : vec }.

Definition volume (r : Region) : double :=
  fold_left PrimFloat.mul (vsub (upper r) (lower r)) 1%float.

Definition lower3 (r : Region) : vec := lower r ++ perp r.
Definition upper3 (r : Region) : vec := upper r ++ perp r.

Definition bit (i j : nat) : bool := Nat.testbit i j.

Fixpoint pick {A} (i j : nat) (lo hi : list A) : list A :=
  match lo, hi with
  | l :: lo', h :: hi' => (if bit i j then h else l) :: pick i (S j) lo' hi'
  | _, _ => []
  end.

Definition middle (r : Region) : vec :=
  vdiv (vadd (lower r) (upper r)) 2%float.

Definition subregion (r : Region) (i : nat) : Region :=
  mkRegion (pick i 0 (lower r) (middle r)) (pick i 0 (middle r) (upper r)) (perp r).

(** ** XTree *)

Inductive XTree : Type := mkXTree {
  region : Region;
  children : list XTree;
  level : nat;
  vert : option vec;
  corners : list Interval.State;
  type : Interval.State;
  rank : nat;
  manifold : bool;
  _mass_point : vec;
  AtA : matrix;
  AtB : vec;
  BtB : double }.

(** The eigenvalues and eigenvectors an [Eigen::EigenSolver] holds, real
    parts only (all the program reads). *)
Record EigenSolver := mkEigenSolver { eigenvalues : vec; eigenvectors : matrix }.

(** The template argument: the file instantiates [XTree<2>] and
    [XTree<3>]. *)
Class Dimension := { N : nat }.

(** What this translation unit takes from elsewhere: the constant and
    the member functions that xtree.hpp declares and other files define,
    the predicates of interval.hpp, Eigen's solver, and whether [assert]
    is compiled in. *)
Class Header := {
  EIGENVALUE_CUTOFF : double;
  isFilled : Interval.I -> bool;
  isEmpty : Interval.I -> bool;
  edges : list (nat * nat);
  cornersAreManifold : XTree -> bool;
  leafsAreManifold : XTree -> bool;
  solve : matrix -> EigenSolver;
  NDEBUG : bool }.

(** ** Evaluator *)

(** [eval->derivs(n)]: four arrays, read by slot. *)
Record Derivs := mkDerivs {
  v : nat -> double; dx : nat -> double; dy : nat -> double; dz : nat -> double }.

(** The evaluator is an object with a state of its own: every member
    function takes the state and gives the next one. *)
Class Evaluator (E : Type) := {
  eval : vec -> vec -> E -> Interval.I * E;
  push : E -> E;
  pop : E -> E;
  set : vec -> nat -> E -> E;
  setRaw : vec -> nat -> E -> E;
  values : nat -> E -> (nat -> double) * E;
  derivs : nat -> E -> Derivs * E }.

(** The calls made on the evaluator, in program order. *)
Inductive Call :=
| CEval | CPush | CPop
| CSet (slot : nat) | CSetRaw (slot : nat)
| CValues (count : nat) | CDerivs (count : nat).

(** What stops a run short of a finished node: an array read outside
    its bounds, a failed [assert], or a recursion deeper than the fuel. *)
Inductive Fault :=
| OutOfBounds (index : Z) (size : nat)
| AssertFailed.

Inductive Outcome (A : Type) :=
| Done (a : A)
| Stop (f : Fault)
| OutOfFuel.
Arguments Stop {A} f.
Arguments OutOfFuel {A}.

Section Monad.
Context {E : Type}.

Record Ctx := mkCtx { ev : E; calls : list Call }.

Definition M (A : Type) := Ctx -> Outcome (A * Ctx).

Definition ret {A} (a : A) : M A := fun c => Done (a, c).

Definition bind {A B} (m : M A) (k : A -> M B) : M B :=
  fun c =>
    match m c with
    | Done (a, c') => k a c'
    | Stop f => Stop f
    | OutOfFuel => OutOfFuel
    end.

Definition stop {A} (f : Fault) : M A := fun _ => Stop f.
Definition timeout {A} : M A := fun _ => OutOfFuel.

(** One call: apply the member function, log the call. *)
Definition call {A} (what : Call) (f : E -> A * E) : M A :=
  fun c => let (a, e) := f (ev c) in Done (a, mkCtx e (calls c ++ [what])).

Definition call_ (what : Call) (f : E -> E) : M unit :=
  call what (fun e => (tt, f e)).
End Monad.
Arguments Ctx E : clear implicits.
Arguments M E A : clear implicits.

Declare Scope monad_scope.
Delimit Scope monad_scope with monad.
Notation "x <- m ;; k" := (bind m (fun x => k))
  (at level 100, m at next level, right associativity) : monad_scope.
Notation "m ;; k" := (bind m (fun _ => k))
  (at level 100, right associativity) : monad_scope.

Open Scope monad_scope.

(** ** Member functions *)

(** Functional updates of one field of [*this]. *)
Definition with_children (x : list XTree) (t : XTree) : XTree :=
  mkXTree (region t) x (level t) (vert t) (corners t) (type t) (rank t)
          (manifold t) (_mass_point t) (AtA t) (AtB t) (BtB t).
Definition with_level (x : nat) (t : XTree) : XTree :=
  mkXTree (region t) (children t) x (vert t) (corners t) (type t) (rank t)
          (manifold t) (_mass_point t) (AtA t) (AtB t) (BtB t).
Definition with_vert (x : vec) (t : XTree) : XTree :=
  mkXTree (region t) (children t) (level t) (Some x) (corners t) (type t) (rank t)
          (manifold t) (_mass_point t) (AtA t) (AtB t) (BtB t).
Definition with_corners (x : list Interval.State) (t : XTree) : XTree :=
  mkXTree (region t) (children t) (level t) (vert t) x (type t) (rank t)
          (manifold t) (_mass_point t) (AtA t) (AtB t) (BtB t).
Definition with_type (x : Interval.State) (t : XTree) : XTree :=
  mkXTree (region t) (children t) (level t) (vert t) (corners t) x (rank t)
          (manifold t) (_mass_point t) (AtA t) (AtB t) (BtB t).
Definition with_rank (x : nat) (t : XTree) : XTree :=
  mkXTree (region t) (children t) (level t) (vert t) (corners t) (type t) x
          (manifold t) (_mass_point t) (AtA t) (AtB t) (BtB t).
Definition with_manifold (x : bool) (t : XTree) : XTree :=
  mkXTree (region t) (children t) (level t) (vert t) (corners t) (type t) (rank t)
          x (_mass_point t) (AtA t) (AtB t) (BtB t).
Definition with_mass_point (x : vec) (t : XTree) : XTree :=
  mkXTree (region t) (children t) (level t) (vert t) (corners t) (type t) (rank t)
          (manifold t) x (AtA t) (AtB t) (BtB t).
Definition with_QEF (a : matrix) (b : vec) (c : double) (t : XTree) : XTree :=
  mkXTree (region t) (children t) (level t) (vert t) (corners t) (type t) (rank t)
          (manifold t) (_mass_point t) a b c.

(** [a[i] = x] on a fixed-size array. *)
Fixpoint update {A} (i : nat) (x : A) (l : list A) : list A :=
  match l, i with
  | [], _ => []
  | _ :: l', 0 => x :: l'
  | y :: l', S i' => y :: update i' x l'
  end.

(** [ps[k]] on a local array: a read outside it stops the run. *)
Definition read {E A} (l : list A) (k : Z) (d : A) : M E A :=
  if (0 <=? k)%Z && (k <? Z.of_nat (length l))%Z
  then ret (nth (Z.to_nat k) l d)
  else stop (OutOfBounds k (length l)).

(** [for (j : js) body(j)] over a loop state. *)
Fixpoint for_ {E J S} (js : list J) (body : J -> S -> M E S) (s : S) : M E S :=
  match js with
  | [] => ret s
  | j :: js' => s' <- body j s ;; for_ js' body s'
  end.

Section Members.
Context {D : Dimension} {H : Header} {E : Type} {EV : Evaluator E}.

(** [children.size()], that is [1 << N]. *)
Definition size : nat := _pow 2 N.

(** Modelled from the spec: the member initialisers of xtree.hpp, which
    is not among the sources.  The QEF sums and the mass point start at
    zero, [level] and [rank] at 0, [manifold] at false.  [vert] and
    [corners] start indeterminate: [vert] is [None] until assigned, and
    every path of the constructor assigns all the corners before any is
    read, so the placeholder below is never observed. *)
Definition init (region : Region) : XTree :=
  mkXTree region [] 0 None (repeat EMPTY size) AMBIGUOUS 0 false
          (vzero (S N)) (mzero N N) (vzero N) 0%float.

(** Modelled from the spec: [Region<N>::subdivide()]. *)
Definition subdivide (r : Region) : list Region :=
  map (subregion r) (seq 0 size).

(** Modelled from the spec: [isBranch()], [cornerState(i)] and
    [cornerPos(i)] are defined in xtree.hpp.  A node is a branch while
    it holds children. *)
Definition isBranch (t : XTree) : bool :=
  match children t with [] => false | _ :: _ => true end.
Definition cornerState (t : XTree) (i : nat) : Interval.State :=
  nth i (corners t) EMPTY.
Definition cornerPos (t : XTree) (i : nat) : vec :=
  pick i 0 (lower (region t)) (upper (region t)).

(** [XTree<N>::cornerMask()], on a [uint8_t]. *)
Definition cornerMask (t : XTree) : Z :=
  fold_left
    (fun mask i =>
       if Interval.State_eqb (cornerState t i) FILLED
       then Z.lor mask (Z.shiftl 1 (Z.of_nat i)) mod 256
       else mask)%Z
    (seq 0 size) 0%Z.

(** [XTree<N>::massPoint()] *)
Definition massPoint (t : XTree) : vec :=
  vdiv (firstn N (_mass_point t)) (nth N (_mass_point t) 0%float).

(** [XTree<N>::vert3()] *)
Definition vert3 (t : XTree) : option vec :=
  option_map (fun x => x ++ perp (region t)) (vert t).

(** The row vector [v^T * m]. *)
Definition mulvm (x : vec) (m : matrix) : vec :=
  map (fun j => dot x (col m j)) (seq 0 (ncols m)).

(** The QEF value at [x]: [(x^T AtA x - 2 x^T AtB)[0] + BtB]. *)
Definition qef_error (t : XTree) (x : vec) : double :=
  (dot (mulvm x (AtA t)) x - dot (vscale x 2%float) (AtB t) + BtB t)%dbl.

(** The diagonal [D] of [findVertex]: near-singular eigenvalues
    truncated, the others inverted. *)
Definition truncated (es : EigenSolver) : vec :=
  map (fun i =>
         let l := nth i (eigenvalues es) 0%float in
         if (PrimFloat.abs l <? EIGENVALUE_CUTOFF)%dbl then 0%float
         else (1 / l)%dbl)
      (seq 0 N).

(** [XTree<N>::findVertex(es)]: the node with [vert] placed, and the
    QEF error there. *)
Definition findVertex_es (es : EigenSolver) (t : XTree) : Outcome (double * XTree) :=
  let D := truncated es in
  if negb (isBranch t) && negb NDEBUG && negb (Nat.eqb (count_nonzero D) (rank t))
  then Stop AssertFailed
  else
    let U := eigenvectors es in
    let AtAp := mulmm (mulmm U (diagonal D)) (transpose U) in
    let center := massPoint t in
    let x := vadd (mulmv AtAp (vsub (AtB t) (mulmv (AtA t) center))) center in
    let t := with_vert x t in
    Done (qef_error t x, t).

(** [XTree<N>::findVertex()] *)
Definition findVertex (t : XTree) : Outcome (double * XTree) :=
  findVertex_es (solve (AtA t)) t.

Definition lift {A} (o : Outcome A) : M E A :=
  fun c =>
    match o with
    | Done a => Done (a, c)
    | Stop f => Stop f
    | OutOfFuel => OutOfFuel
    end.
End Members.

(** ** The constructor *)

Section Constructor.
Context {D : Dimension} {H : Header} {E : Type} {EV : Evaluator E}.

(** The loop state of the two corner loops: [*this], [all_empty] and
    [all_full]. *)
Definition Corners : Type := XTree * bool * bool.

(** Lines 44-51, one child: construct it, take its corner, fold its
    type into the two flags. *)
Definition populate (self : Region -> M E XTree) (rs : list Region)
    (i : nat) (s : Corners) : M E Corners :=
  let '(t, all_empty, all_full) := s in
  c <- self (nth i rs (region t)) ;;
  let t := with_children (children t ++ [c]) t in
  let t := with_corners (update i (nth i (corners c) EMPTY) (corners t)) t in
  ret (t,
       all_empty && Interval.State_eqb (type c) EMPTY,
       all_full && Interval.State_eqb (type c) FILLED).

(** Lines 61-63, one corner packed into the evaluator. *)
Definition pack (t : XTree) (i : nat) (_ : unit) : M E unit :=
  call_ (CSet i) (set (map cast_float (cornerPos t i) ++ perp (region t)) i).

(** Lines 70-72, one corner unpacked.  [all_full &= corners[i]] is a
    bitwise and of the flag with the enumerator's value;
    [all_empty &= !corners[i]] tests the value against zero. *)
Definition unpack (fs : nat -> double) (s : Corners) (i : nat) : Corners :=
  let '(t, all_empty, all_full) := s in
  let t := with_corners
             (update i (if (fs i <? 0)%dbl then FILLED else EMPTY) (corners t)) t in
  let c := Interval.State_value (cornerState t i) in
  (t,
   all_empty && Z.eqb c 0,
   negb (Z.eqb (Z.land (Z.b2z all_full) c) 0)).

(** Lines 21-78: interval evaluation, then either a pruned type, the
    children, or the sampled corners; the evaluator is pushed once at
    the top, and popped at line 53 and at line 78. *)
Definition classify (self : Region -> M E XTree) (region : Region) : M E XTree :=
  let t := init region in
  i <- call CEval (eval (lower3 region) (upper3 region)) ;;
  call_ CPush push ;;
  t <- (if isFilled i then ret (with_type FILLED t)
        else if isEmpty i then ret (with_type EMPTY t)
        else
          s <- (if (0.001 <? volume region)%dbl then
                  let rs := subdivide region in
                  s <- for_ (seq 0 size) (populate self rs) (t, true, true) ;;
                  call_ CPop pop ;;
                  ret s
                else
                  for_ (seq 0 size) (pack t) tt ;;
                  fs <- call (CValues size) (values size) ;;
                  ret (fold_left (unpack fs) (seq 0 size) (t, true, true))) ;;
          let '(t, all_empty, all_full) := s in
          ret (with_type (if all_empty then EMPTY
                          else if all_full then FILLED else AMBIGUOUS) t)) ;;
  call_ CPop pop ;;
  ret t.

(** Lines 81-85. *)
Definition fill (t : XTree) : XTree :=
  if Interval.State_eqb (type t) FILLED || Interval.State_eqb (type t) EMPTY
  then with_manifold true (with_corners (map (fun _ => type t) (corners t)) t)
  else t.

(** Lines 124-130, one child merged into the sums. *)
Definition merge (t c : XTree) : XTree :=
  let t := if Nat.eqb (rank c) (rank t)
           then with_mass_point (vadd (_mass_point t) (_mass_point c)) t
           else t in
  with_QEF (madd (AtA t) (AtA c)) (vadd (AtB t) (AtB c)) (BtB t + BtB c)%dbl t.

(** Lines 91-141: the branch's level, and the attempt to collapse it. *)
Definition simplify (t : XTree) : Outcome XTree :=
  let t := with_level
             (fold_left (fun a b => Nat.max a (level b)) (children t) 0 + 1) t in
  if forallb (fun o => negb (isBranch o)) (children t) then
    let t := with_manifold
               (cornersAreManifold t && forallb manifold (children t)
                && leafsAreManifold t) t in
    if manifold t then
      let t := with_rank
                 (fold_left (fun a b => Nat.max a (rank b)) (children t) 0) t in
      let t := fold_left merge (children t) t in
      match findVertex t with
      | Done (err, t) =>
          Done (if (err <? 1e-8)%dbl then with_children [] t else t)
      | Stop f => Stop f
      | OutOfFuel => OutOfFuel
      end
    else Done t
  else Done t.

(** Lines 161-164. *)
Definition _N : nat := 4.
Definition SEARCH_COUNT : nat := 16.
Definition NUM : nat := Nat.shiftl 1 _N.
Definition ITER : nat := SEARCH_COUNT / _N.

(** Lines 173-174: candidate [j] of a search pass. *)
Definition candidate (inside outside : vec) (j : nat) : vec :=
  let frac := (of_nat j / (of_nat N - 1))%dbl in
  vadd (vscale inside (1 - frac)%dbl) (vscale outside frac).

(** Lines 173-177: [ps[j]] computed and loaded; [ps] holds the
    candidates assigned so far. *)
Definition load (t : XTree) (inside outside : vec) (j : nat) (ps : list vec)
    : M E (list vec) :=
  let p := candidate inside outside j in
  call_ (CSetRaw j) (setRaw (map cast_float p ++ perp (region t)) j) ;;
  ret (ps ++ [p]).

(** Lines 183-191: the first [j] with [out[j] >= 0] moves the bracket
    to [ps[j - 1]], [ps[j]]. *)
Fixpoint bracket (out : nat -> double) (ps : list vec) (js : list nat)
    (io : vec * vec) : M E (vec * vec) :=
  match js with
  | [] => ret io
  | j :: js' =>
      if (0 <=? out j)%dbl then
        inside <- read ps (Z.of_nat j - 1) [] ;;
        outside <- read ps (Z.of_nat j) [] ;;
        ret (inside, outside)
      else bracket out ps js' io
  end.

(** Lines 167-192, one pass of the search. *)
Definition search (t : XTree) (_ : nat) (io : vec * vec) : M E (vec * vec) :=
  ps <- for_ (seq 0 NUM) (load t (fst io) (snd io)) [] ;;
  out <- call (CValues NUM) (values NUM) ;;
  bracket out ps (seq 0 NUM) io.

(** Lines 153-198, one edge. *)
Definition intersect (e : nat * nat) (t : XTree) : M E XTree :=
  if negb (Interval.State_eqb (cornerState t (fst e)) (cornerState t (snd e))) then
    let inside := if Interval.State_eqb (cornerState t (fst e)) FILLED
                  then cornerPos t (fst e) else cornerPos t (snd e) in
    let outside := if Interval.State_eqb (cornerState t (fst e)) FILLED
                   then cornerPos t (snd e) else cornerPos t (fst e) in
    io <- for_ (seq 0 ITER) (search t) (inside, outside) ;;
    ret (with_mass_point (vadd (_mass_point t) (fst io ++ [1%float])) t)
  else ret t.

(** Lines 208-219: the grid and its per-axis positions.  The fraction
    is a binary32 quotient. *)
Definition R : nat := 4.
Definition num : nat := _pow R N.

Definition pts (t : XTree) : list vec :=
  map (fun i =>
         let frac := cast_float (of_nat i / (of_nat R - 1))%dbl in
         vadd (vscale (lower (region t)) (1 - frac)%dbl)
              (vscale (upper (region t)) frac))
      (seq 0 R).

(** Line 228. *)
Definition positions (t : XTree) (i : nat) : vec :=
  map (fun j => nth j (nth ((i mod _pow R (j + 1)) / _pow R j) (pts t) []) 0%float)
      (seq 0 N).

(** Lines 233-236. *)
Definition sample (t : XTree) (i : nat) (_ : unit) : M E unit :=
  call_ (CSet i) (set (map cast_float (positions t i) ++ perp (region t)) i).

(** Lines 263-274: row [i] of [A] and entry [i] of [b]. *)
Definition row (ds : Derivs) (t : XTree) (i : nat) : vec * double :=
  let derivs := [dx ds i; dy ds i; dz ds i] in
  let derivs := if isnan (dx ds i) || isnan (dy ds i) || isnan (dz ds i)
                then [0%float; 0%float; 0%float]
                else vdiv derivs (norm derivs) in
  let a := firstn N derivs in
  (a, (dot a (positions t i) - v ds i)%dbl).

(** Line 289. *)
Definition count_rank (es : EigenSolver) : nat :=
  length (filter (fun l => (EIGENVALUE_CUTOFF <=? PrimFloat.abs l)%dbl)
                 (eigenvalues es)).

(** Lines 208-293: the QEF of a manifold leaf and its vertex. *)
Definition solve_leaf (t : XTree) : M E XTree :=
  for_ (seq 0 num) (sample t) tt ;;
  ds <- call (CDerivs num) (derivs num) ;;
  let rows := map (row ds t) (seq 0 num) in
  let A := map fst rows in
  let b := map snd rows in
  let At := transpose A in
  let t := with_QEF (mulmm At A) (mulmv At b) (dot b b) t in
  let es := solve (AtA t) in
  let t := with_rank (count_rank es) t in
  r <- lift (findVertex_es es t) ;;
  ret (snd r).

(** Lines 146-301: an ambiguous leaf. *)
Definition leaf (t : XTree) : M E XTree :=
  let t := with_manifold (cornersAreManifold t) t in
  t <- for_ edges intersect t ;;
  if manifold t then solve_leaf t
  else ret (with_vert (massPoint t) t).

(** [XTree<N>::XTree(eval, region)], with the recursive calls made
    through [self]. *)
Definition construct (self : Region -> M E XTree) (region : Region) : M E XTree :=
  t <- classify self region ;;
  let t := fill t in
  if isBranch t then lift (simplify t)
  else if Interval.State_eqb (type t) AMBIGUOUS then leaf t
  else ret t.

(** The constructor, to a recursion depth of [fuel]. *)
Fixpoint new_XTree (fuel : nat) (region : Region) : M E XTree :=
  match fuel with
  | 0 => timeout
  | S fuel' => construct (new_XTree fuel') region
  end.
End Constructor.

(** ** A two-dimensional setting for the examples *)

(** Everything the constructor takes from outside this file, fixed for
    [XTree<2>] so that the model can be run: the quadtree's edges and
    topology tests, a solver for symmetric 2x2 matrices, and evaluators
    over a scalar field given in closed form. *)
Module Quad.

Definition dim : Dimension := {| N := 2 |}.

(** Modelled from the spec: the four axis-aligned edges of a square
    cell, by corner index. *)
Definition edges : list (nat * nat) := [(0, 1); (0, 2); (1, 3); (2, 3)].

(** Modelled from the spec: the corner table.  Of the sixteen sign
    patterns of a square only the two with diagonally opposite corners
    filled (masks 6 and 9) admit no single-surface reading. *)
Definition cornersAreManifold (t : XTree) : bool :=
  let mask := @cornerMask dim t in
  negb (Z.eqb mask 6 || Z.eqb mask 9).

Definition among (s : Interval.State) (l : list Interval.State) : bool :=
  existsb (Interval.State_eqb s) l.

(** Modelled from the spec: the test on the leaves about to be merged,
    after Ju et al. (2002).  The sign at the middle of each coarse edge
    is the sign of one of that edge's ends, and the sign at the centre
    is the sign of one of the four corners. *)
Definition leafsAreManifold (t : XTree) : bool :=
  let fine (i j : nat) := nth j (corners (nth i (children t) t)) EMPTY in
  let coarse (i : nat) := nth i (corners t) EMPTY in
  among (fine 0 1) [coarse 0; coarse 1]
  && among (fine 0 2) [coarse 0; coarse 2]
  && among (fine 1 3) [coarse 1; coarse 3]
  && among (fine 2 3) [coarse 2; coarse 3]
  && among (fine 0 3) [coarse 0; coarse 1; coarse 2; coarse 3].

(** A Jacobi rotation, standing for [Eigen::EigenSolver] on the
    symmetric 2x2 matrices the examples produce. *)
Definition solve (m : matrix) : EigenSolver :=
  let a := nth 0 (nth 0 m []) 0%float in
  let b := nth 1 (nth 0 m []) 0%float in
  let c := nth 1 (nth 1 m []) 0%float in
  if PrimFloat.eqb b 0 then mkEigenSolver [a; c] [[1; 0]; [0; 1]]%float
  else
    let theta := ((c - a) / (2 * b))%float in
    let t := ((if theta <? 0 then -1 else 1)
              / (abs theta + sqrt (theta * theta + 1)))%float in
    let cs := (1 / sqrt (t * t + 1))%float in
    let sn := (t * cs)%float in
    mkEigenSolver [a - t * b; c + t * b]%float [[cs; sn]; [- sn; cs]]%float.

(** Modelled from the spec: the cutoff of section 6, the interval
    predicates of section 3 (strictly above zero is empty, strictly
    below is filled), assertions compiled in. *)
Definition header : Header :=
  Build_Header
    1e-10%float
    (fun i => (Interval.upper i <? 0)%float)
    (fun i => (0 <? Interval.lower i)%float)
    edges cornersAreManifold leafsAreManifold solve
    false.

(** A scalar field with its gradient and a bound on a box. *)
Record Field := mkField {
  value : vec -> double;
  gradient : vec -> vec;
  bounds : vec -> vec -> Interval.I }.

(** The evaluator's state: the staged points, and the depth of the
    specialization stack relative to where it started. *)
Record Tape := mkTape { slots : nat -> vec; depth : Z }.

Definition stage (p : vec) (i : nat) (e : Tape) : Tape :=
  mkTape (fun k => if Nat.eqb k i then p else slots e k) (depth e).

(** An evaluator that answers in binary32 from the field. *)
Definition evaluator (F : Field) : Evaluator Tape :=
  {| eval := fun lo hi e => (bounds F lo hi, e);
     push := fun e => mkTape (slots e) (depth e + 1);
     pop := fun e => mkTape (slots e) (depth e - 1);
     set := stage;
     setRaw := stage;
     values := fun _ e => (fun k => cast_float (value F (slots e k)), e);
     derivs := fun _ e =>
       (mkDerivs (fun k => cast_float (value F (slots e k)))
                 (fun k => cast_float (nth 0 (gradient F (slots e k)) 0%float))
                 (fun k => cast_float (nth 1 (gradient F (slots e k)) 0%float))
                 (fun k => cast_float (nth 2 (gradient F (slots e k)) 0%float)),
        e) |}.

(** The same, except that [set] maps the point through [frame] first
    and [setRaw] does not. *)
Definition framed (frame : vec -> vec) (F : Field) : Evaluator Tape :=
  {| eval := @eval _ (evaluator F);
     push := @push _ (evaluator F);
     pop := @pop _ (evaluator F);
     set := fun p => stage (frame p);
     setRaw := stage;
     values := @values _ (evaluator F);
     derivs := @derivs _ (evaluator F) |}.

Definition start : Ctx Tape := mkCtx (mkTape (fun _ => []) 0) [].

Definition run (F : Field) (fuel : nat) (r : Region) : Outcome (XTree * Ctx Tape) :=
  @new_XTree dim header Tape (evaluator F) fuel r start.

(** The cell [0, 1/16]^2 in the plane z = 0, and its lower-left
    quarter. *)
Definition cell : Region := mkRegion [0; 0]%float [0x1p-4; 0x1p-4]%float [0%float].
Definition quarter : Region := mkRegion [0; 0]%float [0x1p-5; 0x1p-5]%float [0%float].

Definition x (p : vec) : double := nth 0 p 0%float.
Definition y (p : vec) : double := nth 1 p 0%float.

(** The half-plane x < 1/64, with the exact bound of its field. *)
Definition plane : Field :=
  mkField (fun p => x p - 0x1p-6)%float
          (fun _ => [1; 0; 0]%float)
          (fun lo hi => Interval.mkI (x lo - 0x1p-6)%float (x hi - 0x1p-6)%float).

(** The outside of a disc of radius 1/64 about a point near the
    middle of [cell]: negative at the four corners of [cell],
    positive at its centre. *)
Definition bubble : Field :=
  let qx := (0x1p-5 + 0x1p-8)%float in
  let qy := (0x1p-5 + 0x1p-9)%float in
  mkField (fun p => 0x1p-12 - ((x p - qx) * (x p - qx) + (y p - qy) * (y p - qy)))%float
          (fun p => [-2 * (x p - qx); -2 * (y p - qy); 0]%float)
          (fun _ _ => Interval.mkI (-1)%float 1%float).

(** A disc of radius 8192 whose boundary crosses [cell] as an almost
    straight, almost vertical arc through x = 1/64. *)
Definition arc : Field :=
  let cx := (0x1p-6 + 8192)%float in
  let cy := 0x1p-5%float in
  let d p := sqrt ((x p - cx) * (x p - cx) + (y p - cy) * (y p - cy))%float in
  mkField (fun p => d p - 8192)%float
          (fun p => [(x p - cx) / d p; (y p - cy) / d p; 0]%float)
          (fun _ _ => Interval.mkI (-1)%float 1%float).

(** The field that is 1 everywhere, bounded as such. *)
Definition nothing : Field :=
  mkField (fun _ => 1%float) (fun _ => [0; 0; 0]%float)
          (fun _ _ => Interval.mkI 1%float 1%float).

(** The reflection of [quarter] in its vertical axis. *)
Definition mirror (p : vec) : vec :=
  match p with
  | px :: p' => (0x1p-5 - px)%float :: p'
  | [] => []
  end.

Definition is_push (c : Call) : bool := match c with CPush => true | _ => false end.
Definition is_pop (c : Call) : bool := match c with CPop => true | _ => false end.

End Quad.

(** ** More of the two-dimensional setting *)

(** What a run returned, or [d] if it did not return. *)
Definition result {A} (o : Outcome A) (d : A) : A :=
  match o with
  | Done a => a
  | _ => d
  end.

Module Cases.

Definition dim3 : Dimension := {| N := 3 |}.

(** The field of [Quad.plane] behind an interval arithmetic that
    bounds it below zero everywhere. *)
Definition overfilled : Quad.Field :=
  Quad.mkField (Quad.value Quad.plane) (Quad.gradient Quad.plane)
               (fun _ _ => Interval.mkI (-2)%float (-1)%float).

(** The distance to a disc of radius 1/64 about the origin; its
    gradient at the centre is 0/0. *)
Definition disc : Quad.Field :=
  let d p := sqrt (Quad.x p * Quad.x p + Quad.y p * Quad.y p)%float in
  Quad.mkField (fun p => d p - 0x1p-6)%float
               (fun p => [Quad.x p / d p; Quad.y p / d p; 0]%float)
               (fun _ _ => Interval.mkI (-1)%float 1%float).

(** A saddle: negative at two opposite corners of [Quad.quarter],
    positive at the other two. *)
Definition saddle : Quad.Field :=
  Quad.mkField (fun p => - ((Quad.x p - 0x1p-6) * (Quad.y p - 0x1p-6)))%float
               (fun p => [- (Quad.y p - 0x1p-6); - (Quad.x p - 0x1p-6); 0]%float)
               (fun _ _ => Interval.mkI (-1)%float 1%float).

(** The node and the context a run of the constructor ends with. *)
Definition built (F : Quad.Field) (fuel : nat) (r : Region) : XTree * Ctx Quad.Tape :=
  result (Quad.run F fuel r) (@init Quad.dim r, Quad.start).

(** The branch [simplify] is given when [Quad.cell] is built over
    [Quad.plane]. *)
Definition plane_branch : XTree :=
  fill
    (fst (result (@classify Quad.dim Quad.header _ (Quad.evaluator Quad.plane)
                    (@new_XTree Quad.dim Quad.header _ (Quad.evaluator Quad.plane) 1)
                    Quad.cell Quad.start)
            (@init Quad.dim Quad.cell, Quad.start))).

(** The derivatives at the origin under [disc]. *)
Definition apex : Derivs :=
  fst (@derivs _ (Quad.evaluator disc) 16
         (Quad.stage [0; 0; 0]%float 0 (ev Quad.start))).

(** The field that is 1 everywhere, behind an interval arithmetic
    that cannot tell its sign. *)
Definition loose : Quad.Field :=
  Quad.mkField (fun _ => 1%float) (fun _ => [0; 0; 0]%float)
               (fun _ _ => Interval.mkI (-1)%float 1%float).

(** The branch [simplify] is given when [Quad.cell] is built over
    [loose]. *)
Definition loose_branch : XTree :=
  fill
    (fst (result (@classify Quad.dim Quad.header _ (Quad.evaluator loose)
                    (@new_XTree Quad.dim Quad.header _ (Quad.evaluator loose) 1)
                    Quad.cell Quad.start)
            (@init Quad.dim Quad.cell, Quad.start))).

(** Which candidates of a pass evaluate below zero: the first three,
    or all of them. *)
Definition three_inside (j : nat) : double := if Nat.ltb j 3 then (-1)%float else 1%float.
Definition all_inside (_ : nat) : double := (-1)%float.




End Cases.

Unset Implicit Arguments.

(** * Vocabulary of the properties *)

(** The type the rule of lines 75-76 gives a list of states: EMPTY when
    all are, FILLED when all are, AMBIGUOUS otherwise. *)
Definition aggregate (l : list Interval.State) : Interval.State :=
  if forallb (fun s => Interval.State_eqb s EMPTY) l then EMPTY
  else if forallb (fun s => Interval.State_eqb s FILLED) l then FILLED
  else AMBIGUOUS.

(** The state a sampled value gives a corner (line 70). *)
Definition sampled (fs : nat -> double) (i : nat) : Interval.State :=
  if (fs i <? 0)%dbl then FILLED else EMPTY.

(** [n] is [t] or a descendant of [t]. *)
Inductive subtree (n : XTree) : XTree -> Prop :=
| subtree_here : subtree n n
| subtree_below (c t : XTree) : In c (children t) -> subtree n c -> subtree n t.


(** [x] is a zero of either sign. *)
Definition zero_like (x : double) : Prop :=
  exists s, Prim2SF x = S754_zero s.

(** [x] is a number: not NaN, not an infinity. *)
Definition number (x : double) : Prop :=
  match Prim2SF x with
  | S754_zero _ | S754_finite _ _ _ => True
  | _ => False
  end.

Section Vocabulary.
Context {D : Dimension} {H : Header} {E : Type} {EV : Evaluator E}.

(** The interval of line 21, and the context after line 23. *)
Definition first_interval (r : Region) (c : Ctx E) : Interval.I :=
  fst (eval (lower3 r) (upper3 r) (ev c)).

Definition entered (r : Region) (c : Ctx E) : Ctx E :=
  mkCtx (push (snd (eval (lower3 r) (upper3 r) (ev c))))
        ((calls c ++ [CEval]) ++ [CPush]).

(** The interval test of lines 24-31 settles the type. *)
Definition pruned (i : Interval.I) : bool := isFilled i || isEmpty i.

Definition pruned_type (i : Interval.I) : Interval.State :=
  if isFilled i then FILLED else EMPTY.

(** Popping once more. *)
Definition popped (c : Ctx E) : Ctx E := mkCtx (pop (ev c)) (calls c ++ [CPop]).

(** The leaf a uniform cell ends as: no children, every corner of the
    cell's type, no QEF. *)
Definition uniform_leaf (r : Region) (ty : Interval.State) : XTree :=
  mkXTree r [] 0 None (repeat ty size) ty 0 true
          (vzero (S N)) (mzero N N) (vzero N) 0%float.

(** The node lines 21-85 leave for an ambiguous terminal cell. *)
Definition sampled_leaf (r : Region) (fs : nat -> double) : XTree :=
  with_type AMBIGUOUS (with_corners (map (sampled fs) (seq 0 size)) (init r)).

(** How [construct] came to return [t]: pruned by the interval,
    uniform by its sampled corners, an ambiguous leaf, or a branch
    handed to [simplify]. *)
Inductive Construction (self : Region -> M E XTree)
    (r : Region) (c : Ctx E) (t : XTree) (c' : Ctx E) : Prop :=
| by_interval :
    pruned (first_interval r c) = true ->
    t = uniform_leaf r (pruned_type (first_interval r c)) ->
    c' = popped (entered r c) ->
    Construction self r c t c'
| by_corners (fs : nat -> double) :
    pruned (first_interval r c) = false ->
    (0.001 <? volume r)%dbl = false ->
    aggregate (map (sampled fs) (seq 0 size)) <> AMBIGUOUS ->
    t = uniform_leaf r (aggregate (map (sampled fs) (seq 0 size))) ->
    Construction self r c t c'
| as_leaf (fs : nat -> double) (c1 : Ctx E) :
    pruned (first_interval r c) = false ->
    (0.001 <? volume r)%dbl = false ->
    aggregate (map (sampled fs) (seq 0 size)) = AMBIGUOUS ->
    leaf (sampled_leaf r fs) c1 = Done (t, c') ->
    Construction self r c t c'
| as_branch (cs : list XTree) (t0 : XTree) (ae af : bool) (c2 : Ctx E) :
    pruned (first_interval r c) = false ->
    (0.001 <? volume r)%dbl = true ->
    for_ (seq 0 size) (populate self (subdivide r)) (init r, true, true) (entered r c)
    = Done ((t0, ae, af), c2) ->
    t0 = with_corners (corners t0) (with_children cs (init r)) ->
    Forall2 (fun j ch => exists c3 c4, self (nth j (subdivide r) r) c3 = Done (ch, c4))
            (seq 0 size) cs ->
    simplify (fill (with_type (aggregate (map type cs)) t0)) = Done t ->
    c' = popped (popped c2) ->
    Construction self r c t c'.

Definition max_level (cs : list XTree) : nat :=
  fold_left (fun a b => Nat.max a (level b)) cs 0.

Definition max_rank (cs : list XTree) : nat :=
  fold_left (fun a b => Nat.max a (rank b)) cs 0.

(** The three checks of line 104, made on the branch once its level
    is stored. *)
Definition collapsible (b : XTree) : bool :=
  let b1 := with_level (max_level (children b) + 1) b in
  cornersAreManifold b1 && forallb manifold (children b) && leafsAreManifold b1.

(** The branch with its rank set and its children's QEFs merged in
    (lines 116-131). *)
Definition merged (b : XTree) : XTree :=
  fold_left merge (children b)
    (with_rank (max_rank (children b))
       (with_manifold true (with_level (max_level (children b) + 1) b))).

(** A region of [Region<N>] has N coordinates. *)
Definition dims (r : Region) : Prop :=
  length (lower r) = N /\ length (upper r) = N.

(** The test of line 153. *)
Definition crosses (t : XTree) (e : nat * nat) : bool :=
  negb (Interval.State_eqb (cornerState t (fst e)) (cornerState t (snd e))).

(** The mass point after the intersections [ps] have been added. *)
Definition accumulate (ps : list vec) (m : vec) : vec :=
  fold_left (fun m p => vadd m (p ++ [1%float])) ps m.

(** [t] is what the constructor returned for some region, from some
    state of the evaluator. *)
Definition Built (t : XTree) : Prop :=
  exists fuel r (c c' : Ctx E), new_XTree fuel r c = Done (t, c').


End Vocabulary.

(** ** Corners, grid and QEF *)

Section MoreVocabulary.
Context {D : Dimension} {H : Header}.

(** Corner [i] is inside the shape. *)
Definition filled (t : XTree) (i : nat) : bool :=
  Interval.State_eqb (cornerState t i) FILLED.

(** The eigenvalue [l] is a number whose reciprocal is not zero. *)
Definition invertible (l : double) : Prop :=
  isnan l = false /\ (1 / l =? 0)%float = false.

(** The matrix [A] of lines 248-275: one row per sample. *)
Definition normals (ds : Derivs) (t : XTree) : matrix :=
  map fst (map (row ds t) (seq 0 num)).

(** The edges a leaf searches, and whether it takes the QEF step. *)
Definition searched (t : XTree) : nat :=
  if Interval.State_eqb (type t) AMBIGUOUS
  then length (filter (crosses t) edges) else 0.
Definition sampled_QEF (t : XTree) : bool :=
  Interval.State_eqb (type t) AMBIGUOUS && manifold t.
End MoreVocabulary.

(** The row of [pts] that sample [i] reads for axis [j] (line 228). *)
Definition digit (i j : nat) : nat := (i mod _pow R (j + 1)) / _pow R j.

(** Entry (j, k) of a matrix, 0 outside it. *)
Definition entry (m : matrix) (j k : nat) : double :=
  nth k (nth j m []) 0%float.

Definition symmetric (m : matrix) : Prop :=
  forall j k, entry m j k = entry m k j.

(** [n] rows of [n] coefficients. *)
Definition square (n : nat) (m : matrix) : Prop :=
  length m = n /\ Forall (fun r => length r = n) m.

(** ** The log of calls *)

(** Slots 0 .. n-1 loaded in order, through [set] and through
    [setRaw]. *)
Definition loads (n : nat) : list Call := map CSet (seq 0 n).
Definition raw_loads (n : nat) : list Call := map CSetRaw (seq 0 n).

(** The calls of one pass of the search, and of the search along one
    edge. *)
Definition pass : list Call := raw_loads NUM ++ [CValues NUM].
Definition edge_calls : list Call := concat (repeat pass ITER).

Section Calls.
Context {D : Dimension}.

(** The calls of the QEF step. *)
Definition qef_calls : list Call := loads num ++ [CDerivs num].

(** The calls a terminal cell makes: its corners, then [k] edge
    searches, then the QEF step if [q]. *)
Definition terminal_calls (k : nat) (q : bool) : list Call :=
  [CEval; CPush] ++ loads size ++ [CValues size; CPop]
  ++ concat (repeat edge_calls k) ++ (if q then qef_calls else []).

(** The calls one run of the constructor makes on the evaluator: those
    of a pruned cell, of a terminal cell, or of a subdivided cell
    around those of its 2^N children. *)
Inductive Trace : list Call -> Prop :=
| trace_pruned : Trace [CEval; CPush; CPop]
| trace_terminal (k : nat) (q : bool) : Trace (terminal_calls k q)
| trace_subdivided (ds : list Call) :
    Traces size ds -> Trace ([CEval; CPush] ++ ds ++ [CPop; CPop])
with Traces : nat -> list Call -> Prop :=
| traces_nil : Traces 0 []
| traces_cons (n : nat) (d ds : list Call) :
    Trace d -> Traces n ds -> Traces (S n) (d ++ ds).
End Calls.

Scheme Trace_mut := Minimality for Trace Sort Prop
  with Traces_mut := Minimality for Traces Sort Prop.

Section Sampling.
Context {D : Dimension} {H : Header} {E : Type} {EV : Evaluator E}.

(** The evaluator after the corners [js] of the cell have been
    loaded (lines 59-64), and the values it then returns for the
    2^N corners (line 67). *)
Definition packed (r : Region) (js : list nat) (e : E) : E :=
  fold_left (fun e i => set (map cast_float (cornerPos (init r) i) ++ perp r) i e) js e.
Definition corner_values (r : Region) (c : Ctx E) : nat -> double :=
  fst (values size (packed r (seq 0 size) (ev (entered r c)))).
End Sampling.

Section Pass.
Context {D : Dimension} {E : Type} {EV : Evaluator E}.

(** The evaluator after the candidates [js] of the bracket [a], [b]
    have been loaded (lines 171-178), what it answers for a pass
    (line 182), and the context the pass leaves. *)
Definition loaded (t : XTree) (a b : vec) (js : list nat) (e : E) : E :=
  fold_left (fun e j => setRaw (map cast_float (candidate a b j) ++ perp (region t)) j e)
            js e.
Definition answers (t : XTree) (a b : vec) (e : E) : nat -> double :=
  fst (values NUM (loaded t a b (seq 0 NUM) e)).
Definition answered (t : XTree) (a b : vec) (c : Ctx E) : Ctx E :=
  mkCtx (snd (values NUM (loaded t a b (seq 0 NUM) (ev c)))) (calls c ++ pass).
End Pass.

(** ** The solve and the intersections *)

Section Solve.
Context {D : Dimension} {H : Header}.

(** The pseudo-inverse of lines 335-355 for a matrix [A]: with the
    solver's eigenvalues and eigenvectors [U] of [A], the product
    [U * D * U^T], where [D] is diagonal with 0 for an eigenvalue of
    absolute value below the cutoff and its reciprocal for any
    other. *)
Definition pseudo_inverse (A : matrix) : matrix :=
  let U := eigenvectors (solve A) in
  let D := map (fun i =>
                  let l := nth i (eigenvalues (solve A)) 0%float in
                  if (PrimFloat.abs l <? EIGENVALUE_CUTOFF)%dbl then 0%float
                  else (1 / l)%dbl)
               (seq 0 N) in
  mulmm (mulmm U (diagonal D)) (transpose U).

(** The centre of line 358 for a mass point [mp]: its first N
    coefficients over its last. *)
Definition centre (mp : vec) : vec :=
  vdiv (firstn N mp) (nth N mp 0%float).

(** The vertex of line 359 for the sums [A], [B] and the mass point
    [mp]. *)
Definition minimizer (A : matrix) (B : vec) (mp : vec) : vec :=
  vadd (mulmv (pseudo_inverse A) (vsub B (mulmv A (centre mp)))) (centre mp).

(** The QEF value of line 362 at [x]: [x^T A x - 2 x^T B + C]. *)
Definition quadratic (A : matrix) (B : vec) (C : double) (x : vec) : double :=
  (dot (mulvm x A) x - dot (vscale x 2%float) B + C)%dbl.

End Solve.

Section Intersections.
Context {D : Dimension} {E : Type} {EV : Evaluator E}.



End Intersections.

(** How many calls of a log satisfy [p]. *)
Definition count_calls (p : Call -> bool) (l : list Call) : nat :=
  length (filter p l).

Definition is_eval (c : Call) : bool := match c with CEval => true | _ => false end.

(** The loads and evaluations of a log come in batches: with [k]
    slots loaded since the last evaluation, the next load is of slot
    [k], an evaluation is of exactly the [k] slots loaded, with
    [0 < k], and [eval], [push] and [pop] come only between
    batches. *)
Fixpoint batched (k : nat) (l : list Call) : bool :=
  match l with
  | [] => Nat.eqb k 0
  | CSet i :: l' | CSetRaw i :: l' => Nat.eqb i k && batched (S k) l'
  | CValues n :: l' | CDerivs n :: l' => Nat.eqb n k && Nat.ltb 0 n && batched 0 l'
  | _ :: l' => Nat.eqb k 0 && batched 0 l'
  end.

(** A stretch of the log that starts and ends between batches. *)
Definition closed (a : list Call) : Prop :=
  forall b, batched 0 (a ++ b) = batched 0 b.

(** * Properties *)

(** ** The monad *)

Section MonadFacts.
Context {E : Type}.

Lemma bind_Done {A B} (m : M E A) (k : A -> M E B) c r :
  bind m k c = Done r ->
  exists a c1, m c = Done (a, c1) /\ k a c1 = Done r.
Proof.
  unfold bind. destruct (m c) as [[a c1] | f | ]; try discriminate.
  intros Hk. exists a, c1. split; [reflexivity | exact Hk].
Qed.

Lemma bind_eq {A B} (m : M E A) (k : A -> M E B) c a c1 :
  m c = Done (a, c1) -> bind m k c = k a c1.
Proof. intros Hm. unfold bind. rewrite Hm. reflexivity. Qed.

Lemma lift_Done {A} (o : Outcome A) (c : Ctx E) a c1 :
  lift o c = Done (a, c1) -> o = Done a /\ c1 = c.
Proof.
  destruct o; simpl; intros Ho; inversion Ho; subst; auto.
Qed.
End MonadFacts.

(** Break a successful run of a sequence into the runs of its steps. *)
Ltac unbind H :=
  let a := fresh "a" in
  let c := fresh "c" in
  let Hm := fresh "Hm" in
  apply bind_Done in H; destruct H as (a & c & Hm & H).

(** ** Arrays *)

Lemma update_length {A} (i : nat) (x : A) (l : list A) :
  length (update i x l) = length l.
Proof.
  revert i. induction l as [| y l IH]; intros [| i]; simpl; auto.
Qed.

Lemma nth_update_eq {A} (i : nat) (x d : A) (l : list A) :
  i < length l -> nth i (update i x l) d = x.
Proof.
  revert i. induction l as [| y l IH]; intros [| i] Hi; simpl in *; try lia; auto.
  apply IH. lia.
Qed.

Lemma nth_update_neq {A} (i j : nat) (x d : A) (l : list A) :
  i <> j -> nth j (update i x l) d = nth j l d.
Proof.
  revert i j. induction l as [| y l IH]; intros [| i] [| j] Hij; simpl; auto; try lia.
Qed.

Lemma forallb_map {A B} (f : B -> bool) (g : A -> B) (l : list A) :
  forallb f (map g l) = forallb (fun a => f (g a)) l.
Proof. induction l as [| a l IH]; simpl; congruence. Qed.

Lemma State_eqb_eq (a b : Interval.State) :
  Interval.State_eqb a b = true <-> a = b.
Proof. destruct a, b; simpl; split; intros; try reflexivity; discriminate. Qed.

(** ** The corner rule *)

Section Loops.
Context {D : Dimension} {H : Header} {E : Type} {EV : Evaluator E}.

Lemma unpack_loop (fs : nat -> double) (k : nat) :
  forall a t ae af, a + k <= length (corners t) ->
  exists t', fold_left (unpack fs) (seq a k) (t, ae, af)
             = (t',
                ae && forallb (fun j => Interval.State_eqb (sampled fs j) EMPTY) (seq a k),
                af && forallb (fun j => Interval.State_eqb (sampled fs j) FILLED) (seq a k))
    /\ t' = with_corners (corners t') t
    /\ length (corners t') = length (corners t)
    /\ (forall j, a <= j < a + k -> nth j (corners t') EMPTY = sampled fs j)
    /\ (forall j, j < a -> nth j (corners t') EMPTY = nth j (corners t) EMPTY).
Proof.
  induction k as [| k IH]; intros a t ae af Hlen; simpl.
  - exists t. rewrite !andb_true_r. repeat split; auto.
    + destruct t; reflexivity.
    + intros j Hj. lia.
  - set (t1 := with_corners (update a (if (fs a <? 0)%dbl then FILLED else EMPTY) (corners t)) t).
    assert (Hc : cornerState t1 a = sampled fs a).
    { unfold cornerState, t1, sampled. simpl. apply nth_update_eq. lia. }
    rewrite Hc.
    destruct (IH (S a) t1
                 (ae && Z.eqb (Interval.State_value (sampled fs a)) 0)
                 (negb (Z.eqb (Z.land (Z.b2z af) (Interval.State_value (sampled fs a))) 0)))
      as (t' & Hfold & Hsame & Hl & Hin & Hout).
    { unfold t1. simpl. rewrite update_length. lia. }
    exists t'. rewrite Hfold. repeat split.
    + simpl. destruct ae, af, (sampled fs a); reflexivity.
    + rewrite Hsame. reflexivity.
    + rewrite Hl. unfold t1. simpl. apply update_length.
    + intros j Hj. destruct (Nat.eq_dec j a) as [-> | Hne].
      * rewrite Hout by lia. unfold t1, sampled. simpl. apply nth_update_eq. lia.
      * apply Hin. lia.
    + intros j Hj. rewrite Hout by lia. unfold t1. simpl.
      apply nth_update_neq. lia.
Qed.

(** The terminal corner loop: every corner is the state its sample
    gives, and the two flags say whether all are EMPTY, all FILLED. *)
Lemma unpack_all (fs : nat -> double) (r : Region) :
  exists t', fold_left (unpack fs) (seq 0 size) (init r, true, true)
             = (t',
                forallb (fun s => Interval.State_eqb s EMPTY) (corners t'),
                forallb (fun s => Interval.State_eqb s FILLED) (corners t'))
    /\ t' = with_corners (corners t') (init r)
    /\ corners t' = map (sampled fs) (seq 0 size).
Proof.
  destruct (unpack_loop fs size 0 (init r) true true) as (t' & Hfold & Hsame & Hl & Hin & _).
  { simpl. rewrite repeat_length. lia. }
  assert (Hc : corners t' = map (sampled fs) (seq 0 size)).
  { apply (nth_ext _ _ EMPTY EMPTY).
    - rewrite Hl, length_map, length_seq. simpl. apply repeat_length.
    - intros j Hj. rewrite Hl in Hj. simpl in Hj. rewrite repeat_length in Hj.
      rewrite Hin by lia.
      rewrite (nth_indep _ EMPTY (sampled fs 0)) by (rewrite length_map, length_seq; lia).
      rewrite map_nth, seq_nth by lia. reflexivity. }
  exists t'. split; [| split; assumption].
  rewrite Hfold, Hc, !forallb_map. reflexivity.
Qed.

(** The loop over the children: the children are the nodes [self]
    returned for the sub-regions in order, the flags say whether all
    of them are EMPTY, all FILLED, and nothing but [children] and
    [corners] changes. *)
Lemma populate_loop (self : Region -> M E XTree) (rs : list Region) :
  forall js t ae af c t' ae' af' c',
    for_ js (populate self rs) (t, ae, af) c = Done ((t', ae', af'), c') ->
    exists cs,
      children t' = children t ++ cs
      /\ t' = with_corners (corners t') (with_children (children t') t)
      /\ Forall2 (fun j ch => exists c1 c2, self (nth j rs (region t)) c1 = Done (ch, c2)) js cs
      /\ ae' = ae && forallb (fun ch => Interval.State_eqb (type ch) EMPTY) cs
      /\ af' = af && forallb (fun ch => Interval.State_eqb (type ch) FILLED) cs.
Proof.
  induction js as [| j js IH]; intros t ae af c t' ae' af' c' Hrun; simpl in Hrun.
  - inversion Hrun; subst. exists []. rewrite app_nil_r, !andb_true_r.
    repeat split; auto. destruct t'; reflexivity.
  - unbind Hrun. destruct a as [[t1 ae1] af1].
    unfold populate in Hm. unbind Hm. inversion Hm; subst; clear Hm.
    apply IH in Hrun. destruct Hrun as (cs & Hch & Hsame & Hall & Hae & Haf).
    simpl in *.
    exists (a :: cs). repeat split.
    + rewrite Hch, <- app_assoc. reflexivity.
    + rewrite Hsame. reflexivity.
    + constructor; [| exact Hall]. exists c, c0. exact Hm0.
    + simpl. rewrite Hae, andb_assoc. reflexivity.
    + simpl. rewrite Haf, andb_assoc. reflexivity.
Qed.
End Loops.

(** ** The three ways through lines 21-78 *)

Section Paths.
Context {D : Dimension} {H : Header} {E : Type} {EV : Evaluator E}.
Variable self : Region -> M E XTree.

Lemma classify_pruned (r : Region) (c : Ctx E) :
  pruned (first_interval r c) = true ->
  classify self r c
  = Done (with_type (pruned_type (first_interval r c)) (init r), popped (entered r c)).
Proof.
  unfold pruned, pruned_type, first_interval, entered, popped, classify.
  unfold bind, call_, call, ret.
  destruct (eval (lower3 r) (upper3 r) (ev c)) as [i e1]. cbn [fst snd ev calls].
  intros Hp. destruct (isFilled i).
  - reflexivity.
  - simpl in Hp. rewrite Hp. reflexivity.
Qed.

Lemma for_pack (t : XTree) (js : list nat) (c : Ctx E) :
  exists c', for_ js (pack t) tt c = Done (tt, c').
Proof.
  revert c. induction js as [| j js IH]; intros c; simpl.
  - exists c. reflexivity.
  - unfold bind, pack at 1, call_, call. apply IH.
Qed.

(** A terminal cell: the corners are the sampled states and the type
    is their aggregate. *)
Lemma classify_sampled (r : Region) (c : Ctx E) :
  pruned (first_interval r c) = false ->
  (0.001 <? volume r)%dbl = false ->
  exists fs c',
    classify self r c
    = Done (with_type (aggregate (map (sampled fs) (seq 0 size)))
              (with_corners (map (sampled fs) (seq 0 size)) (init r)), c').
Proof.
  unfold pruned, first_interval, classify. unfold bind, call_, call, ret.
  destruct (eval (lower3 r) (upper3 r) (ev c)) as [i e1]. cbn [fst snd ev calls].
  intros Hp Hv. apply orb_false_iff in Hp. destruct Hp as [Hf He].
  rewrite Hf, He, Hv.
  match goal with |- context [for_ _ (pack ?t) tt ?c0] =>
    destruct (for_pack t (seq 0 size) c0) as (c1 & Hpack) end.
  rewrite Hpack.
  destruct (values size (ev c1)) as [fs e2].
  destruct (unpack_all fs r) as (t' & Hfold & Hsame & Hc).
  rewrite Hc in Hsame. subst t'. cbn [corners with_corners] in Hfold.
  exists fs. rewrite Hfold. eexists. reflexivity.
Qed.

(** A cell that is subdivided: one child per sub-region, the type the
    aggregate of the children's types, and two pops after the loop. *)
Lemma classify_subdivided (r : Region) (c : Ctx E) (t1 : XTree) (c1 : Ctx E) :
  pruned (first_interval r c) = false ->
  (0.001 <? volume r)%dbl = true ->
  classify self r c = Done (t1, c1) ->
  exists cs t0 ae af c2,
    for_ (seq 0 size) (populate self (subdivide r)) (init r, true, true) (entered r c)
    = Done ((t0, ae, af), c2)
    /\ t0 = with_corners (corners t0) (with_children cs (init r))
    /\ Forall2 (fun j ch => exists c3 c4, self (nth j (subdivide r) r) c3 = Done (ch, c4))
               (seq 0 size) cs
    /\ t1 = with_type (aggregate (map type cs)) t0
    /\ c1 = popped (popped c2).
Proof.
  unfold pruned, first_interval, entered, popped, classify.
  unfold bind at 1 2, call_ at 1, call at 1 2.
  destruct (eval (lower3 r) (upper3 r) (ev c)) as [i e1]. cbn [fst snd ev calls].
  intros Hp Hv. apply orb_false_iff in Hp. destruct Hp as [Hf He].
  rewrite Hf, He, Hv. unfold bind.
  destruct (for_ (seq 0 size) (populate self (subdivide r)) (init r, true, true) _)
    as [[[[t0 ae] af] c2] | f | ] eqn:Hloop; try discriminate.
  unfold call_, call, ret. cbn [fst snd ev calls]. intros Hdone.
  inversion Hdone; subst; clear Hdone.
  pose proof Hloop as Hrun. apply populate_loop in Hrun.
  destruct Hrun as (cs & Hch & Hsame & Hall & Hae & Haf).
  simpl in Hch, Hae, Haf, Hall. subst ae af.
  do 5 eexists. split; [reflexivity |]. repeat split.
  - rewrite Hsame at 1. rewrite Hch. reflexivity.
  - exact Hall.
  - unfold aggregate. rewrite !forallb_map. reflexivity.
Qed.
End Paths.

(** ** The four kinds of node *)

Lemma map_const {A B} (x : B) (l : list A) :
  map (fun _ => x) l = repeat x (length l).
Proof. induction l as [| a l IH]; simpl; congruence. Qed.

Lemma _pow_pos (x y : nat) : 0 < x -> 0 < _pow x y.
Proof. intros Hx. induction y as [| y IH]; simpl; [lia | nia]. Qed.

Section Kinds.
Context {D : Dimension} {H : Header} {E : Type} {EV : Evaluator E}.
Variable self : Region -> M E XTree.

Lemma size_pos : 0 < size.
Proof. apply _pow_pos. lia. Qed.

Lemma fill_uniform (r : Region) (cs : list Interval.State) (ty : Interval.State) :
  ty <> AMBIGUOUS -> length cs = size ->
  fill (with_type ty (with_corners cs (init r))) = uniform_leaf r ty.
Proof.
  intros Hty Hlen. unfold fill, uniform_leaf. cbn [type with_type].
  destruct ty; try contradiction; simpl; rewrite map_const, Hlen; reflexivity.
Qed.

Lemma construct_cases (r : Region) (c : Ctx E) (t : XTree) (c' : Ctx E) :
  construct self r c = Done (t, c') -> Construction self r c t c'.
Proof.
  unfold construct. intros Hrun.
  destruct (pruned (first_interval r c)) eqn:Hp.
  - rewrite (bind_eq _ _ _ _ _ (classify_pruned self r c Hp)) in Hrun.
    assert (Hne : pruned_type (first_interval r c) <> AMBIGUOUS).
    { unfold pruned_type. destruct (isFilled _); discriminate. }
    assert (Hfill : fill (with_type (pruned_type (first_interval r c)) (init r))
                    = uniform_leaf r (pruned_type (first_interval r c))).
    { exact (fill_uniform r (repeat EMPTY size) _ Hne (repeat_length _ _)). }
    rewrite Hfill in Hrun. unfold ret in Hrun.
    cbn [isBranch children uniform_leaf type] in Hrun.
    assert (Hag : Interval.State_eqb (pruned_type (first_interval r c)) AMBIGUOUS = false).
    { unfold pruned_type. destruct (isFilled _); reflexivity. }
    rewrite Hag in Hrun. inversion Hrun; subst. apply by_interval; auto.
  - destruct (0.001 <? volume r)%dbl eqn:Hv.
    + unbind Hrun. destruct (classify_subdivided self r c a c0 Hp Hv Hm)
        as (cs & t0 & ae & af & c2 & Hloop & Hsame & Hall & Ht1 & Hc1).
      assert (Hbr : isBranch (fill a) = true).
      { assert (Hlen : length cs = size).
        { apply Forall2_length in Hall. rewrite length_seq in Hall. auto. }
        pose proof size_pos as Hpos.
        unfold isBranch, fill. subst a.
        destruct (_ || _); rewrite Hsame; cbn [children with_type with_manifold with_corners with_children];
          destruct cs; simpl in Hlen; [lia | reflexivity | lia | reflexivity]. }
      rewrite Hbr in Hrun. apply lift_Done in Hrun. destruct Hrun as [Hs ->].
      subst a. eapply as_branch; eauto.
    + destruct (classify_sampled self r c Hp Hv) as (fs & c1 & Hcl).
      rewrite (bind_eq _ _ _ _ _ Hcl) in Hrun.
      destruct (Interval.State_eqb (aggregate (map (sampled fs) (seq 0 size))) AMBIGUOUS) eqn:Hag.
      * apply State_eqb_eq in Hag.
        assert (Hfill : fill (with_type (aggregate (map (sampled fs) (seq 0 size)))
                                (with_corners (map (sampled fs) (seq 0 size)) (init r)))
                        = sampled_leaf r fs).
        { rewrite Hag. reflexivity. }
        rewrite Hfill in Hrun. cbn [isBranch sampled_leaf children with_type with_corners init type] in Hrun.
        simpl Interval.State_eqb in Hrun. cbv iota in Hrun.
        eapply as_leaf; eauto.
      * assert (Hne : aggregate (map (sampled fs) (seq 0 size)) <> AMBIGUOUS).
        { intros Heq. apply State_eqb_eq in Heq. congruence. }
        rewrite fill_uniform in Hrun; [| exact Hne | rewrite length_map, length_seq; reflexivity].
        cbn [isBranch uniform_leaf children type] in Hrun. rewrite Hag in Hrun.
        inversion Hrun; subst. eapply by_corners; eauto.
Qed.
End Kinds.

(** ** The branch step *)

Section Simplify.
Context {D : Dimension} {H : Header}.

Lemma merge_fold (cs : list XTree) :
  forall t,
    fold_left merge cs t
    = with_QEF (fold_left madd (map AtA cs) (AtA t))
               (fold_left vadd (map AtB cs) (AtB t))
               (fold_left PrimFloat.add (map BtB cs) (BtB t))
        (with_mass_point
           (fold_left vadd
              (map _mass_point (filter (fun c => Nat.eqb (rank c) (rank t)) cs))
              (_mass_point t))
           t).
Proof.
  induction cs as [| c cs IH]; intros t; simpl.
  - destruct t; reflexivity.
  - rewrite IH. unfold merge.
    destruct (Nat.eqb (rank c) (rank t)); destruct t; reflexivity.
Qed.

Lemma findVertex_branch (t : XTree) :
  isBranch t = true ->
  exists x, findVertex t = Done (qef_error t x, with_vert x t).
Proof.
  intros Hb. unfold findVertex, findVertex_es. rewrite Hb. simpl.
  eexists. reflexivity.
Qed.

Lemma merged_isBranch (b : XTree) : isBranch (merged b) = isBranch b.
Proof.
  unfold merged. rewrite merge_fold. reflexivity.
Qed.

Lemma simplify_unfold (b : XTree) :
  simplify b
  = if forallb (fun o => negb (isBranch o)) (children b) then
      if collapsible b then
        match findVertex (merged b) with
        | Done (err, t) => Done (if (err <? 1e-8)%dbl then with_children [] t else t)
        | Stop f => Stop f
        | OutOfFuel => OutOfFuel
        end
      else Done (with_manifold false (with_level (max_level (children b) + 1) b))
    else Done (with_level (max_level (children b) + 1) b).
Proof.
  unfold simplify, merged, collapsible, max_level, max_rank.
  cbn [children with_level with_manifold manifold with_rank].
  destruct (forallb _ _); [| reflexivity].
  destruct (_ && _ && _); reflexivity.
Qed.

(** What [simplify] returns, case by case. *)
Lemma simplify_cases (b t : XTree) :
  isBranch b = true ->
  simplify b = Done t ->
  let b1 := with_level (max_level (children b) + 1) b in
  (forallb (fun o => negb (isBranch o)) (children b) = false /\ t = b1)
  \/ (forallb (fun o => negb (isBranch o)) (children b) = true
      /\ collapsible b = false /\ t = with_manifold false b1)
  \/ (forallb (fun o => negb (isBranch o)) (children b) = true
      /\ collapsible b = true
      /\ exists x, let m := with_vert x (merged b) in
           (qef_error (merged b) x <? 1e-8)%dbl = false /\ t = m
           \/ (qef_error (merged b) x <? 1e-8)%dbl = true /\ t = with_children [] m).
Proof.
  intros Hb. rewrite simplify_unfold.
  destruct (forallb (fun o => negb (isBranch o)) (children b)) eqn:Hleaves.
  - destruct (collapsible b) eqn:Hc.
    + destruct (findVertex_branch (merged b)) as (x & Hx).
      { rewrite merged_isBranch. exact Hb. }
      rewrite Hx. intros Ht. inversion Ht; subst; clear Ht.
      right. right. repeat split. exists x.
      destruct (qef_error (merged b) x <? 1e-8)%dbl; [right | left]; auto.
    + intros Ht. inversion Ht; subst. right. left. auto.
  - intros Ht. inversion Ht; subst. left. auto.
Qed.

End Simplify.

(** ** The leaf step *)

Lemma zipWith_length {A B C} (f : A -> B -> C) (u : list A) (v : list B) :
  length (zipWith f u v) = Nat.min (length u) (length v).
Proof.
  revert v. induction u as [| a u IH]; intros [| b v]; simpl; auto.
Qed.

Lemma pick_length {A} (i : nat) (lo hi : list A) :
  forall j, length (pick i j lo hi) = Nat.min (length lo) (length hi).
Proof.
  revert hi. induction lo as [| l lo IH]; intros [| h hi] j; simpl; auto.
Qed.

Section Leaf.
Context {D : Dimension} {H : Header} {E : Type} {EV : Evaluator E}.

Lemma candidate_length (a b : vec) (j : nat) :
  length (candidate a b j) = Nat.min (length a) (length b).
Proof.
  unfold candidate, vadd, vscale. rewrite zipWith_length, !length_map. reflexivity.
Qed.

Lemma cornerPos_length (t : XTree) (i : nat) :
  dims (region t) -> length (cornerPos t i) = N.
Proof.
  intros [Hl Hu]. unfold cornerPos. rewrite pick_length, Hl, Hu. lia.
Qed.

Lemma for_load (t : XTree) (a b : vec) (js : list nat) :
  forall ps c ps' c',
    for_ js (load t a b) ps c = Done (ps', c') ->
    ps' = ps ++ map (candidate a b) js.
Proof.
  induction js as [| j js IH]; intros ps c ps' c' Hrun; simpl in Hrun.
  - inversion Hrun. rewrite app_nil_r. reflexivity.
  - unbind Hrun. unfold load in Hm. unbind Hm. inversion Hm; subst.
    apply IH in Hrun. rewrite Hrun, <- app_assoc. reflexivity.
Qed.

Lemma read_In {A} (l : list A) (k : Z) (d x : A) (c c' : Ctx E) :
  read l k d c = Done (x, c') -> In x l /\ c' = c.
Proof.
  unfold read. destruct (_ && _) eqn:Hk; [| discriminate].
  intros Hr. inversion Hr; subst. split; [| reflexivity].
  apply andb_true_iff in Hk. destruct Hk as [H0 H1].
  apply nth_In. lia.
Qed.

Lemma bracket_In (out : nat -> double) (ps : list vec) (js : list nat) :
  forall io (c : Ctx E) io' c',
    bracket out ps js io c = Done (io', c') ->
    io' = io \/ (In (fst io') ps /\ In (snd io') ps).
Proof.
  induction js as [| j js IH]; intros io c io' c' Hrun; simpl in Hrun.
  - inversion Hrun. left. reflexivity.
  - destruct (0 <=? out j)%dbl.
    + unbind Hrun. unbind Hrun. inversion Hrun; subst.
      apply read_In in Hm, Hm0. right. simpl. tauto.
    + eapply IH. exact Hrun.
Qed.

Lemma search_lengths (t : XTree) (k : nat) (io : vec * vec) (c : Ctx E)
      (io' : vec * vec) (c' : Ctx E) :
  search t k io c = Done (io', c') ->
  length (fst io) = N -> length (snd io) = N ->
  length (fst io') = N /\ length (snd io') = N.
Proof.
  unfold search. intros Hrun Ha Hb. unbind Hrun. unbind Hrun.
  apply for_load in Hm. cbn [app] in Hm. subst a.
  apply bracket_In in Hrun. destruct Hrun as [-> | [Hi Ho]]; [auto |].
  apply in_map_iff in Hi, Ho. destruct Hi as (j1 & <- & _), Ho as (j2 & <- & _).
  rewrite !candidate_length, Ha, Hb. lia.
Qed.

Lemma for_search (t : XTree) (ks : list nat) :
  forall io c io' c',
    for_ ks (search t) io c = Done (io', c') ->
    length (fst io) = N -> length (snd io) = N ->
    length (fst io') = N.
Proof.
  induction ks as [| k ks IH]; intros io c io' c' Hrun Ha Hb; simpl in Hrun.
  - inversion Hrun; subst. exact Ha.
  - unbind Hrun. apply search_lengths in Hm; auto. destruct Hm.
    eapply IH; eauto.
Qed.

Lemma intersect_inv (e : nat * nat) (t : XTree) (c : Ctx E) (t1 : XTree) (c1 : Ctx E) :
  intersect e t c = Done (t1, c1) ->
  (crosses t e = false /\ t1 = t)
  \/ (crosses t e = true /\
      exists p, (dims (region t) -> length p = N)
                /\ t1 = with_mass_point (vadd (_mass_point t) (p ++ [1%float])) t).
Proof.
  unfold intersect. fold (crosses t e). intros Hrun.
  destruct (crosses t e).
  - right. split; [reflexivity |]. unbind Hrun. inversion Hrun; subst.
    exists (fst a). split; [| reflexivity]. intros Hd.
    eapply for_search; [exact Hm | |]; simpl;
      destruct (Interval.State_eqb _ _); apply cornerPos_length; exact Hd.
  - left. inversion Hrun. auto.
Qed.

(** The loop over the edges adds one intersection, with weight 1, for
    every edge whose ends differ, and changes nothing else. *)
Lemma edges_loop (es : list (nat * nat)) :
  forall t c t2 c2,
    for_ es intersect t c = Done (t2, c2) ->
    exists ps,
      length ps = length (filter (crosses t) es)
      /\ (dims (region t) -> Forall (fun p => length p = N) ps)
      /\ t2 = with_mass_point (accumulate ps (_mass_point t)) t.
Proof.
  induction es as [| e es IH]; intros t c t2 c2 Hrun; simpl in Hrun.
  - inversion Hrun; subst. exists []. repeat split; auto. destruct t2; reflexivity.
  - unbind Hrun. apply intersect_inv in Hm.
    destruct Hm as [[Hc ->] | [Hc (p & Hp & ->)]].
    + apply IH in Hrun. destruct Hrun as (ps & Hlen & Hall & ->).
      exists ps. simpl. rewrite Hc. auto.
    + apply IH in Hrun. destruct Hrun as (ps & Hlen & Hall & ->).
      change (crosses (with_mass_point (vadd (_mass_point t) (p ++ [1%float])) t))
        with (crosses t) in Hlen.
      exists (p :: ps). simpl. rewrite Hc. simpl. repeat split; auto.
Qed.

(** The QEF step stores the three sums, the rank counted from the
    eigenvalues of the [AtA] it stored, and a vertex. *)
Lemma solve_leaf_inv (t : XTree) (c : Ctx E) (n : XTree) (c' : Ctx E) :
  solve_leaf t c = Done (n, c') ->
  exists a b q x,
    n = with_vert x (with_rank (count_rank (solve a)) (with_QEF a b q t)).
Proof.
  unfold solve_leaf. intros Hrun. unbind Hrun. unbind Hrun. unbind Hrun.
  inversion Hrun; subst; clear Hrun.
  apply lift_Done in Hm1. destruct Hm1 as [Hv _].
  unfold findVertex_es in Hv. destruct (_ && _ && _); [discriminate |].
  inversion Hv; subst; clear Hv. cbn [snd AtA with_QEF].
  do 4 eexists. reflexivity.
Qed.

(** An ambiguous leaf: what lines 146-301 change and what they leave. *)
Lemma leaf_fields (t : XTree) (c : Ctx E) (n : XTree) (c' : Ctx E) :
  leaf t c = Done (n, c') ->
  children n = children t /\ level n = level t /\ type n = type t
  /\ corners n = corners t /\ region n = region t
  /\ manifold n = cornersAreManifold t
  /\ (exists ps,
        length ps = length (filter (crosses t) edges)
        /\ (dims (region t) -> Forall (fun p => length p = N) ps)
        /\ _mass_point n = accumulate ps (_mass_point t))
  /\ (manifold n = true -> rank n = count_rank (solve (AtA n)))
  /\ (manifold n = false ->
      rank n = rank t /\ AtA n = AtA t /\ vert n = Some (massPoint n)).
Proof.
  unfold leaf. intros Hrun. unbind Hrun.
  apply edges_loop in Hm.
  destruct Hm as (ps & Hlen & Hall & ->).
  cbn [manifold with_mass_point with_manifold] in Hrun.
  change (crosses (with_manifold (cornersAreManifold t) t)) with (crosses t) in Hlen.
  cbn [_mass_point with_manifold] in *.
  destruct (cornersAreManifold t) eqn:Hman.
  - apply solve_leaf_inv in Hrun. destruct Hrun as (a & b & q & x & ->).
    cbn. repeat split; auto.
    + exists ps. auto.
    + discriminate.
    + discriminate.
    + discriminate.
  - inversion Hrun; subst; clear Hrun. cbn. repeat split; auto.
    + exists ps. auto.
    + discriminate.
Qed.
End Leaf.

(** ** Every node of a finished tree was constructed *)

Section Built.
Context {D : Dimension} {H : Header} {E : Type} {EV : Evaluator E}.



(** The kinds of node, for the constructor itself. *)
Lemma Built_cases (t : XTree) :
  Built t ->
  exists fuel r (c c' : Ctx E), Construction (new_XTree fuel) r c t c'.
Proof.
  intros (fuel & r & c & c' & Hrun).
  destruct fuel as [| fuel]; [discriminate |].
  exists fuel, r, c, c'. apply construct_cases. exact Hrun.
Qed.

Lemma simplify_children (b t : XTree) :
  isBranch b = true -> simplify b = Done t ->
  children t = children b \/ children t = [].
Proof.
  intros Hb Hs. destruct (simplify_cases b t Hb Hs)
    as [[_ ->] | [(_ & _ & ->) | (_ & _ & x & [[_ ->] | [_ ->]])]]; cbn; auto.
  - left. unfold merged. rewrite merge_fold. reflexivity.
Qed.

Lemma fill_children (t : XTree) : children (fill t) = children t.
Proof. unfold fill. destruct (_ || _); reflexivity. Qed.

Lemma branch_children (cs : list XTree) (t0 : XTree) (ty : Interval.State) (r : Region) :
  t0 = with_corners (corners t0) (with_children cs (init r)) ->
  children (fill (with_type ty t0)) = cs.
Proof. intros ->. rewrite fill_children. reflexivity. Qed.

Lemma branch_isBranch (cs : list XTree) (t0 : XTree) (ty : Interval.State) (r : Region) :
  t0 = with_corners (corners t0) (with_children cs (init r)) ->
  length cs = size ->
  isBranch (fill (with_type ty t0)) = true.
Proof.
  intros Ht0 Hlen. unfold isBranch. rewrite (branch_children cs t0 ty r Ht0).
  pose proof size_pos. destruct cs; simpl in Hlen; [lia | reflexivity].
Qed.

(** A child is what the constructor returned for one of the
    sub-regions. *)
Lemma child_origin (fuel : nat) (r : Region) (c c' : Ctx E) (t ch : XTree) :
  new_XTree fuel r c = Done (t, c') -> In ch (children t) ->
  exists fuel' j (c3 c4 : Ctx E),
    new_XTree fuel' (nth j (subdivide r) r) c3 = Done (ch, c4).
Proof.
  intros Hrun Hin. destruct fuel as [| fuel]; [discriminate |].
  apply construct_cases in Hrun.
  destruct Hrun as [_ -> _ | fs _ _ _ -> | fs c1 _ _ _ Hleaf
                  | cs t0 ae af c2 _ _ _ Ht0 Hall Hs _].
  - contradiction.
  - contradiction.
  - apply leaf_fields in Hleaf.
    destruct Hleaf as (Hch & _). rewrite Hch in Hin. contradiction.
  - assert (Hlen : length cs = size).
    { apply Forall2_length in Hall. rewrite length_seq in Hall. auto. }
    apply simplify_children in Hs; [| eapply branch_isBranch; eauto].
    rewrite (branch_children cs t0 _ r Ht0) in Hs.
    destruct Hs as [Hs | Hs]; rewrite Hs in Hin; [| contradiction].
    clear - Hall Hin. revert Hin.
    induction Hall as [| j x js' cs' (c3 & c4 & Hx) _ IH]; intros Hin; [contradiction |].
    destruct Hin as [<- | Hin]; [| auto].
    exists fuel, j, c3, c4. exact Hx.
Qed.

Lemma Built_child (t ch : XTree) :
  Built t -> In ch (children t) -> Built ch.
Proof.
  intros (fuel & r & c & c' & Hrun) Hin.
  destruct (child_origin fuel r c c' t ch Hrun Hin) as (fuel' & j & c3 & c4 & Hch).
  exists fuel', (nth j (subdivide r) r), c3, c4. exact Hch.
Qed.

Lemma Built_subtree (n t : XTree) : subtree n t -> Built t -> Built n.
Proof.
  induction 1 as [| c t Hin _ IH]; intros Hb; [exact Hb |].
  apply IH. eapply Built_child; eauto.
Qed.


Lemma simplify_frame (b t : XTree) :
  isBranch b = true -> simplify b = Done t ->
  type t = type b /\ corners t = corners b /\ region t = region b
  /\ level t = max_level (children b) + 1.
Proof.
  intros Hb Hs. destruct (simplify_cases b t Hb Hs)
    as [[_ ->] | [(_ & _ & ->) | (_ & _ & x & [[_ ->] | [_ ->]])]]; cbn; auto;
    unfold merged; rewrite merge_fold; cbn; auto.
Qed.

Lemma aggregate_repeat (ty : Interval.State) (n : nat) :
  0 < n -> ty <> AMBIGUOUS -> aggregate (repeat ty n) = ty.
Proof.
  intros Hn Hty. destruct n as [| n]; [lia |].
  assert (Ha : forall s, forallb (fun x => Interval.State_eqb x s) (repeat s n) = true).
  { intros s. induction n as [| n IH]; simpl; [reflexivity |].
    rewrite IH by lia. destruct s; reflexivity. }
  unfold aggregate. destruct ty; try contradiction; simpl; rewrite Ha; reflexivity.
Qed.
End Built.

(** ** The edges of a cell *)


Lemma nth_zipWith {A B C} (f : A -> B -> C) (u : list A) (v : list B)
      (n : nat) (a : A) (b : B) (d : C) :
  n < length u -> n < length v ->
  nth n (zipWith f u v) d = f (nth n u a) (nth n v b).
Proof.
  revert u v. induction n as [| n IH]; intros [| x u] [| y v] Hu Hv; simpl in *; try lia.
  - reflexivity.
  - apply IH; lia.
Qed.



Section Edges.
Context {D : Dimension} {H : Header}.




Lemma accumulate_weight (n : nat) (ps : list vec) :
  forall m, Forall (fun p => length p = n) ps -> length m = S n ->
  nth n (accumulate ps m) 0%float
  = Nat.iter (length ps) (fun w => (w + 1)%dbl) (nth n m 0%float).
Proof.
  induction ps as [| p ps IH]; intros m Hall Hm; [reflexivity |].
  inversion Hall as [| ? ? Hp Hps]; subst.
  cbn [accumulate fold_left length]. fold (accumulate ps (vadd m (p ++ [1%float]))).
  rewrite IH; [| exact Hps |].
  - rewrite Nat.iter_succ_r. f_equal. unfold vadd.
    rewrite (nth_zipWith _ _ _ _ 0%float 0%float).
    + rewrite app_nth2 by lia.
      rewrite Nat.sub_diag. reflexivity.
    + lia.
    + rewrite length_app. simpl. lia.
  - unfold vadd. rewrite zipWith_length, length_app. simpl. lia.
Qed.
End Edges.

(** ** Arithmetic on a zero row *)

Lemma zero_like_0 : zero_like 0%float.
Proof. exists false. reflexivity. Qed.

Lemma zero_like_mul (z p : double) :
  zero_like z -> number p -> zero_like (z * p)%float.
Proof.
  intros [s Hz] Hp. unfold zero_like, number in *.
  rewrite mul_spec, Hz. unfold SF64mul, SFmul.
  destruct (Prim2SF p); try contradiction; eexists; reflexivity.
Qed.

Lemma zero_like_add (a b : double) :
  zero_like a -> zero_like b -> zero_like (a + b)%float.
Proof.
  intros [s Ha] [s' Hb]. unfold zero_like.
  rewrite add_spec, Ha, Hb. unfold SF64add, SFadd.
  destruct s, s'; eexists; reflexivity.
Qed.

Lemma zero_like_sum (l : list double) :
  Forall zero_like l -> zero_like (sum l).
Proof.
  intros Hl. destruct Hl as [| x l Hx Hl]; [apply zero_like_0 |].
  simpl. revert x Hx. induction Hl as [| y l Hy Hl IH]; intros x Hx; simpl; [exact Hx |].
  apply IH. apply zero_like_add; assumption.
Qed.

Lemma zero_like_dot (zs ps : list double) :
  Forall zero_like zs -> Forall number ps -> zero_like (dot zs ps).
Proof.
  intros Hz Hp. unfold dot. apply zero_like_sum.
  revert ps Hp. induction Hz as [| z zs Hz0 Hz IH]; intros ps Hp; [constructor |].
  destruct Hp as [| p ps Hp0 Hp]; [constructor |].
  simpl. constructor; [apply zero_like_mul; assumption | apply IH; exact Hp].
Qed.

(** A zero less [v] compares equal to [-v], whatever the sign of the
    zero, unless [v] is NaN. *)
Lemma zero_like_sub (z v : double) :
  zero_like z -> isnan v = false -> ((z - v) =? (- v))%float = true.
Proof.
  intros [s Hz] Hv. unfold isnan, is_nan in Hv. apply negb_false_iff in Hv.
  rewrite eqb_spec in Hv |- *. rewrite sub_spec, opp_spec, Hz.
  unfold SF64sub, SFsub, SFopp.
  destruct (Prim2SF v) as [sv | sv | | sv m e].
  - destruct s, sv; reflexivity.
  - destruct sv; reflexivity.
  - discriminate.
  - clear Hv. unfold SFeqb, SFcompare.
    destruct sv; simpl; rewrite Z.compare_refl, Pos.compare_cont_refl; reflexivity.
Qed.

(** A zero less [v] is zero exactly when [v] is. *)
Lemma zero_like_sub_zero (z v : double) :
  zero_like z -> isnan v = false -> ((z - v) =? 0)%float = (v =? 0)%float.
Proof.
  intros [s Hz] Hv. unfold isnan, is_nan in Hv. apply negb_false_iff in Hv.
  rewrite eqb_spec in Hv. rewrite !eqb_spec, sub_spec, Hz.
  unfold SF64sub, SFsub.
  destruct (Prim2SF v) as [sv | sv | | sv m e].
  - destruct s, sv; reflexivity.
  - destruct sv; reflexivity.
  - discriminate.
  - destruct sv; reflexivity.
Qed.

(** ** The intersections and the centroid of a leaf *)


Section Centroid.
Context {D : Dimension}.



End Centroid.

Section LeafRun.
Context {D : Dimension} {H : Header} {E : Type} {EV : Evaluator E}.







(** The node a run of the constructor returns stands on the region it
    was given. *)
Lemma new_XTree_region (fuel : nat) (r : Region) (c : Ctx E) (t : XTree) (c' : Ctx E) :
  new_XTree fuel r c = Done (t, c') -> region t = r.
Proof.
  intros Hrun. destruct fuel as [| fuel]; [discriminate |].
  apply construct_cases in Hrun.
  destruct Hrun as [_ -> _ | fs _ _ _ -> | fs c1 _ _ _ Hleaf
                  | cs t0 ae af c2 _ _ _ Ht0 Hall Hs _].
  - reflexivity.
  - reflexivity.
  - apply leaf_fields in Hleaf. destruct Hleaf as (_ & _ & _ & _ & Hr & _).
    rewrite Hr. reflexivity.
  - assert (Hlen : length cs = size).
    { apply Forall2_length in Hall. rewrite length_seq in Hall. auto. }
    apply simplify_frame in Hs; [| eapply branch_isBranch; eauto].
    destruct Hs as (_ & _ & Hr & _). rewrite Hr, Ht0.
    unfold fill. destruct (_ || _); reflexivity.
Qed.

Lemma for_pack_run (r : Region) (js : list nat) :
  forall (c : Ctx E),
    for_ js (pack (init r)) tt c
    = Done (tt, mkCtx (packed r js (ev c)) (calls c ++ map CSet js)).
Proof.
  induction js as [| j js IH]; intros c; simpl.
  - rewrite app_nil_r. destruct c; reflexivity.
  - unfold bind at 1. unfold pack at 1. unfold call_, call.
    rewrite IH. cbn [ev calls region init]. rewrite <- !app_assoc. reflexivity.
Qed.



End LeafRun.

(** ** The claims *)

Section Claims.
Context {D : Dimension} {H : Header} {E : Type} {EV : Evaluator E}.

(** C9.  If the interval evaluated at line 21 is filled or empty, the
    constructor returns a leaf of that type with every corner set to
    it and [manifold] true, with no child, no QEF and no vertex, and
    the only calls it makes on the evaluator are the interval
    evaluation, one push and one pop: no point is ever sampled, so
    the sign of F at the corners plays no part. *)
Theorem interval_prune_stops (fuel : nat) (r : Region) (c : Ctx E) :
  let i := fst (eval (lower3 r) (upper3 r) (ev c)) in
  isFilled i = true \/ isEmpty i = true ->
  exists t c',
    new_XTree (S fuel) r c = Done (t, c')
    /\ type t = (if isFilled i then FILLED else EMPTY)
    /\ corners t = repeat (type t) size
    /\ manifold t = true
    /\ children t = []
    /\ AtA t = mzero N N /\ AtB t = vzero N /\ BtB t = 0%float
    /\ _mass_point t = vzero (S N) /\ rank t = 0 /\ level t = 0 /\ vert t = None
    /\ calls c' = calls c ++ [CEval; CPush; CPop].
Proof.
  intros i Hi.
  assert (Hp : pruned (first_interval r c) = true).
  { unfold pruned. fold i. apply orb_true_iff. exact Hi. }
  assert (Hne : pruned_type (first_interval r c) <> AMBIGUOUS).
  { unfold pruned_type. destruct (isFilled _); discriminate. }
  assert (Hag : Interval.State_eqb (pruned_type (first_interval r c)) AMBIGUOUS = false).
  { unfold pruned_type. destruct (isFilled _); reflexivity. }
  exists (uniform_leaf r (pruned_type (first_interval r c))), (popped (entered r c)).
  split.
  - cbn [new_XTree]. unfold construct.
    rewrite (bind_eq _ _ _ _ _ (classify_pruned (new_XTree fuel) r c Hp)).
    pose proof (fill_uniform r (repeat EMPTY size) _ Hne (repeat_length _ _)) as Hfill.
    change (with_corners (repeat EMPTY size) (init r)) with (init r) in Hfill.
    rewrite Hfill. cbn [isBranch children uniform_leaf type]. rewrite Hag. reflexivity.
  - cbn. rewrite <- !app_assoc. repeat split; reflexivity.
Qed.

(** C3, as the code has it.  For a node the interval did not prune:
    a terminal cell's type is the aggregate of its corner states
    (all EMPTY, all FILLED, otherwise AMBIGUOUS); a subdivided cell's
    type is the aggregate, by the same rule, of the types of the
    nodes constructed for its sub-regions, whatever its corners
    are. *)
Theorem type_from_corners_or_children
    (fuel : nat) (r : Region) (c : Ctx E) (t : XTree) (c' : Ctx E) :
  new_XTree (S fuel) r c = Done (t, c') ->
  pruned (first_interval r c) = false ->
  ((0.001 <? volume r)%dbl = false -> type t = aggregate (corners t))
  /\ ((0.001 <? volume r)%dbl = true ->
      exists cs,
        Forall2 (fun j ch => exists c3 c4,
                     new_XTree fuel (nth j (subdivide r) r) c3 = Done (ch, c4))
                (seq 0 size) cs
        /\ type t = aggregate (map type cs)
        /\ (children t = cs \/ children t = [])).
Proof.
  intros Hrun Hp. apply construct_cases in Hrun.
  destruct Hrun as [Hp' _ _ | fs _ Hv Hne -> | fs c1 _ Hv Hag Hleaf
                    | cs t0 ae af c2 _ Hv _ Ht0 Hall Hs _].
  - congruence.
  - split; [| congruence]. intros _. cbn [type corners uniform_leaf].
    symmetry. apply aggregate_repeat; [apply size_pos | exact Hne].
  - split; [| congruence]. intros _.
    apply leaf_fields in Hleaf. destruct Hleaf as (_ & _ & Hty & Hco & _).
    rewrite Hty, Hco. cbn. symmetry. exact Hag.
  - split; [congruence |]. intros _.
    assert (Hlen : length cs = size).
    { apply Forall2_length in Hall. rewrite length_seq in Hall. auto. }
    pose proof (branch_isBranch cs t0 (aggregate (map type cs)) r Ht0 Hlen) as Hb.
    exists cs. split; [exact Hall |]. split.
    + apply simplify_frame in Hs; [| exact Hb]. destruct Hs as (Hty & _).
      rewrite Hty. unfold fill. cbn [type with_type].
      destruct (_ || _); reflexivity.
    + apply simplify_children in Hs; [| exact Hb].
      rewrite (branch_children cs t0 _ r Ht0) in Hs. exact Hs.
Qed.


(** C6, as the code has it.  A leaf of a finished tree that was
    constructed as a leaf has rank equal to the count of eigenvalues
    of its AtA of absolute value at least the cutoff when it is a
    manifold AMBIGUOUS leaf, and rank 0 with a zero AtA otherwise.  A
    leaf that [simplify] made out of a branch has the largest rank
    among the children it released, and the sum of their AtA. *)
Theorem rank_of_every_leaf
    (fuel : nat) (r : Region) (c : Ctx E) (root : XTree) (c' : Ctx E) (n : XTree) :
  new_XTree fuel r c = Done (root, c') ->
  subtree n root ->
  isBranch n = false ->
  (level n = 0
   /\ ((type n = AMBIGUOUS /\ manifold n = true
        /\ rank n = count_rank (solve (AtA n)))
       \/ ((type n <> AMBIGUOUS \/ manifold n = false)
           /\ rank n = 0 /\ AtA n = mzero N N)))
  \/ (exists b,
        isBranch b = true /\ Forall Built (children b)
        /\ simplify b = Done n
        /\ rank n = max_rank (children b)
        /\ AtA n = fold_left madd (map AtA (children b)) (mzero N N)).
Proof.
  intros Hrun Hsub Hleafn.
  assert (Hb : Built n).
  { eapply Built_subtree; [exact Hsub |]. exists fuel, r, c, c'. exact Hrun. }
  destruct (Built_cases n Hb) as (fuel' & r' & c1 & c1' & Hk).
  destruct Hk as [_ -> _ | fs _ _ Hne -> | fs c2 _ _ _ Hleaf
                  | cs t0 ae af c2 _ _ _ Ht0 Hall Hs _].
  - left. split; [reflexivity |]. right. cbn. repeat split; auto.
    left. unfold pruned_type. destruct (isFilled _); discriminate.
  - left. split; [reflexivity |]. right. cbn. repeat split; auto.
  - left. apply leaf_fields in Hleaf.
    destruct Hleaf as (_ & Hlv & Hty & _ & _ & _ & _ & Hman & Hnon).
    split; [rewrite Hlv; reflexivity |].
    destruct (manifold n) eqn:Hm.
    + left. rewrite Hty. auto.
    + right. destruct (Hnon eq_refl) as (Hr & Ha & _).
      rewrite Hr, Ha. cbn. auto.
  - right.
    assert (Hlen : length cs = size).
    { apply Forall2_length in Hall. rewrite length_seq in Hall. auto. }
    pose proof (branch_isBranch cs t0 (aggregate (map type cs)) r' Ht0 Hlen) as Hbr.
    pose proof (branch_children cs t0 (aggregate (map type cs)) r' Ht0) as Hcs.
    eexists. split; [exact Hbr |]. split; [| split; [exact Hs |]].
    + rewrite Hcs. clear - Hall. induction Hall as [| j x js' cs' (c3 & c4 & Hx) _ IH].
      * constructor.
      * constructor; [| exact IH]. exists fuel', (nth j (subdivide r') r'), c3, c4. exact Hx.
    + destruct (simplify_cases _ _ Hbr Hs)
        as [[_ Hn] | [(_ & _ & Hn) | (_ & _ & x & [[_ Hn] | [_ Hn]])]].
      * exfalso. rewrite Hn in Hleafn.
        change (isBranch (fill (with_type (aggregate (map type cs)) t0)) = false) in Hleafn.
        congruence.
      * exfalso. rewrite Hn in Hleafn.
        change (isBranch (fill (with_type (aggregate (map type cs)) t0)) = false) in Hleafn.
        congruence.
      * exfalso. rewrite Hn in Hleafn.
        change (isBranch (merged (fill (with_type (aggregate (map type cs)) t0))) = false) in Hleafn.
        rewrite merged_isBranch in Hleafn. congruence.
      * rewrite Hn. cbn [rank AtA with_children with_vert].
        unfold merged. rewrite merge_fold. cbn [rank AtA with_QEF with_mass_point with_rank].
        split; [reflexivity |]. f_equal.
        rewrite Ht0. unfold fill. cbn [type with_type].
        destruct (_ || _); reflexivity.
Qed.

(** C8.  A branch whose children are all leaves and that passes the
    three manifold checks takes the largest rank among its children,
    the sums of AtA, AtB and BtB over all of them, and the sum of
    _mass_point over the children of that rank.  Its vertex is the
    one lines 335-359 solve from those sums: the pseudo-inverse of
    the summed AtA applied to AtB - AtA * c, plus c, with c the
    centre of the summed mass point.  Its children are released
    exactly when the QEF value of line 362 at that vertex is below
    1e-8. *)
Theorem collapse_merges_children (b : XTree) :
  isBranch b = true ->
  forallb (fun o => negb (isBranch o)) (children b) = true ->
  collapsible b = true ->
  AtA b = mzero N N -> AtB b = vzero N -> BtB b = 0%float ->
  _mass_point b = vzero (S N) ->
  let A := fold_left madd (map AtA (children b)) (mzero N N) in
  let B := fold_left vadd (map AtB (children b)) (vzero N) in
  let C := fold_left PrimFloat.add (map BtB (children b)) 0%float in
  let mp := fold_left vadd
              (map _mass_point
                 (filter (fun c => Nat.eqb (rank c) (max_rank (children b))) (children b)))
              (vzero (S N)) in
  let x := minimizer A B mp in
  exists t,
    simplify b = Done t
    /\ rank t = max_rank (children b)
    /\ AtA t = A /\ AtB t = B /\ BtB t = C /\ _mass_point t = mp
    /\ vert t = Some x
    /\ (children t = [] <-> (quadratic A B C x <? 1e-8)%dbl = true)
    /\ (children t = [] \/ children t = children b).
Proof.
  intros Hb Hleaves Hc Ha Hab Hbb Hmp A B C mp x.
  assert (Hm : merged b
               = with_QEF A B C
                   (with_mass_point mp
                      (with_rank (max_rank (children b))
                         (with_manifold true
                            (with_level (max_level (children b) + 1) b))))).
  { unfold merged. rewrite merge_fold.
    cbn [AtA AtB BtB _mass_point rank with_rank with_manifold with_level].
    rewrite Ha, Hab, Hbb, Hmp. reflexivity. }
  assert (Hv : findVertex (merged b)
               = Done (quadratic A B C x, with_vert x (merged b))).
  { unfold findVertex, findVertex_es. rewrite merged_isBranch, Hb. cbn [negb andb].
    rewrite Hm. reflexivity. }
  assert (Hs : simplify b
               = Done (if (quadratic A B C x <? 1e-8)%dbl
                       then with_children [] (with_vert x (merged b))
                       else with_vert x (merged b))).
  { rewrite simplify_unfold, Hleaves, Hc, Hv. reflexivity. }
  eexists. split; [exact Hs |].
  destruct (quadratic A B C x <? 1e-8)%dbl eqn:Herr.
  - rewrite Hm. cbn. repeat split; auto.
  - rewrite Hm. cbn. repeat split; auto; try discriminate.
    intros Hnil. unfold isBranch in Hb. rewrite Hnil in Hb. discriminate.
Qed.

End Claims.

Lemma In_firstn {A} (n : nat) (l : list A) (x : A) : In x (firstn n l) -> In x l.
Proof.
  revert l. induction n as [| n IH]; intros [| a l] Hin; simpl in *; try contradiction.
  destruct Hin as [-> | Hin]; [left; reflexivity | right; apply IH; exact Hin].
Qed.

Section RowClaim.
Context {D : Dimension}.

(** C2, as the code has it.  For a sample whose gradient has a NaN
    component the row of A is zero, and the entry of b is that zero
    row's product with the sample point, less the value of the field
    there: when the point's coordinates are numbers and the value is
    not NaN, b(i) compares equal to -F(p_i), and it is zero exactly
    when F(p_i) is. *)
Theorem nan_gradient_row (ds : Derivs) (t : XTree) (i : nat) :
  isnan (dx ds i) || isnan (dy ds i) || isnan (dz ds i) = true ->
  fst (row ds t i) = firstn N [0; 0; 0]%float
  /\ snd (row ds t i)
     = (dot (firstn N [0; 0; 0]%float) (positions t i) - v ds i)%float
  /\ (Forall number (positions t i) -> isnan (v ds i) = false ->
      (snd (row ds t i) =? - v ds i)%float = true
      /\ (snd (row ds t i) =? 0)%float = (v ds i =? 0)%float).
Proof.
  intros Hnan. unfold row. rewrite Hnan. cbn [fst snd].
  split; [reflexivity |]. split; [reflexivity |].
  intros Hp Hv.
  assert (Hz : zero_like (dot (firstn N [0; 0; 0]%float) (positions t i))).
  { apply zero_like_dot; [| exact Hp].
    apply Forall_forall. intros z Hz. apply In_firstn in Hz.
    simpl in Hz. destruct Hz as [<- | [<- | [<- | []]]]; apply zero_like_0. }
  split; [apply zero_like_sub | apply zero_like_sub_zero]; assumption.
Qed.
End RowClaim.

(** ** The claims on the examples *)

(** C1.  Building [Quad.cell] over [Quad.plane] takes the subdivide
    path once, with four children that are leaves.  Each child pushes
    once and pops once; the root pushes once (line 23) and pops twice
    (lines 53 and 78).  The run ends with one more pop than pushes and
    the evaluator's stack one frame below where it started. *)
Theorem subdivide_pops_twice :
  let c := snd (Cases.built Quad.plane 2 Quad.cell) in
  filter (fun k => Quad.is_push k || Quad.is_pop k) (calls c)
  = [CPush; CPush; CPop; CPush; CPop; CPush; CPop; CPush; CPop; CPop; CPop]
  /\ length (filter Quad.is_push (calls c)) = 5
  /\ length (filter Quad.is_pop (calls c)) = 6
  /\ Quad.depth (ev c) = (-1)%Z.
Proof. vm_compute. repeat split. Qed.

(** C4.  Candidate [j] lies at parameter [j / (N - 1)], not [j / 15]:
    with the bracket from 0 to 1 along the first axis, candidate 15 is
    at 15 for N = 2 and at 7.5 for N = 3, and for N = 2 candidate 1 is
    already the outside endpoint. *)
Theorem candidates_overshoot :
  @candidate Quad.dim [0; 0]%float [1; 0]%float 15 = [15; 0]%float
  /\ @candidate Cases.dim3 [0; 0; 0]%float [1; 0; 0]%float 15 = [7.5; 0; 0]%float
  /\ @candidate Quad.dim [0; 0]%float [1; 0]%float 1 = [1; 0]%float.
Proof. vm_compute. repeat split. Qed.

(** C5.  With an evaluator whose [set] goes through a frame that
    [setRaw] skips, the corner that sampled as filled evaluates
    non-negative as candidate 0 of the first search pass, and the
    constructor reads [ps[-1]]. *)
Theorem first_candidate_outside_reads_before_ps :
  @new_XTree Quad.dim Quad.header Quad.Tape (Quad.framed Quad.mirror Quad.plane)
             1 Quad.quarter Quad.start
  = Stop (OutOfBounds (-1) 16)
  /\ @search Quad.dim Quad.Tape (Quad.evaluator Quad.nothing)
             (@init Quad.dim Quad.quarter) 0
             ([0; 0]%float, [0x1p-5; 0]%float) Quad.start
     = Stop (OutOfBounds (-1) 16).
Proof. vm_compute. split; reflexivity. Qed.

(** C2, the claim as stated fails: at the centre of [Cases.disc] the
    gradient is NaN, the row of A is zero, and the entry of b is
    1/64, the value of the field there with its sign changed. *)
Lemma nan_sample_enters_b :
  let t := @init Quad.dim Quad.quarter in
  isnan (dx Cases.apex 0) = true
  /\ fst (@row Quad.dim Cases.apex t 0) = [0; 0]%float
  /\ snd (@row Quad.dim Cases.apex t 0) = 0x1p-6%float
  /\ snd (@row Quad.dim Cases.apex t 0) <> 0%float.
Proof.
  vm_compute. repeat split. intros Heq.
  apply (f_equal (fun x => PrimFloat.eqb x 0)) in Heq. vm_compute in Heq. discriminate.
Qed.

(** C3, the claim as stated fails: over [Quad.bubble] the four
    children of [Quad.cell] are AMBIGUOUS, its four corners are
    FILLED, the interval did not prune it, and its type is
    AMBIGUOUS. *)
Lemma uniform_corners_ambiguous_type :
  let t := fst (Cases.built Quad.bubble 2 Quad.cell) in
  @pruned Quad.header (@first_interval Quad.Tape (Quad.evaluator Quad.bubble) Quad.cell Quad.start)
  = false
  /\ corners t = [FILLED; FILLED; FILLED; FILLED]
  /\ map type (children t) = [AMBIGUOUS; AMBIGUOUS; AMBIGUOUS; AMBIGUOUS]
  /\ type t = AMBIGUOUS
  /\ type t <> FILLED.
Proof. vm_compute. repeat split. discriminate. Qed.

(** C6, the claim as stated fails: over [Quad.arc] the cell collapses
    into a leaf of rank 1, the rank of its two ambiguous children,
    while two eigenvalues of its summed AtA reach the cutoff. *)
Lemma collapsed_rank_below_count :
  let t := fst (Cases.built Quad.arc 2 Quad.cell) in
  @isBranch t = false
  /\ rank t = 1
  /\ @count_rank Quad.header (Quad.solve (AtA t)) = 2
  /\ rank t <> @count_rank Quad.header (Quad.solve (AtA t)).
Proof. vm_compute. repeat split. discriminate. Qed.



(** ** The theorems at concrete inputs *)

Lemma nan_gradient_row_witness :
  let t := @init Quad.dim Quad.quarter in
  isnan (dx Cases.apex 0) || isnan (dy Cases.apex 0) || isnan (dz Cases.apex 0) = true
  /\ fst (@row Quad.dim Cases.apex t 0) = [0; 0]%float
  /\ snd (@row Quad.dim Cases.apex t 0)
     = (dot [0; 0]%float (@positions Quad.dim t 0) - v Cases.apex 0)%float
  /\ (Forall number (@positions Quad.dim t 0) -> isnan (v Cases.apex 0) = false ->
      (snd (@row Quad.dim Cases.apex t 0) =? - v Cases.apex 0)%float = true
      /\ (snd (@row Quad.dim Cases.apex t 0) =? 0)%float = (v Cases.apex 0 =? 0)%float).
Proof.
  split; [vm_compute; reflexivity |].
  apply (@nan_gradient_row Quad.dim Cases.apex (@init Quad.dim Quad.quarter) 0).
  vm_compute. reflexivity.
Defined.

Lemma interval_prune_stops_witness :
  let r := Quad.cell in
  let c := Quad.start in
  let i := fst (@eval _ (Quad.evaluator Cases.overfilled) (lower3 r) (upper3 r) (ev c)) in
  (@isFilled Quad.header i = true \/ @isEmpty Quad.header i = true)
  /\ exists t c',
      Quad.run Cases.overfilled 1 r = Done (t, c')
      /\ type t = (if @isFilled Quad.header i then FILLED else EMPTY)
      /\ corners t = repeat (type t) (@size Quad.dim)
      /\ manifold t = true
      /\ children t = []
      /\ AtA t = mzero 2 2 /\ AtB t = vzero 2 /\ BtB t = 0%float
      /\ _mass_point t = vzero 3 /\ rank t = 0 /\ level t = 0 /\ vert t = None
      /\ calls c' = calls c ++ [CEval; CPush; CPop].
Proof.
  split; [left; vm_compute; reflexivity |].
  apply (@interval_prune_stops Quad.dim Quad.header Quad.Tape
           (Quad.evaluator Cases.overfilled) 0 Quad.cell Quad.start).
  left. vm_compute. reflexivity.
Defined.

Lemma type_from_corners_or_children_witness :
  let r := Quad.cell in
  let t := fst (Cases.built Quad.bubble 2 r) in
  Quad.run Quad.bubble 2 r = Done (t, snd (Cases.built Quad.bubble 2 r))
  /\ @pruned Quad.header
       (@first_interval Quad.Tape (Quad.evaluator Quad.bubble) r Quad.start) = false
  /\ ((0.001 <? volume r)%float = false -> type t = aggregate (corners t))
  /\ ((0.001 <? volume r)%float = true ->
      exists cs,
        Forall2 (fun j ch => exists c3 c4,
                     @new_XTree Quad.dim Quad.header Quad.Tape (Quad.evaluator Quad.bubble)
                                1 (nth j (@subdivide Quad.dim r) r) c3 = Done (ch, c4))
                (seq 0 (@size Quad.dim)) cs
        /\ type t = aggregate (map type cs)
        /\ (children t = cs \/ children t = [])).
Proof.
  split; [vm_compute; reflexivity |]. split; [vm_compute; reflexivity |].
  apply (@type_from_corners_or_children Quad.dim Quad.header Quad.Tape
           (Quad.evaluator Quad.bubble) 1 Quad.cell Quad.start
           (fst (Cases.built Quad.bubble 2 Quad.cell))
           (snd (Cases.built Quad.bubble 2 Quad.cell))).
  - vm_compute. reflexivity.
  - vm_compute. reflexivity.
Defined.


Lemma rank_of_every_leaf_witness :
  let root := fst (Cases.built Quad.bubble 2 Quad.cell) in
  let n := nth 0 (children root) root in
  Quad.run Quad.bubble 2 Quad.cell = Done (root, snd (Cases.built Quad.bubble 2 Quad.cell))
  /\ subtree n root
  /\ isBranch n = false
  /\ ((level n = 0
       /\ ((type n = AMBIGUOUS /\ manifold n = true
            /\ rank n = @count_rank Quad.header (Quad.solve (AtA n)))
           \/ ((type n <> AMBIGUOUS \/ manifold n = false)
               /\ rank n = 0 /\ AtA n = mzero 2 2)))
      \/ (exists b,
            isBranch b = true
            /\ Forall (@Built Quad.dim Quad.header Quad.Tape (Quad.evaluator Quad.bubble))
                      (children b)
            /\ @simplify Quad.dim Quad.header b = Done n
            /\ rank n = max_rank (children b)
            /\ AtA n = fold_left madd (map AtA (children b)) (mzero 2 2))).
Proof.
  assert (Hsub : subtree (nth 0 (children (fst (Cases.built Quad.bubble 2 Quad.cell)))
                              (fst (Cases.built Quad.bubble 2 Quad.cell)))
                         (fst (Cases.built Quad.bubble 2 Quad.cell))).
  { eapply subtree_below; [| constructor]. vm_compute. left. reflexivity. }
  split; [vm_compute; reflexivity |]. split; [exact Hsub |].
  split; [vm_compute; reflexivity |].
  apply (@rank_of_every_leaf Quad.dim Quad.header Quad.Tape (Quad.evaluator Quad.bubble)
           2 Quad.cell Quad.start
           (fst (Cases.built Quad.bubble 2 Quad.cell))
           (snd (Cases.built Quad.bubble 2 Quad.cell))
           (nth 0 (children (fst (Cases.built Quad.bubble 2 Quad.cell)))
                (fst (Cases.built Quad.bubble 2 Quad.cell)))).
  - vm_compute. reflexivity.
  - exact Hsub.
  - vm_compute. reflexivity.
Defined.

Lemma collapse_merges_children_witness :
  let b := Cases.plane_branch in
  let A := fold_left madd (map AtA (children b)) (mzero 2 2) in
  let B := fold_left vadd (map AtB (children b)) (vzero 2) in
  let C := fold_left PrimFloat.add (map BtB (children b)) 0%float in
  let mp := fold_left vadd
              (map _mass_point
                 (filter (fun c => Nat.eqb (rank c) (max_rank (children b))) (children b)))
              (vzero 3) in
  let x := @minimizer Quad.dim Quad.header A B mp in
  isBranch b = true
  /\ forallb (fun o => negb (isBranch o)) (children b) = true
  /\ @collapsible Quad.header b = true
  /\ exists t,
      @simplify Quad.dim Quad.header b = Done t
      /\ rank t = max_rank (children b)
      /\ AtA t = A /\ AtB t = B /\ BtB t = C /\ _mass_point t = mp
      /\ vert t = Some x
      /\ (children t = [] <-> (quadratic A B C x <? 1e-8)%float = true)
      /\ (children t = [] \/ children t = children b).
Proof.
  split; [vm_compute; reflexivity |]. split; [vm_compute; reflexivity |].
  split; [vm_compute; reflexivity |].
  apply (@collapse_merges_children Quad.dim Quad.header Cases.plane_branch);
    vm_compute; reflexivity.
Defined.


(** * Further properties *)

(** ** The layout of a finished tree *)

Section Structure.
Context {D : Dimension} {H : Header} {E : Type} {EV : Evaluator E}.

(** The loop over the children leaves corner [j] of the node equal to
    corner [j] of child [j]. *)
Lemma populate_corners (self : Region -> M E XTree) (rs : list Region) (k : nat) :
  forall a t ae af c t' ae' af' c',
    a + k <= length (corners t) ->
    for_ (seq a k) (populate self rs) (t, ae, af) c = Done ((t', ae', af'), c') ->
    exists cs,
      children t' = children t ++ cs
      /\ length cs = k
      /\ length (corners t') = length (corners t)
      /\ (forall j, j < a -> nth j (corners t') EMPTY = nth j (corners t) EMPTY)
      /\ (forall j d, j < k ->
            nth (a + j) (corners t') EMPTY = nth (a + j) (corners (nth j cs d)) EMPTY).
Proof.
  induction k as [| k IH]; intros a t ae af c t' ae' af' c' Hlen Hrun; simpl in Hrun.
  - inversion Hrun; subst. exists []. rewrite app_nil_r.
    repeat split; auto. intros j d Hj. lia.
  - unbind Hrun. destruct a0 as [[t1 ae1] af1].
    unfold populate in Hm. unbind Hm. inversion Hm; subst; clear Hm.
    apply IH in Hrun; [| cbn; rewrite update_length; lia].
    destruct Hrun as (cs & Hch & Hk & Hl & Hlow & Hup).
    cbn [children corners with_children with_corners] in *.
    exists (a0 :: cs). repeat split.
    + rewrite Hch, <- app_assoc. reflexivity.
    + simpl. lia.
    + rewrite Hl. apply update_length.
    + intros j Hj. rewrite Hlow by lia. apply nth_update_neq. lia.
    + intros [| j] d Hj.
      * rewrite Nat.add_0_r. rewrite Hlow by lia. simpl. apply nth_update_eq. lia.
      * replace (a + S j) with (S a + j) by lia. simpl nth at 3. apply Hup. lia.
Qed.

(** The children of a returned node, when it kept them, are the nodes
    the constructor returned for the sub-regions, in order. *)
Lemma children_origin (fuel : nat) (r : Region) (c : Ctx E) (t : XTree) (c' : Ctx E) :
  new_XTree (S fuel) r c = Done (t, c') ->
  children t = []
  \/ Forall2 (fun j ch => exists c3 c4,
                  new_XTree fuel (nth j (subdivide r) r) c3 = Done (ch, c4))
             (seq 0 size) (children t).
Proof.
  intros Hrun. apply construct_cases in Hrun.
  destruct Hrun as [_ -> _ | fs _ _ _ -> | fs c1 _ _ _ Hleaf
                  | cs t0 ae af c2 _ _ _ Ht0 Hall Hs _].
  - left. reflexivity.
  - left. reflexivity.
  - left. apply leaf_fields in Hleaf. destruct Hleaf as (Hch & _). exact Hch.
  - assert (Hlen : length cs = size).
    { apply Forall2_length in Hall. rewrite length_seq in Hall. auto. }
    apply simplify_children in Hs; [| eapply branch_isBranch; eauto].
    rewrite (branch_children cs t0 _ r Ht0) in Hs.
    destruct Hs as [-> | ->]; [right; exact Hall | left; reflexivity].
Qed.

Lemma fill_corners_length (t : XTree) : length (corners (fill t)) = length (corners t).
Proof. unfold fill. destruct (_ || _); cbn; [apply length_map | reflexivity]. Qed.

(** The corners a subdivided cell has when the loop over its children
    is done. *)
Lemma branch_corners (self : Region -> M E XTree) (r : Region) (c : Ctx E)
      (t0 : XTree) (ae af : bool) (c2 : Ctx E) (cs : list XTree) :
  for_ (seq 0 size) (populate self (subdivide r)) (init r, true, true) c
  = Done ((t0, ae, af), c2) ->
  t0 = with_corners (corners t0) (with_children cs (init r)) ->
  length (corners t0) = size
  /\ forall j d, j < size -> nth j (corners t0) EMPTY = nth j (corners (nth j cs d)) EMPTY.
Proof.
  intros Hloop Ht0. apply populate_corners in Hloop; [| cbn; rewrite repeat_length; lia].
  destruct Hloop as (cs' & Hch & Hk & Hl & _ & Hup).
  cbn in Hch, Hl. rewrite repeat_length in Hl.
  assert (Hcs : cs' = cs) by (rewrite Ht0 in Hch; cbn in Hch; congruence).
  rewrite Hcs in Hup.
  split; [exact Hl |]. intros j d Hj. apply (Hup j d Hj).
Qed.

(** Every node the constructor returns has 2^N corners, and no child
    or 2^N children. *)
Lemma node_shape (fuel : nat) (r : Region) (c : Ctx E) (t : XTree) (c' : Ctx E) :
  new_XTree fuel r c = Done (t, c') ->
  length (corners t) = size
  /\ (children t = [] \/ length (children t) = size).
Proof.
  intros Hrun. destruct fuel as [| fuel]; [discriminate |].
  pose proof (children_origin _ _ _ _ _ Hrun) as Hch.
  split.
  - apply construct_cases in Hrun.
    destruct Hrun as [_ -> _ | fs _ _ _ -> | fs c1 _ _ _ Hleaf
                    | cs t0 ae af c2 _ _ Hloop Ht0 Hall Hs _].
    + apply repeat_length.
    + apply repeat_length.
    + apply leaf_fields in Hleaf. destruct Hleaf as (_ & _ & _ & Hco & _).
      rewrite Hco. cbn. rewrite length_map, length_seq. reflexivity.
    + assert (Hlen : length cs = size).
      { apply Forall2_length in Hall. rewrite length_seq in Hall. auto. }
      apply simplify_frame in Hs; [| eapply branch_isBranch; eauto].
      destruct Hs as (_ & Hco & _). rewrite Hco, fill_corners_length. cbn.
      apply (branch_corners _ _ _ _ _ _ _ cs Hloop Ht0).
  - destruct Hch as [Hch | Hch]; [left; exact Hch | right].
    apply Forall2_length in Hch. rewrite length_seq in Hch. auto.
Qed.

(** A node of type FILLED or EMPTY has every corner in that state. *)
Lemma uniform_corners (fuel : nat) (r : Region) (c : Ctx E) (t : XTree) (c' : Ctx E) :
  new_XTree fuel r c = Done (t, c') ->
  type t <> AMBIGUOUS ->
  corners t = repeat (type t) size.
Proof.
  intros Hrun Hty. destruct fuel as [| fuel]; [discriminate |].
  apply construct_cases in Hrun.
  destruct Hrun as [_ -> _ | fs _ _ _ -> | fs c1 _ _ Hag Hleaf
                  | cs t0 ae af c2 _ _ Hloop Ht0 Hall Hs _].
  - reflexivity.
  - reflexivity.
  - apply leaf_fields in Hleaf. destruct Hleaf as (_ & _ & Ht & _).
    rewrite Ht in Hty. cbn in Hty. contradiction.
  - assert (Hlen : length cs = size).
    { apply Forall2_length in Hall. rewrite length_seq in Hall. auto. }
    apply simplify_frame in Hs; [| eapply branch_isBranch; eauto].
    destruct Hs as (Ht & Hco & _). rewrite Hco, Ht in *.
    destruct (branch_corners _ _ _ _ _ _ _ cs Hloop Ht0) as [Hl _].
    unfold fill in *. cbn [type with_type] in *.
    destruct (aggregate (map type cs)); try contradiction; cbn;
      rewrite map_const, Hl; reflexivity.
Qed.
End Structure.

Lemma aggregate_uniform (l : list Interval.State) (s : Interval.State) :
  aggregate l = s -> s <> AMBIGUOUS -> Forall (eq s) l.
Proof.
  unfold aggregate. intros Hag Hs.
  destruct (forallb _ l) eqn:He.
  - subst s. rewrite forallb_forall in He. apply Forall_forall.
    intros x Hx. symmetry. apply State_eqb_eq. auto.
  - destruct (forallb (fun s0 => Interval.State_eqb s0 FILLED) l) eqn:Hf; [| congruence].
    subst s. rewrite forallb_forall in Hf. apply Forall_forall.
    intros x Hx. symmetry. apply State_eqb_eq. auto.
Qed.

Lemma Forall2_nth_seq {A} (P : nat -> A -> Prop) (l : list A) (n : nat) :
  forall a, Forall2 P (seq a n) l ->
  forall j d, j < n -> P (a + j) (nth j l d).
Proof.
  revert l. induction n as [| n IH]; intros l a Hall j d Hj; [lia |].
  simpl in Hall. inversion Hall as [| ? x ? l' Hx Hrest]; subst.
  destruct j as [| j]; simpl.
  - rewrite Nat.add_0_r. exact Hx.
  - replace (a + S j) with (S a + j) by lia. apply IH; [exact Hrest | lia].
Qed.

Section Layout.
Context {D : Dimension} {H : Header} {E : Type} {EV : Evaluator E}.

Lemma nth_subdivide (r : Region) (j : nat) :
  j < size -> nth j (subdivide r) r = subregion r j.
Proof.
  intros Hj. unfold subdivide.
  rewrite (nth_indep _ r (subregion r 0)) by (rewrite length_map, length_seq; exact Hj).
  rewrite map_nth, seq_nth by exact Hj. reflexivity.
Qed.

(** A node that kept its children: child [j] stands on sub-region [j],
    and corner [j] of the node is corner [j] of child [j]. *)
Lemma branch_layout (fuel : nat) (r : Region) (c : Ctx E) (t : XTree) (c' : Ctx E) :
  new_XTree fuel r c = Done (t, c') ->
  isBranch t = true ->
  length (children t) = size
  /\ forall j d, j < size ->
       region (nth j (children t) d) = subregion (region t) j
       /\ cornerState t j = cornerState (nth j (children t) d) j.
Proof.
  intros Hrun Hb. pose proof (new_XTree_region _ _ _ _ _ Hrun) as Hr.
  destruct fuel as [| fuel]; [discriminate |].
  apply construct_cases in Hrun.
  destruct Hrun as [_ -> _ | fs _ _ _ -> | fs c1 _ _ _ Hleaf
                  | cs t0 ae af c2 _ _ Hloop Ht0 Hall Hs _].
  - discriminate.
  - discriminate.
  - apply leaf_fields in Hleaf. destruct Hleaf as (Hch & _).
    unfold isBranch in Hb. rewrite Hch in Hb. discriminate.
  - assert (Hlen : length cs = size).
    { apply Forall2_length in Hall. rewrite length_seq in Hall. auto. }
    pose proof Hs as Hfr. apply simplify_frame in Hfr; [| eapply branch_isBranch; eauto].
    destruct Hfr as (Hty & Hco & _).
    apply simplify_children in Hs; [| eapply branch_isBranch; eauto].
    rewrite (branch_children cs t0 _ r Ht0) in Hs.
    destruct Hs as [Hch | Hch]; [| unfold isBranch in Hb; rewrite Hch in Hb; discriminate].
    rewrite Hch. split; [exact Hlen |]. intros j d Hj.
    destruct (Forall2_nth_seq _ _ _ _ Hall j d Hj) as (c3 & c4 & Hchild).
    simpl in Hchild. split.
    + rewrite (new_XTree_region _ _ _ _ _ Hchild), Hr. apply nth_subdivide. exact Hj.
    + unfold cornerState. rewrite Hco.
      destruct (branch_corners _ _ _ _ _ _ _ cs Hloop Ht0) as [Hl Hin].
      unfold fill. cbn [type with_type].
      destruct (aggregate (map type cs)) eqn:Hag; cbn.
      * pose proof (aggregate_uniform _ _ Hag ltac:(discriminate)) as Hu.
        rewrite Forall_forall in Hu.
        assert (Htc : type (nth j cs d) = EMPTY).
        { symmetry. apply Hu. apply in_map. apply nth_In. lia. }
        rewrite (uniform_corners _ _ _ _ _ Hchild) by (rewrite Htc; discriminate).
        rewrite Htc, map_const, Hl. reflexivity.
      * pose proof (aggregate_uniform _ _ Hag ltac:(discriminate)) as Hu.
        rewrite Forall_forall in Hu.
        assert (Htc : type (nth j cs d) = FILLED).
        { symmetry. apply Hu. apply in_map. apply nth_In. lia. }
        rewrite (uniform_corners _ _ _ _ _ Hchild) by (rewrite Htc; discriminate).
        rewrite Htc, map_const, Hl. reflexivity.
      * apply Hin. exact Hj.
Qed.

Lemma leaf_vert (t : XTree) (c : Ctx E) (n : XTree) (c' : Ctx E) :
  leaf t c = Done (n, c') -> exists x, vert n = Some x.
Proof.
  unfold leaf. intros Hrun. unbind Hrun.
  apply edges_loop in Hm. destruct Hm as (ps & _ & _ & ->).
  cbn [manifold with_mass_point with_manifold] in Hrun.
  destruct (cornersAreManifold t).
  - apply solve_leaf_inv in Hrun. destruct Hrun as (a0 & b & q & x & ->).
    exists x. reflexivity.
  - inversion Hrun; subst. eexists. reflexivity.
Qed.

(** How a returned node stands to the volume test of line 39. *)
Lemma node_volume (fuel : nat) (r : Region) (c : Ctx E) (t : XTree) (c' : Ctx E) :
  new_XTree fuel r c = Done (t, c') ->
  (0 < level t -> (0.001 <? volume (region t))%dbl = true)
  /\ (level t = 0 -> type t = AMBIGUOUS -> (0.001 <? volume (region t))%dbl = false)
  /\ (isBranch t = true -> 0 < level t)
  /\ (isBranch t = false -> type t = AMBIGUOUS -> exists x, vert t = Some x).
Proof.
  intros Hrun. pose proof (new_XTree_region _ _ _ _ _ Hrun) as Hr.
  destruct fuel as [| fuel]; [discriminate |].
  apply construct_cases in Hrun.
  destruct Hrun as [_ -> _ | fs _ Hv Hne -> | fs c1 _ Hv _ Hleaf
                  | cs t0 ae af c2 _ Hv Hloop Ht0 Hall Hs _].
  - assert (Hne : pruned_type (first_interval r c) <> AMBIGUOUS).
    { unfold pruned_type. destruct (isFilled _); discriminate. }
    cbn. repeat split; try lia; try discriminate; intros; try contradiction.
  - cbn. repeat split; try lia; try discriminate; intros; try contradiction.

  - pose proof (leaf_vert _ _ _ _ Hleaf) as Hx.
    apply leaf_fields in Hleaf. destruct Hleaf as (Hch & Hlv & _).
    rewrite Hr, Hlv. cbn. unfold isBranch. rewrite Hch. cbn.
    repeat split; try lia; try discriminate; auto.
  - assert (Hlen : length cs = size).
    { apply Forall2_length in Hall. rewrite length_seq in Hall. auto. }
    pose proof (branch_isBranch cs t0 (aggregate (map type cs)) r Ht0 Hlen) as Hb.
    pose proof (simplify_frame _ _ Hb Hs) as (_ & _ & _ & Hlv).
    rewrite Hr, Hlv. repeat split; try lia; auto.
    intros Hleaf _.
    destruct (simplify_cases _ _ Hb Hs)
      as [[_ Ht] | [(_ & _ & Ht) | (_ & _ & x & [[_ Ht] | [_ Ht]])]];
      try (rewrite Ht in Hleaf; cbn in Hleaf;
           try (unfold merged in Hleaf; rewrite merge_fold in Hleaf; cbn in Hleaf);
           unfold isBranch in Hb, Hleaf; cbn in Hleaf; congruence).
    rewrite Ht. exists x. reflexivity.
Qed.
End Layout.

(** ** The corners of a terminal cell *)

Section Sampling.
Context {D : Dimension} {H : Header} {E : Type} {EV : Evaluator E}.

(** The terminal path through lines 21-78, with the values the
    corners are classified from. *)
Lemma classify_sampled_values (self : Region -> M E XTree) (r : Region) (c : Ctx E) :
  pruned (first_interval r c) = false ->
  (0.001 <? volume r)%dbl = false ->
  exists c',
    classify self r c
    = Done (with_type (aggregate (map (sampled (corner_values r c)) (seq 0 size)))
              (with_corners (map (sampled (corner_values r c)) (seq 0 size)) (init r)), c').
Proof.
  unfold corner_values, entered.
  unfold pruned, first_interval, classify. unfold bind, call_, call, ret.
  destruct (eval (lower3 r) (upper3 r) (ev c)) as [i e1]. cbn [fst snd ev calls].
  intros Hp Hv. apply orb_false_iff in Hp. destruct Hp as [Hf He].
  rewrite Hf, He, Hv. rewrite for_pack_run. cbn [ev calls].
  destruct (values size (packed r (seq 0 size) (push e1))) as [fs e2]. cbn [fst].
  destruct (unpack_all fs r) as (t' & Hfold & Hsame & Hc).
  rewrite Hc in Hsame. subst t'. cbn [corners with_corners] in Hfold.
  rewrite Hfold. eexists. reflexivity.
Qed.

Lemma sampled_corners (fuel : nat) (r : Region) (c : Ctx E) (t : XTree) (c' : Ctx E) :
  new_XTree (S fuel) r c = Done (t, c') ->
  pruned (first_interval r c) = false ->
  (0.001 <? volume r)%dbl = false ->
  corners t = map (sampled (corner_values r c)) (seq 0 size)
  /\ type t = aggregate (corners t)
  /\ children t = [] /\ level t = 0.
Proof.
  intros Hrun Hp Hv. cbn [new_XTree] in Hrun. unfold construct in Hrun.
  destruct (classify_sampled_values (new_XTree fuel) r c Hp Hv) as (c1 & Hcl).
  rewrite (bind_eq _ _ _ _ _ Hcl) in Hrun.
  set (cs := map (sampled (corner_values r c)) (seq 0 size)) in *.
  assert (Hlen : length cs = size) by (unfold cs; rewrite length_map, length_seq; reflexivity).
  destruct (Interval.State_eqb (aggregate cs) AMBIGUOUS) eqn:Hag.
  - apply State_eqb_eq in Hag.
    assert (Hfill : fill (with_type (aggregate cs) (with_corners cs (init r)))
                    = with_type AMBIGUOUS (with_corners cs (init r))).
    { rewrite Hag. reflexivity. }
    rewrite Hfill in Hrun. cbn [isBranch children with_type with_corners init type] in Hrun.
    simpl Interval.State_eqb in Hrun. cbv iota in Hrun.
    apply leaf_fields in Hrun. destruct Hrun as (Hch & Hlv & Hty & Hco & _).
    rewrite Hco, Hty, Hch, Hlv. cbn. auto.
  - assert (Hne : aggregate cs <> AMBIGUOUS).
    { intros Heq. apply State_eqb_eq in Heq. congruence. }
    rewrite fill_uniform in Hrun; [| exact Hne | exact Hlen].
    cbn [isBranch uniform_leaf children type] in Hrun. rewrite Hag in Hrun.
    inversion Hrun; subst. cbn.
    pose proof (aggregate_uniform _ _ eq_refl Hne) as Hu.
    assert (Hcs : cs = repeat (aggregate cs) size).
    { rewrite <- Hlen. clear - Hu. generalize dependent (aggregate cs). intros ty Hu.
      induction Hu as [| x l <- _ IH]; simpl; [reflexivity | f_equal; exact IH]. }
    split; [symmetry; exact Hcs |]. split; [| auto].
    rewrite aggregate_repeat; [reflexivity | apply size_pos | exact Hne].
Qed.
End Sampling.

(** ** NaN, and cells with nothing to average *)

(** Arithmetic on NaN. *)

Lemma isnan_spec (x : double) : isnan x = true <-> Prim2SF x = S754_nan.
Proof.
  unfold isnan, is_nan. rewrite eqb_spec. unfold SFeqb, SFcompare.
  destruct (Prim2SF x) as [s | s | | s m e]; simpl.
  - split; discriminate.
  - destruct s; split; discriminate.
  - split; reflexivity.
  - rewrite Z.compare_refl, Pos.compare_cont_refl. destruct s; split; discriminate.
Qed.

Lemma nan_add_l (x y : double) : isnan x = true -> isnan (x + y)%float = true.
Proof.
  rewrite !isnan_spec, add_spec. intros ->. reflexivity.
Qed.

Lemma nan_add_r (x y : double) : isnan y = true -> isnan (x + y)%float = true.
Proof.
  rewrite !isnan_spec, add_spec. intros ->. unfold SF64add, SFadd.
  destruct (Prim2SF x); reflexivity.
Qed.

Lemma nan_sub_l (x y : double) : isnan x = true -> isnan (x - y)%float = true.
Proof.
  rewrite !isnan_spec, sub_spec. intros ->. reflexivity.
Qed.

Lemma nan_mul_l (x y : double) : isnan x = true -> isnan (x * y)%float = true.
Proof.
  rewrite !isnan_spec, mul_spec. intros ->. reflexivity.
Qed.

Lemma nan_ltb (x y : double) : isnan x = true -> (x <? y)%float = false.
Proof.
  rewrite isnan_spec, ltb_spec. intros ->. reflexivity.
Qed.

Lemma nan_fold_add (l : list double) :
  forall x, isnan x = true -> isnan (fold_left PrimFloat.add l x) = true.
Proof.
  induction l as [| y l IH]; intros x Hx; simpl; [exact Hx |].
  apply IH. apply nan_add_l. exact Hx.
Qed.

Lemma nan_dot (x y : double) (u v : list double) :
  isnan x = true -> isnan (dot (x :: u) (y :: v)) = true.
Proof.
  intros Hx. unfold dot. simpl. apply nan_fold_add. apply nan_mul_l. exact Hx.
Qed.

(** Sums of zeros. *)

Lemma vadd_vzero (n : nat) : vadd (vzero n) (vzero n) = vzero n.
Proof.
  unfold vadd, vzero. induction n as [| n IH]; simpl; [reflexivity |].
  rewrite IH. reflexivity.
Qed.

Lemma madd_mzero (r c : nat) : madd (mzero r c) (mzero r c) = mzero r c.
Proof.
  unfold madd, mzero. induction r as [| r IH]; simpl; [reflexivity |].
  rewrite IH, vadd_vzero. reflexivity.
Qed.

Lemma fold_vadd_vzero (n : nat) (l : list (list double)) :
  Forall (eq (vzero n)) l -> fold_left vadd l (vzero n) = vzero n.
Proof.
  induction 1 as [| x l <- _ IH]; simpl; [reflexivity |].
  rewrite vadd_vzero. exact IH.
Qed.

Lemma fold_madd_mzero (r c : nat) (l : list (list (list double))) :
  Forall (eq (mzero r c)) l -> fold_left madd l (mzero r c) = mzero r c.
Proof.
  induction 1 as [| x l <- _ IH]; simpl; [reflexivity |].
  rewrite madd_mzero. exact IH.
Qed.

Lemma firstn_repeat_S {A} (x : A) (n : nat) : firstn n (repeat x (S n)) = repeat x n.
Proof. induction n as [| n IH]; [reflexivity |]. simpl in *. rewrite IH. reflexivity. Qed.

Section Uniform.
Context {D : Dimension} {H : Header}.

(** With nothing accumulated the mass point is 0/0 along every axis. *)
Lemma massPoint_zero (t : XTree) :
  _mass_point t = vzero (S N) -> massPoint t = repeat (0 / 0)%float N.
Proof.
  intros Hm. unfold massPoint, vdiv. rewrite Hm. unfold vzero.
  rewrite firstn_repeat_S, nth_repeat, map_repeat. reflexivity.
Qed.

(** The sums a branch over uniform leaves ends with. *)
Lemma merged_uniform (b : XTree) :
  Forall (fun c => exists r ty, c = uniform_leaf r ty) (children b) ->
  AtA b = mzero N N -> _mass_point b = vzero (S N) ->
  AtA (merged b) = mzero N N /\ _mass_point (merged b) = vzero (S N).
Proof.
  intros Hall Ha Hmp. unfold merged. rewrite merge_fold.
  cbn [AtA _mass_point with_QEF with_mass_point with_rank with_manifold with_level rank].
  rewrite Ha, Hmp. split.
  - apply fold_madd_mzero. apply Forall_forall. intros m Hm.
    apply in_map_iff in Hm. destruct Hm as (ch & <- & Hch).
    rewrite Forall_forall in Hall. destruct (Hall ch Hch) as (r & ty & ->). reflexivity.
  - apply fold_vadd_vzero. apply Forall_forall. intros m Hm.
    apply in_map_iff in Hm. destruct Hm as (ch & <- & Hch).
    apply filter_In in Hch. destruct Hch as [Hch _].
    rewrite Forall_forall in Hall. destruct (Hall ch Hch) as (r & ty & ->). reflexivity.
Qed.

(** The QEF error at a point whose first coordinate is NaN. *)
Lemma qef_error_nan (t : XTree) (x : double) (xs : list double) :
  0 < N -> AtA t = mzero N N -> isnan x = true ->
  isnan (qef_error t (x :: xs)) = true.
Proof.
  intros HN Ha Hx. unfold qef_error. apply nan_add_l, nan_sub_l.
  unfold mulvm. rewrite Ha. unfold mzero, vzero, ncols.
  destruct N as [| n]; [lia |]. cbn [repeat length seq map col nth].
  apply nan_dot. apply nan_dot. exact Hx.
Qed.

(** A branch over uniform leaves keeps its children. *)
Lemma simplify_uniform_children (b : XTree) :
  0 < N ->
  (forall m, eigenvectors (solve m) <> []) ->
  isBranch b = true ->
  Forall (fun c => exists r ty, c = uniform_leaf r ty) (children b) ->
  AtA b = mzero N N -> _mass_point b = vzero (S N) ->
  exists t, simplify b = Done t /\ children t = children b.
Proof.
  intros HN Hsolve Hb Hall Ha Hmp. rewrite simplify_unfold.
  destruct (forallb _ (children b)); [| eexists; split; reflexivity].
  destruct (collapsible b); [| eexists; split; reflexivity].
  destruct (merged_uniform b Hall Ha Hmp) as [Hma Hmm].
  unfold findVertex, findVertex_es. rewrite merged_isBranch, Hb. cbn [negb andb].
  rewrite (massPoint_zero _ Hmm).
  set (es := solve (AtA (merged b))).
  set (x := vadd _ _).
  assert (Hx : exists x0 xs, x = x0 :: xs /\ isnan x0 = true).
  { unfold x, mulmv, mulmm. rewrite !map_map.
    specialize (Hsolve (AtA (merged b))). fold es in Hsolve.
    destruct (eigenvectors es) as [| u U]; [contradiction |].
    destruct N as [| n]; [lia |]. simpl.
    eexists _, _. split; [reflexivity |]. apply nan_add_r. reflexivity. }
  destruct Hx as (x0 & xs & Hx & Hnan). rewrite Hx.
  assert (Herr : (qef_error (with_vert (x0 :: xs) (merged b)) (x0 :: xs) <? 1e-8)%dbl = false).
  { apply nan_ltb. apply qef_error_nan; [exact HN | exact Hma | exact Hnan]. }
  rewrite Herr. eexists. split; [reflexivity |].
  cbn. unfold merged. rewrite merge_fold. reflexivity.
Qed.
End Uniform.

Section UniformLeaves.
Context {D : Dimension} {H : Header} {E : Type} {EV : Evaluator E}.

(** A leaf of type FILLED or EMPTY is the leaf lines 81-85 leave: no
    collapse ever produces one. *)
Lemma uniform_leaf_only (fuel : nat) :
  0 < N ->
  (forall m, eigenvectors (solve m) <> []) ->
  forall r (c : Ctx E) t c',
    new_XTree fuel r c = Done (t, c') ->
    isBranch t = false -> type t <> AMBIGUOUS ->
    t = uniform_leaf r (type t).
Proof.
  intros HN Hsolve. induction fuel as [| fuel IH]; intros r c t c' Hrun Hleaf Hty;
    [discriminate |].
  apply construct_cases in Hrun.
  destruct Hrun as [_ -> _ | fs _ _ _ -> | fs c1 _ _ _ Hl
                  | cs t0 ae af c2 _ _ Hloop Ht0 Hall Hs _].
  - reflexivity.
  - reflexivity.
  - apply leaf_fields in Hl. destruct Hl as (_ & _ & Ht & _).
    rewrite Ht in Hty. cbn in Hty. contradiction.
  - exfalso.
    assert (Hlen : length cs = size).
    { apply Forall2_length in Hall. rewrite length_seq in Hall. auto. }
    pose proof (branch_isBranch cs t0 (aggregate (map type cs)) r Ht0 Hlen) as Hb.
    pose proof (simplify_frame _ _ Hb Hs) as (Htt & _).
    set (b := fill (with_type (aggregate (map type cs)) t0)) in *.
    assert (Htb : type b = aggregate (map type cs)).
    { unfold b, fill. cbn [type with_type]. destruct (_ || _); reflexivity. }
    assert (Hchb : children b = cs) by (apply (branch_children cs t0 _ r Ht0)).
    rewrite Htt, Htb in Hty.
    pose proof (aggregate_uniform _ _ eq_refl Hty) as Hu.
    destruct (forallb (fun o => negb (isBranch o)) cs) eqn:Hleaves.
    + assert (Hcs : Forall (fun ch => exists r ty, ch = uniform_leaf r ty) (children b)).
      { rewrite Hchb. rewrite Forall_forall in Hu. rewrite forallb_forall in Hleaves.
        clear - Hall Hu Hleaves IH Hty.
        set (ty := aggregate (map type cs)) in *. clearbody ty.
        rename Hty into Hne. revert Hu Hleaves.
        induction Hall as [| j ch js cs' (c3 & c4 & Hx) _ IHall]; intros Hu Hleaves;
          constructor.
        - exists (nth j (subdivide r) r), (type ch).
          apply (IH _ _ _ _ Hx).
          + apply negb_true_iff. apply Hleaves. left. reflexivity.
          + rewrite <- (Hu (type ch)) by (left; reflexivity). exact Hne.
        - apply IHall.
          + intros x Hin. apply Hu. right. exact Hin.
          + intros x Hin. apply Hleaves. right. exact Hin. }
      destruct (simplify_uniform_children b HN Hsolve Hb Hcs) as (t' & Hs' & Hch').
      * unfold b, fill. rewrite Ht0. destruct (_ || _); reflexivity.
      * unfold b, fill. rewrite Ht0. destruct (_ || _); reflexivity.
      * rewrite Hs in Hs'. inversion Hs'; subst t'.
        unfold isBranch in Hleaf, Hb. rewrite Hch' in Hleaf. rewrite Hleaf in Hb. discriminate.
    + rewrite simplify_unfold, Hchb, Hleaves in Hs. inversion Hs; subst t.
      unfold isBranch in Hleaf, Hb. cbn in Hleaf. rewrite Hleaf in Hb. discriminate.
Qed.
End UniformLeaves.

(** ** The calls made on the evaluator *)

Section Log.
Context {D : Dimension} {H : Header} {E : Type} {EV : Evaluator E}.

Lemma call_calls {A} (what : Call) (f : E -> A * E) (c : Ctx E) a c' :
  call what f c = Done (a, c') -> calls c' = calls c ++ [what].
Proof.
  unfold call. destruct (f (ev c)). intros Hc. inversion Hc; subst. reflexivity.
Qed.

Lemma for_pack_calls (t : XTree) (js : list nat) :
  forall (c : Ctx E) c', for_ js (pack t) tt c = Done (tt, c') ->
  calls c' = calls c ++ map CSet js.
Proof.
  induction js as [| j js IH]; intros c c' Hrun; simpl in Hrun.
  - inversion Hrun. rewrite app_nil_r. reflexivity.
  - unbind Hrun. unfold pack, call_ in Hm. apply call_calls in Hm.
    destruct a. apply IH in Hrun. rewrite Hrun, Hm, <- app_assoc. reflexivity.
Qed.

Lemma for_sample_calls (t : XTree) (js : list nat) :
  forall (c : Ctx E) c', for_ js (sample t) tt c = Done (tt, c') ->
  calls c' = calls c ++ map CSet js.
Proof.
  induction js as [| j js IH]; intros c c' Hrun; simpl in Hrun.
  - inversion Hrun. rewrite app_nil_r. reflexivity.
  - unbind Hrun. unfold sample, call_ in Hm. apply call_calls in Hm.
    destruct a. apply IH in Hrun. rewrite Hrun, Hm, <- app_assoc. reflexivity.
Qed.

Lemma for_load_calls (t : XTree) (a b : vec) (js : list nat) :
  forall ps (c : Ctx E) ps' c',
    for_ js (load t a b) ps c = Done (ps', c') ->
    calls c' = calls c ++ map CSetRaw js.
Proof.
  induction js as [| j js IH]; intros ps c ps' c' Hrun; simpl in Hrun.
  - inversion Hrun. rewrite app_nil_r. reflexivity.
  - unbind Hrun. unfold load in Hm. unbind Hm. inversion Hm; subst.
    unfold call_ in Hm0. apply call_calls in Hm0.
    apply IH in Hrun. rewrite Hrun, Hm0, <- app_assoc. reflexivity.
Qed.

Lemma bracket_calls (out : nat -> double) (ps : list vec) (js : list nat) :
  forall io (c : Ctx E) io' c',
    bracket out ps js io c = Done (io', c') -> c' = c.
Proof.
  induction js as [| j js IH]; intros io c io' c' Hrun; simpl in Hrun.
  - inversion Hrun. reflexivity.
  - destruct (0 <=? out j)%dbl.
    + unbind Hrun. unbind Hrun. inversion Hrun; subst.
      apply read_In in Hm, Hm0. destruct Hm as [_ ->], Hm0 as [_ ->]. reflexivity.
    + eapply IH. exact Hrun.
Qed.

Lemma search_calls (t : XTree) (k : nat) (io : vec * vec) (c : Ctx E) io' c' :
  search t k io c = Done (io', c') -> calls c' = calls c ++ pass.
Proof.
  unfold search. intros Hrun. unbind Hrun. unbind Hrun.
  apply for_load_calls in Hm. apply call_calls in Hm0.
  apply bracket_calls in Hrun. subst c'.
  rewrite Hm0, Hm, <- app_assoc. reflexivity.
Qed.

Lemma for_search_calls (t : XTree) (ks : list nat) :
  forall io (c : Ctx E) io' c',
    for_ ks (search t) io c = Done (io', c') ->
    calls c' = calls c ++ concat (repeat pass (length ks)).
Proof.
  induction ks as [| k ks IH]; intros io c io' c' Hrun; simpl in Hrun.
  - inversion Hrun. rewrite app_nil_r. reflexivity.
  - unbind Hrun. apply search_calls in Hm. apply IH in Hrun.
    rewrite Hrun, Hm, <- app_assoc. reflexivity.
Qed.

Lemma intersect_calls (e : nat * nat) (t : XTree) (c : Ctx E) t1 c1 :
  intersect e t c = Done (t1, c1) ->
  calls c1 = calls c ++ (if crosses t e then edge_calls else []).
Proof.
  unfold intersect. fold (crosses t e). destruct (crosses t e); intros Hrun.
  - unbind Hrun. inversion Hrun; subst. apply for_search_calls in Hm.
    rewrite length_seq in Hm. exact Hm.
  - inversion Hrun. rewrite app_nil_r. reflexivity.
Qed.

Lemma edges_calls (es : list (nat * nat)) :
  forall t (c : Ctx E) t2 c2,
    for_ es intersect t c = Done (t2, c2) ->
    calls c2 = calls c ++ concat (repeat edge_calls (length (filter (crosses t) es))).
Proof.
  induction es as [| e es IH]; intros t c t2 c2 Hrun; simpl in Hrun.
  - inversion Hrun. rewrite app_nil_r. reflexivity.
  - unbind Hrun. pose proof (intersect_calls _ _ _ _ _ Hm) as Hc.
    apply intersect_inv in Hm. apply IH in Hrun. simpl.
    destruct Hm as [[Hx ->] | [Hx (p & _ & ->)]]; rewrite Hx in Hc |- *.
    + rewrite Hrun, Hc, app_nil_r. reflexivity.
    + change (crosses (with_mass_point (vadd (_mass_point t) (p ++ [1%float])) t))
        with (crosses t) in Hrun.
      rewrite Hrun, Hc, <- app_assoc. reflexivity.
Qed.

Lemma solve_leaf_calls (t : XTree) (c : Ctx E) n c' :
  solve_leaf t c = Done (n, c') -> calls c' = calls c ++ qef_calls.
Proof.
  unfold solve_leaf. intros Hrun. unbind Hrun. unbind Hrun. unbind Hrun.
  inversion Hrun; subst; clear Hrun.
  apply lift_Done in Hm1. destruct Hm1 as [_ ->].
  destruct a. apply for_sample_calls in Hm. apply call_calls in Hm0.
  rewrite Hm0, Hm, <- app_assoc. reflexivity.
Qed.

Lemma leaf_calls (t : XTree) (c : Ctx E) n c' :
  leaf t c = Done (n, c') ->
  calls c' = calls c
             ++ concat (repeat edge_calls (length (filter (crosses t) edges)))
             ++ (if manifold n then qef_calls else []).
Proof.
  intros Hrun. pose proof (leaf_fields _ _ _ _ Hrun) as (_ & _ & _ & _ & _ & Hman & _).
  unfold leaf in Hrun. unbind Hrun. pose proof (edges_calls _ _ _ _ _ Hm) as Hc.
  apply edges_loop in Hm. destruct Hm as (ps & _ & _ & ->).
  change (crosses (with_manifold (cornersAreManifold t) t)) with (crosses t) in Hc.
  cbn [manifold with_mass_point with_manifold calls] in *.
  rewrite Hman. destruct (cornersAreManifold t).
  - apply solve_leaf_calls in Hrun. rewrite Hrun, Hc, <- app_assoc. reflexivity.
  - inversion Hrun; subst. rewrite Hc, app_nil_r. reflexivity.
Qed.

(** The calls of the terminal path through lines 21-78. *)
Lemma classify_sampled_calls (self : Region -> M E XTree) (r : Region) (c : Ctx E) t1 c1 :
  pruned (first_interval r c) = false ->
  (0.001 <? volume r)%dbl = false ->
  classify self r c = Done (t1, c1) ->
  calls c1 = calls c ++ [CEval; CPush] ++ loads size ++ [CValues size; CPop].
Proof.
  unfold pruned, first_interval, classify. unfold bind at 1 2, call_ at 1, call at 1 2.
  destruct (eval (lower3 r) (upper3 r) (ev c)) as [i e1]. cbn [fst snd ev calls].
  intros Hp Hv. apply orb_false_iff in Hp. destruct Hp as [Hf He].
  rewrite Hf, He, Hv. intros Hrun.
  unbind Hrun. unbind Hm.
  destruct a0 as [[t' ae] af]. inversion Hm; subst; clear Hm.
  unbind Hm0. unbind Hm0. inversion Hm0; subst; clear Hm0.
  destruct a. apply for_pack_calls in Hm. apply call_calls in Hm1.
  unbind Hrun. inversion Hrun; subst; clear Hrun.
  unfold call_ in Hm0. apply call_calls in Hm0.
  rewrite Hm0, Hm1, Hm. cbn [calls]. unfold loads.
  rewrite <- !app_assoc. reflexivity.
Qed.

(** The loop over the children makes the children's calls and no
    other. *)
Lemma populate_calls (self : Region -> M E XTree) (rs : list Region) :
  (forall r (c : Ctx E) t c', self r c = Done (t, c') ->
     exists d, calls c' = calls c ++ d /\ Trace d) ->
  forall js s (c : Ctx E) s' c',
    for_ js (populate self rs) s c = Done (s', c') ->
    exists ds, calls c' = calls c ++ ds /\ Traces (length js) ds.
Proof.
  intros Hself. induction js as [| j js IH]; intros s c s' c' Hrun; simpl in Hrun.
  - inversion Hrun. exists []. rewrite app_nil_r. split; [reflexivity | constructor].
  - unbind Hrun. destruct s as [[t ae] af]. unfold populate in Hm.
    unbind Hm. inversion Hm; subst; clear Hm.
    apply Hself in Hm0. destruct Hm0 as (d & Hd & Htr).
    apply IH in Hrun. destruct Hrun as (ds & Hds & Htrs).
    exists (d ++ ds). split.
    + rewrite Hds, Hd, <- app_assoc. reflexivity.
    + simpl. constructor; assumption.
Qed.

(** The calls of one run of the constructor's body. *)
Lemma construct_trace (self : Region -> M E XTree) :
  (forall r (c : Ctx E) t c', self r c = Done (t, c') ->
     exists d, calls c' = calls c ++ d /\ Trace d) ->
  forall r (c : Ctx E) t c',
    construct self r c = Done (t, c') ->
    exists d, calls c' = calls c ++ d /\ Trace d
      /\ (pruned (first_interval r c) = true -> d = [CEval; CPush; CPop])
      /\ (pruned (first_interval r c) = false -> (0.001 <? volume r)%dbl = false ->
          d = terminal_calls (searched t) (sampled_QEF t))
      /\ (pruned (first_interval r c) = false -> (0.001 <? volume r)%dbl = true ->
          exists ds, Traces size ds /\ d = [CEval; CPush] ++ ds ++ [CPop; CPop]).
Proof.
  intros Hself r c t c' Hrun. unfold construct in Hrun.
  destruct (pruned (first_interval r c)) eqn:Hp.
  - rewrite (bind_eq _ _ _ _ _ (classify_pruned self r c Hp)) in Hrun.
    assert (Hne : pruned_type (first_interval r c) <> AMBIGUOUS).
    { unfold pruned_type. destruct (isFilled _); discriminate. }
    assert (Hfill : fill (with_type (pruned_type (first_interval r c)) (init r))
                    = uniform_leaf r (pruned_type (first_interval r c))).
    { exact (fill_uniform r (repeat EMPTY size) _ Hne (repeat_length _ _)). }
    rewrite Hfill in Hrun. unfold ret in Hrun.
    cbn [isBranch children uniform_leaf type] in Hrun.
    assert (Hag : Interval.State_eqb (pruned_type (first_interval r c)) AMBIGUOUS = false).
    { unfold pruned_type. destruct (isFilled _); reflexivity. }
    rewrite Hag in Hrun. inversion Hrun; subst.
    exists [CEval; CPush; CPop]. cbn. rewrite <- !app_assoc.
    repeat split; try discriminate. constructor.
  - destruct (0.001 <? volume r)%dbl eqn:Hv.
    + unbind Hrun. destruct (classify_subdivided self r c a c0 Hp Hv Hm)
        as (cs & t0 & ae & af & c2 & Hloop & Hsame & Hall & Ht1 & Hc1).
      assert (Hlen : length cs = size).
      { apply Forall2_length in Hall. rewrite length_seq in Hall. auto. }
      subst a. rewrite (branch_isBranch cs t0 _ r Hsame Hlen) in Hrun.
      apply lift_Done in Hrun. destruct Hrun as [_ ->].
      apply (populate_calls self _ Hself) in Hloop.
      destruct Hloop as (ds & Hds & Htr). rewrite length_seq in Htr.
      exists ([CEval; CPush] ++ ds ++ [CPop; CPop]). subst c0. cbn in *.
      split; [rewrite Hds, <- !app_assoc; reflexivity |].
      split; [constructor; exact Htr |].
      repeat split; try discriminate. intros _ _. exists ds. auto.
    + unbind Hrun. pose proof (classify_sampled_calls self r c a c0 Hp Hv Hm) as Hc.
      destruct (classify_sampled self r c Hp Hv) as (fs & c1 & Hcl).
      rewrite Hcl in Hm. inversion Hm; subst a c1; clear Hm.
      destruct (Interval.State_eqb (aggregate (map (sampled fs) (seq 0 size))) AMBIGUOUS) eqn:Hag.
      * apply State_eqb_eq in Hag.
        assert (Hfill : fill (with_type (aggregate (map (sampled fs) (seq 0 size)))
                                (with_corners (map (sampled fs) (seq 0 size)) (init r)))
                        = sampled_leaf r fs).
        { rewrite Hag. reflexivity. }
        rewrite Hfill in Hrun.
        cbn [isBranch sampled_leaf children with_type with_corners init type] in Hrun.
        simpl Interval.State_eqb in Hrun. cbv iota in Hrun.
        pose proof (leaf_calls _ _ _ _ Hrun) as Hl.
        apply leaf_fields in Hrun. destruct Hrun as (_ & _ & Hty & Hco & _).
        assert (Hk : searched t = length (filter (crosses (sampled_leaf r fs)) edges)).
        { unfold searched. rewrite Hty. cbn.
          f_equal. apply filter_ext. intros e. unfold crosses, cornerState.
          rewrite Hco. reflexivity. }
        assert (Hq : sampled_QEF t = manifold t).
        { unfold sampled_QEF. rewrite Hty. reflexivity. }
        exists (terminal_calls (searched t) (sampled_QEF t)).
        split; [| split; [constructor | repeat split; try discriminate; auto]].
        rewrite Hl, Hc, Hk, Hq. unfold terminal_calls. rewrite <- !app_assoc. reflexivity.
      * assert (Hne : aggregate (map (sampled fs) (seq 0 size)) <> AMBIGUOUS).
        { intros Heq. apply State_eqb_eq in Heq. congruence. }
        rewrite fill_uniform in Hrun; [| exact Hne | rewrite length_map, length_seq; reflexivity].
        cbn [isBranch uniform_leaf children type] in Hrun. rewrite Hag in Hrun.
        inversion Hrun; subst.
        exists (terminal_calls 0 false).
        split; [| split; [constructor | repeat split; try discriminate; auto]].
        -- rewrite Hc. unfold terminal_calls. cbn [repeat concat app].
           reflexivity.
        -- intros _ _. unfold searched, sampled_QEF. cbn. rewrite Hag. reflexivity.
Qed.

Lemma new_XTree_trace (fuel : nat) :
  forall r (c : Ctx E) t c',
    new_XTree fuel r c = Done (t, c') ->
    exists d, calls c' = calls c ++ d /\ Trace d.
Proof.
  induction fuel as [| fuel IH]; intros r c t c' Hrun; [discriminate |].
  destruct (construct_trace _ IH _ _ _ _ Hrun) as (d & Hd & Htr & _).
  exists d. auto.
Qed.
End Log.

Lemma count_calls_app (p : Call -> bool) (a b : list Call) :
  count_calls p (a ++ b) = count_calls p a + count_calls p b.
Proof. unfold count_calls. rewrite filter_app, length_app. reflexivity. Qed.

Lemma count_calls_none (p : Call -> bool) (l : list Call) :
  Forall (fun x => p x = false) l -> count_calls p l = 0.
Proof.
  unfold count_calls. induction 1 as [| x l Hx _ IH]; simpl; [reflexivity |].
  rewrite Hx. exact IH.
Qed.

Lemma count_calls_repeat (p : Call -> bool) (l : list Call) (k : nat) :
  count_calls p l = 0 -> count_calls p (concat (repeat l k)) = 0.
Proof.
  intros Hl. induction k as [| k IH]; simpl; [reflexivity |].
  rewrite count_calls_app, Hl, IH. reflexivity.
Qed.

Lemma count_calls_map (p : Call -> bool) (f : nat -> Call) (js : list nat) :
  (forall j, p (f j) = false) -> count_calls p (map f js) = 0.
Proof.
  intros Hf. apply count_calls_none. apply Forall_forall.
  intros x Hx. apply in_map_iff in Hx. destruct Hx as (j & <- & _). apply Hf.
Qed.

Section Counts.
Context {D : Dimension} {H : Header}.

Lemma terminal_calls_count (p : Call -> bool) (k : nat) (q : bool) :
  (forall j, p (CSet j) = false) -> (forall j, p (CSetRaw j) = false) ->
  (forall n, p (CValues n) = false) -> (forall n, p (CDerivs n) = false) ->
  count_calls p (terminal_calls k q)
  = count_calls p [CEval; CPush; CPop].
Proof.
  intros Hs Hr Hv Hd. unfold terminal_calls.
  assert (Hpass : count_calls p pass = 0).
  { unfold pass, raw_loads. rewrite count_calls_app, count_calls_map by exact Hr.
    unfold count_calls. simpl. rewrite Hv. reflexivity. }
  assert (Hedge : count_calls p edge_calls = 0).
  { apply count_calls_repeat. exact Hpass. }
  assert (Hqef : count_calls p (if q then qef_calls else []) = 0).
  { destruct q; [| reflexivity]. unfold qef_calls, loads.
    rewrite count_calls_app, count_calls_map by exact Hs.
    unfold count_calls. simpl. rewrite Hd. reflexivity. }
  rewrite !count_calls_app, Hqef, (count_calls_repeat _ _ _ Hedge).
  unfold loads. rewrite count_calls_map by exact Hs.
  unfold count_calls. simpl. rewrite Hv.
  destruct (p CEval), (p CPush), (p CPop); reflexivity.
Qed.

(** One push for every interval evaluation, and no fewer pops than
    pushes. *)
Lemma Trace_counts (d : list Call) :
  Trace d ->
  count_calls is_eval d = count_calls Quad.is_push d
  /\ count_calls Quad.is_push d <= count_calls Quad.is_pop d.
Proof.
  intros Htr.
  induction Htr using Trace_mut
    with (P0 := fun (n : nat) ds =>
                  count_calls is_eval ds = count_calls Quad.is_push ds
                  /\ count_calls Quad.is_push ds <= count_calls Quad.is_pop ds).
  - split; [reflexivity | unfold count_calls; simpl; lia].
  - rewrite !terminal_calls_count by reflexivity.
    split; [reflexivity | unfold count_calls; simpl; lia].
  - destruct IHHtr as [He Hp]. rewrite !count_calls_app.
    set (e := count_calls is_eval ds) in *.
    set (u := count_calls Quad.is_push ds) in *.
    set (o := count_calls Quad.is_pop ds) in *.
    unfold count_calls. simpl. lia.
  - split; [reflexivity | unfold count_calls; simpl; lia].
  - destruct IHHtr as [He Hp], IHHtr0 as [He' Hp']. rewrite !count_calls_app. lia.
Qed.

Lemma Traces_counts (n : nat) (ds : list Call) :
  Traces n ds ->
  count_calls Quad.is_push ds <= count_calls Quad.is_pop ds.
Proof.
  induction 1 as [| n d ds Hd _ IH]; [unfold count_calls; simpl; lia |].
  apply Trace_counts in Hd. rewrite !count_calls_app. lia.
Qed.

(** Batches. *)

Lemma batched_loads (f : nat -> Call) (n : nat) :
  (forall i k l, batched k (f i :: l) = Nat.eqb i k && batched (S k) l) ->
  forall k b, batched k (map f (seq k n) ++ b) = batched (k + n) b.
Proof.
  intros Hf. induction n as [| n IH]; intros k b; cbn [map seq app].
  - rewrite Nat.add_0_r. reflexivity.
  - rewrite Hf, Nat.eqb_refl, IH. cbn [andb]. f_equal. lia.
Qed.

Lemma closed_app (a b : list Call) : closed a -> closed b -> closed (a ++ b).
Proof. intros Ha Hb l. rewrite <- app_assoc, Ha, Hb. reflexivity. Qed.

Lemma closed_nil : closed [].
Proof. intros b. reflexivity. Qed.

Lemma closed_repeat (a : list Call) (k : nat) : closed a -> closed (concat (repeat a k)).
Proof.
  intros Ha. induction k as [| k IH]; simpl; [apply closed_nil | apply closed_app; assumption].
Qed.

Lemma closed_values (n : nat) : 0 < n -> closed (loads n ++ [CValues n]).
Proof.
  intros Hn b. unfold loads. rewrite <- app_assoc.
  rewrite (batched_loads CSet) by reflexivity. simpl.
  rewrite Nat.eqb_refl. destruct n; [lia | reflexivity].
Qed.

Lemma closed_derivs (n : nat) : 0 < n -> closed (loads n ++ [CDerivs n]).
Proof.
  intros Hn b. unfold loads. rewrite <- app_assoc.
  rewrite (batched_loads CSet) by reflexivity. simpl.
  rewrite Nat.eqb_refl. destruct n; [lia | reflexivity].
Qed.

Lemma closed_pass : closed pass.
Proof.
  intros b. unfold pass, raw_loads. rewrite <- app_assoc.
  rewrite (batched_loads CSetRaw) by reflexivity. reflexivity.
Qed.

Lemma closed_terminal (k : nat) (q : bool) : closed (terminal_calls k q).
Proof.
  unfold terminal_calls.
  change ([CEval; CPush] ++ loads size ++ [CValues size; CPop]
          ++ concat (repeat edge_calls k) ++ (if q then qef_calls else []))
    with ([CEval; CPush] ++ loads size ++ [CValues size] ++ [CPop]
          ++ concat (repeat edge_calls k) ++ (if q then qef_calls else [])).
  apply (closed_app [CEval; CPush]); [intros b; reflexivity |].
  rewrite app_assoc. apply closed_app; [apply closed_values, size_pos |].
  apply (closed_app [CPop]); [intros b; reflexivity |].
  apply closed_app.
  - apply closed_repeat. apply closed_repeat. apply closed_pass.
  - destruct q; [| apply closed_nil].
    apply closed_derivs. apply _pow_pos. unfold R. lia.
Qed.

Lemma Trace_closed (d : list Call) : Trace d -> closed d.
Proof.
  intros Htr.
  induction Htr using Trace_mut with (P0 := fun (n : nat) ds => closed ds).
  - intros b. reflexivity.
  - apply closed_terminal.
  - apply (closed_app [CEval; CPush]); [intros b; reflexivity |].
    apply closed_app; [exact IHHtr | intros b; reflexivity].
  - apply closed_nil.
  - apply closed_app; assumption.
Qed.
End Counts.

(** ** The corner mask *)

Section Mask.
Context {D : Dimension}.

Lemma testbit_one_shifted (i j : nat) :
  Z.testbit (Z.shiftl 1 (Z.of_nat i)) (Z.of_nat j) = Nat.eqb i j.
Proof.
  rewrite Z.shiftl_1_l, Z.pow2_bits_eqb by lia.
  destruct (Nat.eqb_spec i j) as [-> | Hne].
  - apply Z.eqb_refl.
  - apply Z.eqb_neq. lia.
Qed.

(** The mask after the first [n] corners. *)
Lemma cornerMask_loop (t : XTree) (n : nat) :
  forall j,
    Z.testbit
      (fold_left
         (fun mask i =>
            if Interval.State_eqb (cornerState t i) FILLED
            then Z.lor mask (Z.shiftl 1 (Z.of_nat i)) mod 256
            else mask)%Z
         (seq 0 n) 0%Z)
      (Z.of_nat j)
    = Nat.ltb j n && Nat.ltb j 8 && filled t j.
Proof.
  induction n as [| n IH]; intros j.
  - cbn [seq fold_left]. rewrite Z.bits_0. reflexivity.
  - rewrite seq_S, fold_left_app. cbn [fold_left Nat.add].
    set (m := fold_left _ (seq 0 n) 0%Z) in *.
    fold (filled t n). destruct (filled t n) eqn:Hn.
    + change 256%Z with (2 ^ 8)%Z.
      rewrite Z.testbit_mod_pow2 by lia.
      rewrite Z.lor_spec, IH, testbit_one_shifted.
      replace (Z.of_nat j <? 8)%Z with (Nat.ltb j 8)
        by (destruct (Nat.ltb_spec j 8), (Z.ltb_spec (Z.of_nat j) 8); auto; lia).
      destruct (Nat.eqb_spec n j) as [<- | Hne].
      * rewrite Hn, Nat.ltb_irrefl.
        replace (Nat.ltb n (S n)) with true by (symmetry; apply Nat.ltb_lt; lia).
        destruct (Nat.ltb n 8); reflexivity.
      * replace (Nat.ltb j (S n)) with (Nat.ltb j n)
          by (destruct (Nat.ltb_spec j n), (Nat.ltb_spec j (S n)); auto; lia).
        destruct (Nat.ltb j n), (Nat.ltb j 8), (filled t j); reflexivity.
    + rewrite IH. destruct (Nat.eqb_spec n j) as [<- | Hne].
      * rewrite Hn, Nat.ltb_irrefl, !andb_false_r. reflexivity.
      * replace (Nat.ltb j (S n)) with (Nat.ltb j n)
          by (destruct (Nat.ltb_spec j n), (Nat.ltb_spec j (S n)); auto; lia).
        reflexivity.
Qed.

Lemma cornerMask_testbit (t : XTree) (j : nat) :
  Z.testbit (cornerMask t) (Z.of_nat j) = Nat.ltb j size && Nat.ltb j 8 && filled t j.
Proof. apply (cornerMask_loop t size). Qed.

Lemma cornerMask_range (t : XTree) : (0 <= cornerMask t < 256)%Z.
Proof.
  unfold cornerMask. generalize (seq 0 size). intros l.
  assert (Hgen : forall m, (0 <= m < 256)%Z ->
            (0 <= fold_left
                    (fun mask i =>
                       if Interval.State_eqb (cornerState t i) FILLED
                       then Z.lor mask (Z.shiftl 1 (Z.of_nat i)) mod 256
                       else mask)%Z l m < 256)%Z).
  { induction l as [| i l IH]; intros m Hm; simpl; [exact Hm |].
    apply IH. destruct (Interval.State_eqb _ _); [| exact Hm].
    apply Z.mod_pos_bound. lia. }
  apply Hgen. lia.
Qed.
End Mask.

(** ** The search loop and the sampling grid *)

Section Bracket.
Context {E : Type}.

(** Lines 183-191 from candidate [a] on, when none of the candidates
    before [j] evaluates non-negative. *)
Lemma bracket_skip (out : nat -> double) (ps : list vec) (io : vec * vec) (c : Ctx E)
      (n : nat) :
  forall a, (forall i, a <= i < a + n -> (0 <=? out i)%dbl = false) ->
  forall js, bracket out ps (seq a n ++ js) io c = bracket out ps js io c.
Proof.
  induction n as [| n IH]; intros a Hlow js; [reflexivity |].
  cbn [seq app bracket]. rewrite Hlow by lia.
  apply IH. intros i Hi. apply Hlow. lia.
Qed.

Lemma bracket_none (out : nat -> double) (ps : list vec) (io : vec * vec) (c : Ctx E)
      (n : nat) :
  (forall i, i < n -> (0 <=? out i)%dbl = false) ->
  bracket out ps (seq 0 n) io c = Done (io, c).
Proof.
  intros Hlow. rewrite <- (app_nil_r (seq 0 n)), bracket_skip; [reflexivity |].
  intros i Hi. apply Hlow. lia.
Qed.

Lemma bracket_first (out : nat -> double) (ps : list vec) (io : vec * vec) (c : Ctx E)
      (n j : nat) :
  j < n -> n <= length ps ->
  (forall i, i < j -> (0 <=? out i)%dbl = false) ->
  (0 <=? out j)%dbl = true ->
  bracket out ps (seq 0 n) io c
  = match j with
    | 0 => Stop (OutOfBounds (-1) (length ps))
    | S j' => Done ((nth j' ps [], nth j ps []), c)
    end.
Proof.
  intros Hj Hn Hlow Hhit.
  replace n with (j + (n - j)) by lia. rewrite seq_app, bracket_skip.
  - destruct (n - j) as [| m] eqn:Hm; [lia |].
    cbn [seq bracket Nat.add]. rewrite Hhit.
    unfold bind, read, ret, stop.
    destruct j as [| j'].
    + reflexivity.
    + replace (0 <=? Z.of_nat (S j') - 1)%Z with true by (symmetry; apply Z.leb_le; lia).
      replace (Z.of_nat (S j') - 1 <? Z.of_nat (length ps))%Z with true
        by (symmetry; apply Z.ltb_lt; lia).
      replace (0 <=? Z.of_nat (S j'))%Z with true by (symmetry; apply Z.leb_le; lia).
      replace (Z.of_nat (S j') <? Z.of_nat (length ps))%Z with true
        by (symmetry; apply Z.ltb_lt; lia).
      cbn [andb]. rewrite Nat2Z.id.
      replace (Z.to_nat (Z.of_nat (S j') - 1)) with j' by lia. reflexivity.
  - intros i Hi. apply Hlow. lia.
Qed.
End Bracket.

Section Pass.
Context {D : Dimension} {E : Type} {EV : Evaluator E}.

Lemma for_load_run (t : XTree) (a b : vec) (js : list nat) :
  forall ps (c : Ctx E),
    for_ js (load t a b) ps c
    = Done (ps ++ map (candidate a b) js,
            mkCtx (loaded t a b js (ev c)) (calls c ++ map CSetRaw js)).
Proof.
  induction js as [| j js IH]; intros ps c; simpl.
  - rewrite !app_nil_r. destruct c; reflexivity.
  - unfold bind at 1. unfold load at 1. unfold bind, call_, call, ret.
    rewrite IH. cbn [ev calls]. rewrite <- !app_assoc. reflexivity.
Qed.

(** One pass of the search is the loop of lines 183-191 over the
    answers to its NUM candidates. *)
Lemma search_unfold (t : XTree) (k : nat) (a b : vec) (c : Ctx E) :
  search t k (a, b) c
  = bracket (answers t a b (ev c)) (map (candidate a b) (seq 0 NUM)) (seq 0 NUM)
            (a, b) (answered t a b c).
Proof.
  unfold search, answers, answered. cbn [fst snd].
  unfold bind at 1. rewrite for_load_run. cbn [app].
  unfold bind, call. cbn [ev calls].
  destruct (values NUM (loaded t a b (seq 0 NUM) (ev c))) as [out e].
  cbn [fst snd]. unfold pass, raw_loads. rewrite <- app_assoc. reflexivity.
Qed.
End Pass.

(** The sampling grid. *)




Section Grid.
Context {D : Dimension}.

Lemma positions_digit (t : XTree) (i : nat) :
  positions t i
  = map (fun j => nth j (nth (digit i j) (pts t) []) 0%float) (seq 0 N).
Proof. reflexivity. Qed.


End Grid.

(** ** Eigenvalues, and the symmetry of AtA *)

(** The order on doubles. *)

Lemma SFcompare_antisym (a b : spec_float) :
  SFcompare b a = option_map CompOpp (SFcompare a b).
Proof.
  destruct a as [sa | sa | | sa ma ea], b as [sb | sb | | sb mb eb]; simpl;
    try reflexivity; try (destruct sa; reflexivity); try (destruct sb; reflexivity);
    try (destruct sa, sb; reflexivity).
  f_equal. destruct sa, sb; try reflexivity.
  - rewrite (Z.compare_antisym ea eb). destruct (ea ?= eb)%Z; simpl; try reflexivity.
    rewrite (Pos.compare_cont_antisym ma mb Eq). reflexivity.
  - rewrite (Z.compare_antisym ea eb). destruct (ea ?= eb)%Z; simpl; try reflexivity.
    rewrite (Pos.compare_cont_antisym ma mb Eq). reflexivity.
Qed.

Lemma SFcompare_total (a b : spec_float) :
  a <> S754_nan -> b <> S754_nan -> exists r, SFcompare a b = Some r.
Proof.
  intros Ha Hb. destruct a, b; try contradiction; simpl; eexists; reflexivity.
Qed.

Lemma ltb_not_leb (x y : double) : (x <? y)%float = true -> (y <=? x)%float = false.
Proof.
  rewrite ltb_spec, leb_spec. unfold SFltb, SFleb.
  rewrite (SFcompare_antisym (Prim2SF x) (Prim2SF y)).
  destruct (SFcompare (Prim2SF x) (Prim2SF y)) as [[| |] |]; simpl; congruence.
Qed.

Lemma not_ltb_leb (x y : double) :
  isnan x = false -> isnan y = false ->
  (x <? y)%float = false -> (y <=? x)%float = true.
Proof.
  intros Hx Hy. rewrite ltb_spec, leb_spec. unfold SFltb, SFleb.
  rewrite (SFcompare_antisym (Prim2SF x) (Prim2SF y)).
  destruct (SFcompare_total (Prim2SF x) (Prim2SF y)) as (r & ->).
  - intros Hn. apply isnan_spec in Hn. congruence.
  - intros Hn. apply isnan_spec in Hn. congruence.
  - destruct r; simpl; congruence.
Qed.

Lemma isnan_abs (x : double) : isnan (abs x) = isnan x.
Proof.
  destruct (isnan x) eqn:Hx.
  - apply isnan_spec. apply isnan_spec in Hx. rewrite abs_spec, Hx. reflexivity.
  - destruct (isnan (abs x)) eqn:Ha; [| reflexivity].
    apply isnan_spec in Ha. rewrite abs_spec in Ha.
    assert (Prim2SF x = S754_nan) by (destruct (Prim2SF x); try discriminate; reflexivity).
    apply isnan_spec in H. congruence.
Qed.

Lemma map_nth_seq {A B} (f : A -> B) (l : list A) (d : A) :
  map (fun i => f (nth i l d)) (seq 0 (length l)) = map f l.
Proof.
  induction l as [| a l IH]; [reflexivity |].
  cbn [length seq map nth]. f_equal. rewrite <- seq_shift, map_map. exact IH.
Qed.

Lemma filter_map_length {A B} (p : B -> bool) (f : A -> B) (l : list A) :
  length (filter p (map f l)) = length (filter (fun a => p (f a)) l).
Proof.
  induction l as [| a l IH]; [reflexivity |]. simpl.
  destruct (p (f a)); simpl; rewrite IH; reflexivity.
Qed.

Section Assert.
Context {D : Dimension} {H : Header}.

(** The count the assertion of line 348 makes is the rank line 289
    stores. *)
Lemma truncated_count (es : EigenSolver) :
  length (eigenvalues es) = N ->
  isnan EIGENVALUE_CUTOFF = false ->
  Forall invertible (eigenvalues es) ->
  count_nonzero (truncated es) = count_rank es.
Proof.
  intros Hlen Hcut Hall. unfold truncated, count_nonzero, count_rank.
  rewrite <- Hlen.
  rewrite (map_nth_seq
             (fun l => if (abs l <? EIGENVALUE_CUTOFF)%dbl then 0%float else (1 / l)%dbl)).
  rewrite filter_map_length. f_equal. apply filter_ext_in.
  intros l Hl. rewrite Forall_forall in Hall. destruct (Hall l Hl) as [Hnan Hinv].
  destruct (abs l <? EIGENVALUE_CUTOFF)%dbl eqn:Hlt.
  - rewrite (ltb_not_leb _ _ Hlt). reflexivity.
  - rewrite Hinv. rewrite not_ltb_leb; auto. rewrite isnan_abs. exact Hnan.
Qed.
End Assert.

(** Products commute. *)

Lemma mul_comm (x y : double) : (x * y = y * x)%float.
Proof.
  rewrite <- (SF2Prim_Prim2SF (x * y)), <- (SF2Prim_Prim2SF (y * x)), !mul_spec.
  f_equal. unfold SF64mul, SFmul.
  destruct (Prim2SF x) as [sx | sx | | sx mx ex], (Prim2SF y) as [sy | sy | | sy my ey];
    try reflexivity; try (rewrite (xorb_comm sx sy); reflexivity).
  rewrite (xorb_comm sx sy), (Pos.mul_comm mx my), (Z.add_comm ex ey). reflexivity.
Qed.

Lemma zipWith_mul_comm (u v : list double) :
  zipWith PrimFloat.mul u v = zipWith PrimFloat.mul v u.
Proof.
  revert v. induction u as [| a u IH]; intros [| b v]; simpl; try reflexivity.
  rewrite mul_comm, IH. reflexivity.
Qed.

Lemma dot_comm (u v : list double) : dot u v = dot v u.
Proof. unfold dot. rewrite zipWith_mul_comm. reflexivity. Qed.

Lemma nth_map_seq {A} (f : nat -> A) (n i : nat) (d : A) :
  i < n -> nth i (map f (seq 0 n)) d = f i.
Proof.
  intros Hi. rewrite (nth_indep _ d (f 0)) by (rewrite length_map, length_seq; exact Hi).
  rewrite map_nth, seq_nth by exact Hi. reflexivity.
Qed.

Lemma entry_gram (A : list (list double)) (j k : nat) :
  entry (mulmm (transpose A) A) j k
  = if Nat.ltb j (ncols A) && Nat.ltb k (ncols A)
    then dot (col A j) (col A k) else 0%float.
Proof.
  unfold entry, mulmm, transpose. rewrite map_map.
  destruct (Nat.ltb_spec j (ncols A)) as [Hj | Hj].
  - rewrite nth_map_seq by exact Hj. cbn [andb].
    destruct (Nat.ltb_spec k (ncols A)) as [Hk | Hk].
    + rewrite nth_map_seq by exact Hk. reflexivity.
    + apply nth_overflow. rewrite length_map, length_seq. exact Hk.
  - rewrite (nth_overflow _ []) by (rewrite length_map, length_seq; exact Hj).
    destruct k; reflexivity.
Qed.

Lemma gram_symmetric (A : list (list double)) : symmetric (mulmm (transpose A) A).
Proof.
  intros j k. rewrite !entry_gram, dot_comm, andb_comm. reflexivity.
Qed.

Lemma gram_square (A : list (list double)) :
  square (ncols A) (mulmm (transpose A) A).
Proof.
  unfold square, mulmm, transpose. rewrite !length_map, length_seq. split; [reflexivity |].
  apply Forall_forall. intros r Hr. apply in_map_iff in Hr. destruct Hr as (x & <- & _).
  rewrite length_map, length_seq. reflexivity.
Qed.

Lemma madd_square (n : nat) (a b : list (list double)) :
  square n a -> square n b -> square n (madd a b).
Proof.
  intros [Hla Ha] [Hlb Hb]. unfold square, madd. split.
  - rewrite zipWith_length. lia.
  - clear Hla Hlb. revert b Hb. induction Ha as [| x a Hx _ IH]; intros b Hb; simpl.
    + constructor.
    + destruct Hb as [| y b Hy Hb]; constructor.
      * unfold vadd. rewrite zipWith_length. lia.
      * apply IH. exact Hb.
Qed.

Lemma entry_madd (n : nat) (a b : list (list double)) (j k : nat) :
  square n a -> square n b -> j < n -> k < n ->
  entry (madd a b) j k = (entry a j k + entry b j k)%float.
Proof.
  intros [Hla Ha] [Hlb Hb] Hj Hk. unfold entry, madd.
  rewrite (nth_zipWith _ _ _ _ [] [] []) by lia.
  unfold vadd. rewrite Forall_forall in Ha, Hb.
  apply nth_zipWith.
  - rewrite Ha; [exact Hk | apply nth_In; lia].
  - rewrite Hb; [exact Hk | apply nth_In; lia].
Qed.

Lemma entry_outside (n : nat) (a : list (list double)) (j k : nat) :
  square n a -> n <= j \/ n <= k -> entry a j k = 0%float.
Proof.
  intros [Hl Ha] Hjk. unfold entry.
  destruct (Nat.lt_ge_cases j n) as [Hj | Hj].
  - apply nth_overflow. rewrite Forall_forall in Ha.
    rewrite Ha; [lia | apply nth_In; lia].
  - rewrite (nth_overflow a) by lia. destruct k; reflexivity.
Qed.

Lemma madd_symmetric (n : nat) (a b : list (list double)) :
  square n a -> square n b -> symmetric a -> symmetric b -> symmetric (madd a b).
Proof.
  intros Ha Hb Sa Sb j k.
  destruct (Nat.lt_ge_cases j n) as [Hj | Hj], (Nat.lt_ge_cases k n) as [Hk | Hk].
  - rewrite !(entry_madd n) by assumption. rewrite Sa, Sb. reflexivity.
  - rewrite !(entry_outside n) by (auto using madd_square). reflexivity.
  - rewrite !(entry_outside n) by (auto using madd_square). reflexivity.
  - rewrite !(entry_outside n) by (auto using madd_square). reflexivity.
Qed.

Lemma mzero_square (n : nat) : square n (mzero n n).
Proof.
  unfold square, mzero, vzero. rewrite repeat_length. split; [reflexivity |].
  apply Forall_forall. intros r Hr. apply repeat_spec in Hr. subst. apply repeat_length.
Qed.

Lemma entry_mzero (r c j k : nat) : entry (mzero r c) j k = 0%float.
Proof.
  unfold entry, mzero, vzero.
  destruct (nth_in_or_default j (repeat (repeat 0%float c) r) []) as [Hin | ->].
  - apply repeat_spec in Hin. rewrite Hin.
    destruct (nth_in_or_default k (repeat 0%float c) 0%float) as [Hin' | ->];
      [apply repeat_spec in Hin'; exact Hin' | reflexivity].
  - destruct k; reflexivity.
Qed.

Lemma mzero_symmetric (n : nat) : symmetric (mzero n n).
Proof. intros j k. rewrite !entry_mzero. reflexivity. Qed.

Section Gram.
Context {D : Dimension} {H : Header} {E : Type} {EV : Evaluator E}.

Lemma solve_leaf_AtA (t : XTree) (c : Ctx E) (n : XTree) (c' : Ctx E) :
  solve_leaf t c = Done (n, c') ->
  exists ds, AtA n = mulmm (transpose (normals ds t)) (normals ds t).
Proof.
  unfold solve_leaf. intros Hrun. unbind Hrun. unbind Hrun. unbind Hrun.
  inversion Hrun; subst; clear Hrun.
  apply lift_Done in Hm1. destruct Hm1 as [Hv _].
  unfold findVertex_es in Hv. destruct (_ && _ && _); [discriminate |].
  inversion Hv; subst; clear Hv. exists a0. reflexivity.
Qed.

Lemma ncols_normals (ds : Derivs) (t : XTree) :
  N <= 3 -> ncols (normals ds t) = N.
Proof.
  intros HN. unfold normals, num.
  pose proof (_pow_pos R N ltac:(unfold R; lia)) as Hpos.
  destruct (_pow R N) as [| m]; [lia |].
  cbn [seq map ncols]. unfold row. cbn [fst].
  rewrite length_firstn.
  destruct (_ || _); cbn [length]; [lia |].
  unfold vdiv. rewrite length_map. cbn [length]. lia.
Qed.

Lemma leaf_AtA (t : XTree) (c : Ctx E) (n : XTree) (c' : Ctx E) :
  leaf t c = Done (n, c') ->
  AtA n = AtA t
  \/ exists ds t', AtA n = mulmm (transpose (normals ds t')) (normals ds t').
Proof.
  unfold leaf. intros Hrun. unbind Hrun.
  apply edges_loop in Hm. destruct Hm as (ps & _ & _ & ->).
  cbn [manifold with_mass_point with_manifold] in Hrun.
  destruct (cornersAreManifold t).
  - right. apply solve_leaf_AtA in Hrun. destruct Hrun as (ds & Hds).
    eexists _, _. exact Hds.
  - left. inversion Hrun; subst. reflexivity.
Qed.

Lemma fold_madd_square (n : nat) (l : list (list (list double))) :
  Forall (fun m => square n m /\ symmetric m) l ->
  forall a, square n a -> symmetric a ->
  square n (fold_left madd l a) /\ symmetric (fold_left madd l a).
Proof.
  induction 1 as [| m l [Hq Hs] _ IH]; intros a Ha Sa; simpl; [auto |].
  apply IH; [apply madd_square | apply (madd_symmetric n)]; assumption.
Qed.

(** The [AtA] of a returned node is N by N and symmetric. *)
Lemma node_AtA (fuel : nat) :
  N <= 3 ->
  forall r (c : Ctx E) t c',
    new_XTree fuel r c = Done (t, c') ->
    square N (AtA t) /\ symmetric (AtA t).
Proof.
  intros HN. induction fuel as [| fuel IH]; intros r c t c' Hrun; [discriminate |].
  apply construct_cases in Hrun.
  destruct Hrun as [_ -> _ | fs _ _ _ -> | fs c1 _ _ _ Hl
                  | cs t0 ae af c2 _ _ _ Ht0 Hall Hs _].
  - split; [apply mzero_square | apply mzero_symmetric].
  - split; [apply mzero_square | apply mzero_symmetric].
  - apply leaf_AtA in Hl. destruct Hl as [-> | (ds & t' & ->)].
    + split; [apply mzero_square | apply mzero_symmetric].
    + split; [| apply gram_symmetric].
      rewrite <- (ncols_normals ds t' HN) at 1. apply gram_square.
  - assert (Hlen : length cs = size).
    { apply Forall2_length in Hall. rewrite length_seq in Hall. auto. }
    pose proof (branch_isBranch cs t0 (aggregate (map type cs)) r Ht0 Hlen) as Hb.
    set (b := fill (with_type (aggregate (map type cs)) t0)) in *.
    assert (Hab : AtA b = mzero N N).
    { unfold b, fill. rewrite Ht0. destruct (_ || _); reflexivity. }
    assert (Hchb : children b = cs) by (apply (branch_children cs t0 _ r Ht0)).
    assert (Hcs : Forall (fun m => square N m /\ symmetric m) (map AtA cs)).
    { clear - Hall IH. induction Hall as [| j ch js cs' (c3 & c4 & Hx) _ IHall];
        constructor; [eapply IH; exact Hx | exact IHall]. }
    assert (Hmerged : square N (AtA (merged b)) /\ symmetric (AtA (merged b))).
    { unfold merged. rewrite merge_fold. cbn [AtA with_QEF with_rank with_manifold with_level].
      rewrite Hab, Hchb. apply fold_madd_square;
        [exact Hcs | apply mzero_square | apply mzero_symmetric]. }
    destruct (simplify_cases _ _ Hb Hs)
      as [[_ ->] | [(_ & _ & ->) | (_ & _ & x & [[_ ->] | [_ ->]])]];
      cbn [AtA with_level with_manifold with_vert with_children];
      try exact Hmerged; rewrite Hab; split; auto using mzero_square, mzero_symmetric.
Qed.
End Gram.

Section Rank.
Context {D : Dimension} {H : Header} {E : Type} {EV : Evaluator E}.

Lemma count_rank_le (es : EigenSolver) : count_rank es <= length (eigenvalues es).
Proof. unfold count_rank. apply filter_length_le. Qed.

Lemma max_rank_le (n : nat) (cs : list XTree) :
  Forall (fun ch => rank ch <= n) cs -> max_rank cs <= n.
Proof.
  unfold max_rank. intros Hall.
  assert (Hgen : forall a, a <= n -> fold_left (fun a b => Nat.max a (rank b)) cs a <= n).
  { induction Hall as [| ch cs Hch _ IH]; intros a Ha; simpl; [exact Ha |].
    apply IH. lia. }
  apply Hgen. lia.
Qed.

Lemma node_rank (fuel : nat) :
  (forall m, length (eigenvalues (solve m)) <= N) ->
  forall r (c : Ctx E) t c',
    new_XTree fuel r c = Done (t, c') -> rank t <= N.
Proof.
  intros Hsolve. induction fuel as [| fuel IH]; intros r c t c' Hrun; [discriminate |].
  apply construct_cases in Hrun.
  destruct Hrun as [_ -> _ | fs _ _ _ -> | fs c1 _ _ _ Hl
                  | cs t0 ae af c2 _ _ _ Ht0 Hall Hs _].
  - cbn. lia.
  - cbn. lia.
  - apply leaf_fields in Hl. destruct Hl as (_ & _ & _ & _ & _ & _ & _ & Hm & Hn).
    destruct (manifold t).
    + rewrite Hm by reflexivity. etransitivity; [apply count_rank_le | apply Hsolve].
    + destruct (Hn eq_refl) as (-> & _). cbn. lia.
  - assert (Hlen : length cs = size).
    { apply Forall2_length in Hall. rewrite length_seq in Hall. auto. }
    pose proof (branch_isBranch cs t0 (aggregate (map type cs)) r Ht0 Hlen) as Hb.
    set (b := fill (with_type (aggregate (map type cs)) t0)) in *.
    assert (Hrb : rank b = 0).
    { unfold b, fill. rewrite Ht0. destruct (_ || _); reflexivity. }
    assert (Hchb : children b = cs) by (apply (branch_children cs t0 _ r Ht0)).
    assert (Hcs : Forall (fun ch => rank ch <= N) cs).
    { clear - Hall IH. induction Hall as [| j ch js cs' (c3 & c4 & Hx) _ IHall];
        constructor; [eapply IH; exact Hx | exact IHall]. }
    assert (Hmerged : rank (merged b) <= N).
    { unfold merged. rewrite merge_fold. cbn [rank with_QEF with_mass_point with_rank].
      rewrite Hchb. apply max_rank_le. exact Hcs. }
    destruct (simplify_cases _ _ Hb Hs)
      as [[_ ->] | [(_ & _ & ->) | (_ & _ & x & [[_ ->] | [_ ->]])]];
      cbn [rank with_level with_manifold with_vert with_children];
      try exact Hmerged; rewrite Hrb; lia.
Qed.
End Rank.

(** ** The properties *)

Section Further.
Context {D : Dimension} {H : Header} {E : Type} {EV : Evaluator E}.

(** X1.  Bit [j] of [cornerMask()] is set exactly when [j] is one of
    the node's 2^N corners, [j] is below 8 (the mask is a [uint8_t])
    and corner [j] is FILLED; the mask is below 256. *)
Theorem corner_mask_bits (t : XTree) :
  (forall j, Z.testbit (cornerMask t) (Z.of_nat j)
             = Nat.ltb j size && Nat.ltb j 8 && filled t j)
  /\ (0 <= cornerMask t < 256)%Z.
Proof.
  split; [intros j; apply cornerMask_testbit | apply cornerMask_range].
Qed.

(** X2.  The root of a finished tree stands on the region the
    constructor was given.  Every node has 2^N corners, and either no
    child or 2^N children; child [j] stands on sub-region [j] of its
    parent's region (line 45), and corner [j] of the parent is corner
    [j] of child [j] (line 48). *)
Theorem tree_layout
    (fuel : nat) (r : Region) (c : Ctx E) (root : XTree) (c' : Ctx E) (n : XTree) :
  new_XTree fuel r c = Done (root, c') ->
  subtree n root ->
  region root = r
  /\ length (corners n) = size
  /\ (children n = []
      \/ (length (children n) = size
          /\ forall j d, j < size ->
               region (nth j (children n) d) = subregion (region n) j
               /\ cornerState n j = cornerState (nth j (children n) d) j)).
Proof.
  intros Hrun Hsub. split; [eapply new_XTree_region; exact Hrun |].
  assert (Hb : Built n).
  { eapply Built_subtree; [exact Hsub |]. exists fuel, r, c, c'. exact Hrun. }
  destruct Hb as (fuel' & r' & c1 & c1' & Hn).
  split; [eapply node_shape; exact Hn |].
  destruct (children n) eqn:Hch; [left; reflexivity | right].
  rewrite <- Hch. eapply branch_layout; [exact Hn |].
  unfold isBranch. rewrite Hch. reflexivity.
Qed.

(** X3.  In a finished tree every node of type FILLED or EMPTY,
    leaf or branch, has all its 2^N corners in that state
    (lines 81-85). *)
Theorem uniform_type_uniform_corners
    (fuel : nat) (r : Region) (c : Ctx E) (root : XTree) (c' : Ctx E) (n : XTree) :
  new_XTree fuel r c = Done (root, c') ->
  subtree n root ->
  type n <> AMBIGUOUS ->
  corners n = repeat (type n) size.
Proof.
  intros Hrun Hsub Hty.
  assert (Hb : Built n).
  { eapply Built_subtree; [exact Hsub |]. exists fuel, r, c, c'. exact Hrun. }
  destruct Hb as (fuel' & r' & c1 & c1' & Hn).
  eapply uniform_corners; eauto.
Qed.

(** X4.  A branch whose children are all FILLED or EMPTY leaves is
    never collapsed: no edge was intersected below it, so the summed
    mass point is zero, [massPoint()] is 0/0, the vertex and the QEF
    error are NaN, and the test [findVertex() < 1e-8] of line 135
    fails.  The solver is assumed to return at least one eigenvector
    row, and N to be positive. *)
Theorem uniform_children_are_kept (b : XTree) :
  0 < N ->
  (forall m, eigenvectors (solve m) <> []) ->
  isBranch b = true ->
  Forall (fun c => exists r ty, c = uniform_leaf r ty) (children b) ->
  AtA b = mzero N N -> _mass_point b = vzero (S N) ->
  exists t, simplify b = Done t /\ children t = children b.
Proof. apply simplify_uniform_children. Qed.

(** X5.  In a finished tree a leaf of type FILLED or EMPTY is the
    leaf lines 24-31 or 59-85 made: level 0, rank 0, no vertex, zero
    QEF sums and mass point, [manifold] true.  No collapse produces
    one. *)
Theorem uniform_leaves_were_never_branches
    (fuel : nat) (r : Region) (c : Ctx E) (root : XTree) (c' : Ctx E) (n : XTree) :
  0 < N ->
  (forall m, eigenvectors (solve m) <> []) ->
  new_XTree fuel r c = Done (root, c') ->
  subtree n root ->
  isBranch n = false -> type n <> AMBIGUOUS ->
  n = uniform_leaf (region n) (type n).
Proof.
  intros HN Hsolve Hrun Hsub Hleaf Hty.
  assert (Hb : Built n).
  { eapply Built_subtree; [exact Hsub |]. exists fuel, r, c, c'. exact Hrun. }
  destruct Hb as (fuel' & r' & c1 & c1' & Hn).
  rewrite (new_XTree_region _ _ _ _ _ Hn).
  eapply uniform_leaf_only; eauto.
Qed.

(** X6.  In a finished tree every AMBIGUOUS leaf, constructed as a
    leaf or collapsed from a branch, has had its vertex assigned
    (lines 135, 293 and 300). *)
Theorem ambiguous_leaves_have_a_vertex
    (fuel : nat) (r : Region) (c : Ctx E) (root : XTree) (c' : Ctx E) (n : XTree) :
  new_XTree fuel r c = Done (root, c') ->
  subtree n root ->
  isBranch n = false -> type n = AMBIGUOUS ->
  exists x, vert n = Some x.
Proof.
  intros Hrun Hsub Hleaf Hty.
  assert (Hb : Built n).
  { eapply Built_subtree; [exact Hsub |]. exists fuel, r, c, c'. exact Hrun. }
  destruct Hb as (fuel' & r' & c1 & c1' & Hn).
  apply (node_volume _ _ _ _ _ Hn); assumption.
Qed.

(** X7.  In a finished tree a branch has a positive level; a node of
    positive level (a branch, or a leaf collapsed from one) stands on
    a region that passed the test [volume() > 0.001] of line 39, and
    an AMBIGUOUS leaf of level 0 stands on one that failed it. *)
Theorem subdivision_follows_volume
    (fuel : nat) (r : Region) (c : Ctx E) (root : XTree) (c' : Ctx E) (n : XTree) :
  new_XTree fuel r c = Done (root, c') ->
  subtree n root ->
  (isBranch n = true -> 0 < level n)
  /\ (0 < level n -> (0.001 <? volume (region n))%dbl = true)
  /\ (level n = 0 -> type n = AMBIGUOUS -> (0.001 <? volume (region n))%dbl = false).
Proof.
  intros Hrun Hsub.
  assert (Hb : Built n).
  { eapply Built_subtree; [exact Hsub |]. exists fuel, r, c, c'. exact Hrun. }
  destruct Hb as (fuel' & r' & c1 & c1' & Hn).
  destruct (node_volume _ _ _ _ _ Hn) as (H1 & H2 & H3 & _). auto.
Qed.

(** X8.  The calls one run of the constructor makes on the
    evaluator, in order.  A pruned cell: [eval], [push], [pop].  A
    terminal cell: [eval], [push], its 2^N corners loaded and
    evaluated, [pop], then ITER passes of NUM raw loads and one
    evaluation for every edge it searches, then the R^N samples loaded
    and [derivs] if it is a manifold AMBIGUOUS leaf.  A subdivided
    cell: [eval], [push], the calls of its 2^N children, [pop],
    [pop]. *)
Theorem evaluator_calls
    (fuel : nat) (r : Region) (c : Ctx E) (t : XTree) (c' : Ctx E) :
  new_XTree fuel r c = Done (t, c') ->
  exists d,
    calls c' = calls c ++ d /\ Trace d
    /\ (pruned (first_interval r c) = true -> d = [CEval; CPush; CPop])
    /\ (pruned (first_interval r c) = false -> (0.001 <? volume r)%dbl = false ->
        d = terminal_calls (searched t) (sampled_QEF t))
    /\ (pruned (first_interval r c) = false -> (0.001 <? volume r)%dbl = true ->
        exists ds, Traces size ds /\ d = [CEval; CPush] ++ ds ++ [CPop; CPop]).
Proof.
  intros Hrun. destruct fuel as [| fuel]; [discriminate |].
  exact (construct_trace _ (new_XTree_trace fuel) _ _ _ _ Hrun).
Qed.

(** X9.  A run of the constructor pushes once for every interval it
    evaluates and never pops less than it pushed; a cell that is
    pruned or terminal pushes once and pops once, and a cell that is
    subdivided pops more often than it pushes. *)
Theorem pushes_and_pops
    (fuel : nat) (r : Region) (c : Ctx E) (t : XTree) (c' : Ctx E) :
  new_XTree fuel r c = Done (t, c') ->
  exists d,
    calls c' = calls c ++ d
    /\ count_calls is_eval d = count_calls Quad.is_push d
    /\ count_calls Quad.is_push d <= count_calls Quad.is_pop d
    /\ (pruned (first_interval r c) = true \/ (0.001 <? volume r)%dbl = false ->
        count_calls Quad.is_push d = 1 /\ count_calls Quad.is_pop d = 1)
    /\ (pruned (first_interval r c) = false -> (0.001 <? volume r)%dbl = true ->
        count_calls Quad.is_push d < count_calls Quad.is_pop d).
Proof.
  intros Hrun. destruct fuel as [| fuel]; [discriminate |].
  destruct (construct_trace _ (new_XTree_trace fuel) _ _ _ _ Hrun)
    as (d & Hd & Htr & Hp & Ht & Hs).
  exists d. split; [exact Hd |].
  destruct (Trace_counts d Htr) as [He Hle].
  split; [exact He |]. split; [exact Hle |]. split.
  - intros Hcase. destruct (pruned (first_interval r c)) eqn:Hpr.
    + rewrite (Hp eq_refl). split; reflexivity.
    + destruct Hcase as [Hcase | Hv]; [discriminate |].
      rewrite (Ht eq_refl Hv), !terminal_calls_count by reflexivity.
      split; reflexivity.
  - intros Hpr Hv. destruct (Hs Hpr Hv) as (ds & Hds & ->).
    apply Traces_counts in Hds. rewrite !count_calls_app.
    set (u := count_calls Quad.is_push ds) in *.
    set (o := count_calls Quad.is_pop ds) in *.
    unfold count_calls. simpl. lia.
Qed.

(** X10.  In the calls of a run, every [values(n)] and [derivs(n)]
    comes right after slots 0, 1, ..., n-1 were loaded in that order,
    with n positive, and no [eval], [push] or [pop] comes between a
    load and the evaluation of its batch. *)
Theorem loads_match_evaluations
    (fuel : nat) (r : Region) (c : Ctx E) (t : XTree) (c' : Ctx E) :
  new_XTree fuel r c = Done (t, c') ->
  exists d, calls c' = calls c ++ d /\ batched 0 d = true.
Proof.
  intros Hrun. destruct (new_XTree_trace fuel _ _ _ _ Hrun) as (d & Hd & Htr).
  exists d. split; [exact Hd |].
  rewrite <- (app_nil_r d). rewrite (Trace_closed d Htr). reflexivity.
Qed.

(** X11.  Lines 183-191: when candidate [j] is the first to evaluate
    non-negative, the bracket moves to candidates [j - 1] and [j] if
    [j] is positive, and for [j = 0] the loop reads [ps[-1]]. *)
Theorem bracket_moves_to_first_crossing
    (out : nat -> double) (ps : list vec) (io : vec * vec) (c : Ctx E) (n j : nat) :
  j < n -> n <= length ps ->
  (forall i, i < j -> (0 <=? out i)%dbl = false) ->
  (0 <=? out j)%dbl = true ->
  bracket out ps (seq 0 n) io c
  = match j with
    | 0 => Stop (OutOfBounds (-1) (length ps))
    | S j' => Done ((nth j' ps [], nth j ps []), c)
    end.
Proof. apply bracket_first. Qed.

(** X12.  Lines 183-191: when no candidate evaluates non-negative
    (all are negative or NaN), the loop ends with the bracket as it
    was. *)
Theorem bracket_unchanged_without_crossing
    (out : nat -> double) (ps : list vec) (io : vec * vec) (c : Ctx E) (n : nat) :
  (forall i, i < n -> (0 <=? out i)%dbl = false) ->
  bracket out ps (seq 0 n) io c = Done (io, c).
Proof. apply bracket_none. Qed.


(** X14.  When the solver holds N eigenvalues, none NaN and none with
    a zero reciprocal, and the cutoff is not NaN, the number of
    non-zero entries that line 348 counts in [D] is the rank that
    line 289 counted, so [findVertex(es)] passes its assertion on the
    leaf and returns. *)
Theorem rank_passes_the_assertion (es : EigenSolver) (t : XTree) :
  length (eigenvalues es) = N ->
  isnan EIGENVALUE_CUTOFF = false ->
  Forall invertible (eigenvalues es) ->
  count_nonzero (truncated es) = count_rank es
  /\ exists e x,
       findVertex_es es (with_rank (count_rank es) t)
       = Done (e, with_vert x (with_rank (count_rank es) t)).
Proof.
  intros Hlen Hcut Hall. pose proof (truncated_count es Hlen Hcut Hall) as Hc.
  split; [exact Hc |]. unfold findVertex_es. cbn [rank with_rank].
  rewrite Hc, Nat.eqb_refl, !andb_false_r. eexists _, _. reflexivity.
Qed.

(** X15.  For N at most 3, the [AtA] of every node of a finished
    tree is an N by N matrix that equals its transpose, entry for
    entry: lines 278-279 compute it as [At * A], and line 128 sums
    such matrices. *)
Theorem AtA_is_symmetric
    (fuel : nat) (r : Region) (c : Ctx E) (root : XTree) (c' : Ctx E) (n : XTree) :
  N <= 3 ->
  new_XTree fuel r c = Done (root, c') ->
  subtree n root ->
  square N (AtA n) /\ symmetric (AtA n).
Proof.
  intros HN Hrun Hsub.
  assert (Hb : Built n).
  { eapply Built_subtree; [exact Hsub |]. exists fuel, r, c, c'. exact Hrun. }
  destruct Hb as (fuel' & r' & c1 & c1' & Hn).
  eapply node_AtA; eauto.
Qed.

(** X16.  When the solver returns at most N eigenvalues, the rank of
    every node of a finished tree is at most N. *)
Theorem rank_is_at_most_N
    (fuel : nat) (r : Region) (c : Ctx E) (root : XTree) (c' : Ctx E) (n : XTree) :
  (forall m, length (eigenvalues (solve m)) <= N) ->
  new_XTree fuel r c = Done (root, c') ->
  subtree n root ->
  rank n <= N.
Proof.
  intros Hsolve Hrun Hsub.
  assert (Hb : Built n).
  { eapply Built_subtree; [exact Hsub |]. exists fuel, r, c, c'. exact Hrun. }
  destruct Hb as (fuel' & r' & c1 & c1' & Hn).
  eapply node_rank; eauto.
Qed.

(** X17.  Lines 91-141 never stop on a branch: [findVertex] skips
    its assertion while the node holds children (line 346).  They
    leave the type, the corners and the region as they were, and the
    children either all kept or all released. *)
Theorem simplify_never_stops (b : XTree) :
  isBranch b = true ->
  exists t,
    simplify b = Done t
    /\ type t = type b /\ corners t = corners b /\ region t = region b
    /\ (children t = children b \/ children t = []).
Proof.
  intros Hb.
  assert (Hs : exists t, simplify b = Done t).
  { rewrite simplify_unfold.
    destruct (forallb _ (children b)); [| eexists; reflexivity].
    destruct (collapsible b); [| eexists; reflexivity].
    destruct (findVertex_branch (merged b)) as (x & ->);
      [rewrite merged_isBranch; exact Hb | eexists; reflexivity]. }
  destruct Hs as (t & Hs). exists t. split; [exact Hs |].
  destruct (simplify_frame _ _ Hb Hs) as (Ht & Hc & Hr & _).
  repeat split; auto. apply simplify_children; assumption.
Qed.
(** X18.  One pass of the search (lines 167-192), from the answers
    the evaluator gives for the NUM candidates: if none is
    non-negative the bracket stays; if candidate [j] is the first
    that is, the bracket becomes candidates [j - 1] and [j] when [j]
    is positive, and the pass reads [ps[-1]] when [j] is 0.  Either
    way the pass has loaded slots 0 .. NUM-1 and evaluated them
    once. *)
Theorem search_pass_outcome (t : XTree) (k : nat) (a b : vec) (c : Ctx E) (j : nat) :
  (forall i, i < j -> (0 <=? answers t a b (ev c) i)%dbl = false) ->
  (j = NUM -> search t k (a, b) c = Done ((a, b), answered t a b c))
  /\ (j < NUM -> (0 <=? answers t a b (ev c) j)%dbl = true ->
      search t k (a, b) c
      = match j with
        | 0 => Stop (OutOfBounds (-1) NUM)
        | S j' => Done ((candidate a b j', candidate a b j), answered t a b c)
        end).
Proof.
  intros Hlow. rewrite search_unfold. split.
  - intros ->. apply bracket_none. exact Hlow.
  - intros Hj Hhit.
    rewrite (bracket_first _ _ (a, b) (answered t a b c) NUM j Hj);
      [| rewrite length_map, length_seq; lia | exact Hlow | exact Hhit].
    rewrite length_map, length_seq.
    destruct j as [| j']; [reflexivity |].
    rewrite !nth_map_seq by lia. reflexivity.
Qed.
(** X19.  A cell that the interval does not prune and whose volume
    is at most 0.001 is a leaf of level 0 whose corner [i] is FILLED
    when the value the evaluator returns for slot [i], after the
    corners were loaded with [set], is below zero, and EMPTY
    otherwise (also when that value is NaN). *)
Theorem terminal_corners_are_sampled_signs
    (fuel : nat) (r : Region) (c : Ctx E) (t : XTree) (c' : Ctx E) :
  new_XTree fuel r c = Done (t, c') ->
  pruned (first_interval r c) = false ->
  (0.001 <? volume r)%dbl = false ->
  corners t = map (sampled (corner_values r c)) (seq 0 size)
  /\ type t = aggregate (corners t)
  /\ children t = [] /\ level t = 0.
Proof.
  intros Hrun Hp Hv. destruct fuel as [| fuel]; [discriminate |].
  eapply sampled_corners; eauto.
Qed.
End Further.

(** ** The properties at concrete inputs *)

Lemma Quad_solve_eigenvectors (m : matrix) : eigenvectors (Quad.solve m) <> [].
Proof. unfold Quad.solve. destruct (PrimFloat.eqb _ _); discriminate. Qed.

Lemma Quad_solve_eigenvalues (m : matrix) : length (eigenvalues (Quad.solve m)) <= 2.
Proof. unfold Quad.solve. destruct (PrimFloat.eqb _ _); simpl; lia. Qed.

Lemma tree_layout_witness :
  let root := fst (Cases.built Quad.bubble 2 Quad.cell) in
  Quad.run Quad.bubble 2 Quad.cell = Done (root, snd (Cases.built Quad.bubble 2 Quad.cell))
  /\ subtree root root
  /\ region root = Quad.cell
  /\ length (corners root) = @size Quad.dim
  /\ (children root = []
      \/ (length (children root) = @size Quad.dim
          /\ forall j d, j < @size Quad.dim ->
               region (nth j (children root) d) = subregion (region root) j
               /\ cornerState root j = cornerState (nth j (children root) d) j)).
Proof.
  split; [vm_compute; reflexivity |]. split; [constructor |].
  apply (@tree_layout Quad.dim Quad.header Quad.Tape (Quad.evaluator Quad.bubble)
           2 Quad.cell Quad.start
           (fst (Cases.built Quad.bubble 2 Quad.cell))
           (snd (Cases.built Quad.bubble 2 Quad.cell))
           (fst (Cases.built Quad.bubble 2 Quad.cell))).
  - vm_compute. reflexivity.
  - constructor.
Defined.

Lemma uniform_type_uniform_corners_witness :
  let root := fst (Cases.built Cases.loose 2 Quad.cell) in
  Quad.run Cases.loose 2 Quad.cell = Done (root, snd (Cases.built Cases.loose 2 Quad.cell))
  /\ subtree root root
  /\ type root <> AMBIGUOUS
  /\ isBranch root = true
  /\ corners root = repeat (type root) (@size Quad.dim).
Proof.
  split; [vm_compute; reflexivity |]. split; [constructor |].
  split; [vm_compute; discriminate |]. split; [vm_compute; reflexivity |].
  apply (@uniform_type_uniform_corners Quad.dim Quad.header Quad.Tape
           (Quad.evaluator Cases.loose) 2 Quad.cell Quad.start
           (fst (Cases.built Cases.loose 2 Quad.cell))
           (snd (Cases.built Cases.loose 2 Quad.cell))
           (fst (Cases.built Cases.loose 2 Quad.cell))).
  - vm_compute. reflexivity.
  - constructor.
  - vm_compute. discriminate.
Defined.

Lemma uniform_children_are_kept_witness :
  let b := Cases.loose_branch in
  isBranch b = true
  /\ Forall (fun c => exists r ty, c = @uniform_leaf Quad.dim r ty) (children b)
  /\ AtA b = mzero 2 2 /\ _mass_point b = vzero 3
  /\ exists t, @simplify Quad.dim Quad.header b = Done t /\ children t = children b.
Proof.
  assert (Hall : Forall (fun c => exists r ty, c = @uniform_leaf Quad.dim r ty)
                        (children Cases.loose_branch)).
  { vm_compute. repeat constructor; eexists _, _; vm_compute; reflexivity. }
  split; [vm_compute; reflexivity |]. split; [exact Hall |].
  split; [vm_compute; reflexivity |]. split; [vm_compute; reflexivity |].
  apply (@uniform_children_are_kept Quad.dim Quad.header Cases.loose_branch).
  - cbn. lia.
  - exact Quad_solve_eigenvectors.
  - vm_compute. reflexivity.
  - exact Hall.
  - vm_compute. reflexivity.
  - vm_compute. reflexivity.
Defined.

Lemma uniform_leaves_were_never_branches_witness :
  let root := fst (Cases.built Cases.loose 2 Quad.cell) in
  let n := nth 0 (children root) root in
  Quad.run Cases.loose 2 Quad.cell = Done (root, snd (Cases.built Cases.loose 2 Quad.cell))
  /\ subtree n root
  /\ isBranch n = false /\ type n <> AMBIGUOUS
  /\ n = @uniform_leaf Quad.dim (region n) (type n).
Proof.
  assert (Hsub : subtree (nth 0 (children (fst (Cases.built Cases.loose 2 Quad.cell)))
                              (fst (Cases.built Cases.loose 2 Quad.cell)))
                         (fst (Cases.built Cases.loose 2 Quad.cell))).
  { eapply subtree_below; [| constructor]. vm_compute. left. reflexivity. }
  split; [vm_compute; reflexivity |]. split; [exact Hsub |].
  split; [vm_compute; reflexivity |]. split; [vm_compute; discriminate |].
  apply (@uniform_leaves_were_never_branches Quad.dim Quad.header Quad.Tape
           (Quad.evaluator Cases.loose) 2 Quad.cell Quad.start
           (fst (Cases.built Cases.loose 2 Quad.cell))
           (snd (Cases.built Cases.loose 2 Quad.cell))
           (nth 0 (children (fst (Cases.built Cases.loose 2 Quad.cell)))
                (fst (Cases.built Cases.loose 2 Quad.cell)))).
  - cbn. lia.
  - exact Quad_solve_eigenvectors.
  - vm_compute. reflexivity.
  - exact Hsub.
  - vm_compute. reflexivity.
  - vm_compute. discriminate.
Defined.

Lemma ambiguous_leaves_have_a_vertex_witness :
  let n := fst (Cases.built Quad.plane 2 Quad.cell) in
  Quad.run Quad.plane 2 Quad.cell = Done (n, snd (Cases.built Quad.plane 2 Quad.cell))
  /\ subtree n n
  /\ isBranch n = false /\ type n = AMBIGUOUS
  /\ exists x, vert n = Some x.
Proof.
  split; [vm_compute; reflexivity |]. split; [constructor |].
  split; [vm_compute; reflexivity |]. split; [vm_compute; reflexivity |].
  apply (@ambiguous_leaves_have_a_vertex Quad.dim Quad.header Quad.Tape
           (Quad.evaluator Quad.plane) 2 Quad.cell Quad.start
           (fst (Cases.built Quad.plane 2 Quad.cell))
           (snd (Cases.built Quad.plane 2 Quad.cell))
           (fst (Cases.built Quad.plane 2 Quad.cell))).
  - vm_compute. reflexivity.
  - constructor.
  - vm_compute. reflexivity.
  - vm_compute. reflexivity.
Defined.

Lemma subdivision_follows_volume_witness :
  let n := fst (Cases.built Quad.bubble 2 Quad.cell) in
  Quad.run Quad.bubble 2 Quad.cell = Done (n, snd (Cases.built Quad.bubble 2 Quad.cell))
  /\ subtree n n
  /\ (isBranch n = true -> 0 < level n)
  /\ (0 < level n -> (0.001 <? volume (region n))%float = true)
  /\ (level n = 0 -> type n = AMBIGUOUS -> (0.001 <? volume (region n))%float = false).
Proof.
  split; [vm_compute; reflexivity |]. split; [constructor |].
  apply (@subdivision_follows_volume Quad.dim Quad.header Quad.Tape
           (Quad.evaluator Quad.bubble) 2 Quad.cell Quad.start
           (fst (Cases.built Quad.bubble 2 Quad.cell))
           (snd (Cases.built Quad.bubble 2 Quad.cell))
           (fst (Cases.built Quad.bubble 2 Quad.cell))).
  - vm_compute. reflexivity.
  - constructor.
Defined.

Lemma evaluator_calls_witness :
  let r := Quad.cell in
  let t := fst (Cases.built Quad.plane 2 r) in
  let c' := snd (Cases.built Quad.plane 2 r) in
  Quad.run Quad.plane 2 r = Done (t, c')
  /\ exists d,
      calls c' = calls Quad.start ++ d /\ @Trace Quad.dim d
      /\ (@pruned Quad.header
            (@first_interval Quad.Tape (Quad.evaluator Quad.plane) r Quad.start) = true ->
          d = [CEval; CPush; CPop])
      /\ (@pruned Quad.header
            (@first_interval Quad.Tape (Quad.evaluator Quad.plane) r Quad.start) = false ->
          (0.001 <? volume r)%float = false ->
          d = @terminal_calls Quad.dim (@searched Quad.header t) (sampled_QEF t))
      /\ (@pruned Quad.header
            (@first_interval Quad.Tape (Quad.evaluator Quad.plane) r Quad.start) = false ->
          (0.001 <? volume r)%float = true ->
          exists ds, @Traces Quad.dim (@size Quad.dim) ds
                     /\ d = [CEval; CPush] ++ ds ++ [CPop; CPop]).
Proof.
  split; [vm_compute; reflexivity |].
  apply (@evaluator_calls Quad.dim Quad.header Quad.Tape (Quad.evaluator Quad.plane)
           2 Quad.cell Quad.start
           (fst (Cases.built Quad.plane 2 Quad.cell))
           (snd (Cases.built Quad.plane 2 Quad.cell))).
  vm_compute. reflexivity.
Defined.

Lemma pushes_and_pops_witness :
  let r := Quad.cell in
  let t := fst (Cases.built Quad.plane 2 r) in
  let c' := snd (Cases.built Quad.plane 2 r) in
  Quad.run Quad.plane 2 r = Done (t, c')
  /\ exists d,
      calls c' = calls Quad.start ++ d
      /\ count_calls is_eval d = count_calls Quad.is_push d
      /\ count_calls Quad.is_push d <= count_calls Quad.is_pop d
      /\ (@pruned Quad.header
            (@first_interval Quad.Tape (Quad.evaluator Quad.plane) r Quad.start) = true
          \/ (0.001 <? volume r)%float = false ->
          count_calls Quad.is_push d = 1 /\ count_calls Quad.is_pop d = 1)
      /\ (@pruned Quad.header
            (@first_interval Quad.Tape (Quad.evaluator Quad.plane) r Quad.start) = false ->
          (0.001 <? volume r)%float = true ->
          count_calls Quad.is_push d < count_calls Quad.is_pop d).
Proof.
  split; [vm_compute; reflexivity |].
  apply (@pushes_and_pops Quad.dim Quad.header Quad.Tape (Quad.evaluator Quad.plane)
           2 Quad.cell Quad.start
           (fst (Cases.built Quad.plane 2 Quad.cell))
           (snd (Cases.built Quad.plane 2 Quad.cell))).
  vm_compute. reflexivity.
Defined.

Lemma loads_match_evaluations_witness :
  let t := fst (Cases.built Quad.bubble 2 Quad.cell) in
  let c' := snd (Cases.built Quad.bubble 2 Quad.cell) in
  Quad.run Quad.bubble 2 Quad.cell = Done (t, c')
  /\ exists d, calls c' = calls Quad.start ++ d /\ batched 0 d = true.
Proof.
  split; [vm_compute; reflexivity |].
  apply (@loads_match_evaluations Quad.dim Quad.header Quad.Tape (Quad.evaluator Quad.bubble)
           2 Quad.cell Quad.start
           (fst (Cases.built Quad.bubble 2 Quad.cell))
           (snd (Cases.built Quad.bubble 2 Quad.cell))).
  vm_compute. reflexivity.
Defined.

Lemma bracket_moves_to_first_crossing_witness :
  let ps := map (@candidate Quad.dim [0; 0]%float [0x1p-5; 0]%float) (seq 0 NUM) in
  let io := ([0; 0]%float, [0x1p-5; 0]%float) in
  3 < NUM /\ NUM <= length ps
  /\ (forall i, i < 3 -> (0 <=? Cases.three_inside i)%float = false)
  /\ (0 <=? Cases.three_inside 3)%float = true
  /\ @bracket Quad.Tape Cases.three_inside ps (seq 0 NUM) io Quad.start
     = Done ((nth 2 ps [], nth 3 ps []), Quad.start).
Proof.
  assert (Hlow : forall i, i < 3 -> (0 <=? Cases.three_inside i)%float = false).
  { intros i Hi. unfold Cases.three_inside.
    destruct (Nat.ltb_spec i 3); [reflexivity | lia]. }
  split; [cbn; lia |]. split; [cbn; lia |]. split; [exact Hlow |].
  split; [reflexivity |].
  apply (@bracket_moves_to_first_crossing Quad.Tape Cases.three_inside
           (map (@candidate Quad.dim [0; 0]%float [0x1p-5; 0]%float) (seq 0 NUM))
           ([0; 0]%float, [0x1p-5; 0]%float) Quad.start NUM 3).
  - cbn. lia.
  - cbn. lia.
  - exact Hlow.
  - reflexivity.
Defined.

Lemma bracket_unchanged_without_crossing_witness :
  let ps := map (@candidate Quad.dim [0; 0]%float [0x1p-5; 0]%float) (seq 0 NUM) in
  let io := ([0; 0]%float, [0x1p-5; 0]%float) in
  (forall i, i < NUM -> (0 <=? Cases.all_inside i)%float = false)
  /\ @bracket Quad.Tape Cases.all_inside ps (seq 0 NUM) io Quad.start
     = Done (io, Quad.start).
Proof.
  split; [intros i Hi; reflexivity |].
  apply (@bracket_unchanged_without_crossing Quad.Tape Cases.all_inside
           (map (@candidate Quad.dim [0; 0]%float [0x1p-5; 0]%float) (seq 0 NUM))
           ([0; 0]%float, [0x1p-5; 0]%float) Quad.start NUM).
  intros i Hi. reflexivity.
Defined.


Lemma rank_passes_the_assertion_witness :
  let es := mkEigenSolver [2; 4]%float [[1; 0]; [0; 1]]%float in
  let t := @init Quad.dim Quad.quarter in
  length (eigenvalues es) = 2
  /\ isnan (@EIGENVALUE_CUTOFF Quad.header) = false
  /\ Forall invertible (eigenvalues es)
  /\ count_nonzero (@truncated Quad.dim Quad.header es) = @count_rank Quad.header es
  /\ exists e x,
       @findVertex_es Quad.dim Quad.header es (with_rank (@count_rank Quad.header es) t)
       = Done (e, with_vert x (with_rank (@count_rank Quad.header es) t)).
Proof.
  assert (Hall : Forall invertible [2; 4]%float).
  { repeat constructor. }
  split; [reflexivity |]. split; [reflexivity |]. split; [exact Hall |].
  apply (@rank_passes_the_assertion Quad.dim Quad.header
           (mkEigenSolver [2; 4]%float [[1; 0]; [0; 1]]%float)
           (@init Quad.dim Quad.quarter)).
  - reflexivity.
  - reflexivity.
  - exact Hall.
Defined.

Lemma AtA_is_symmetric_witness :
  let root := fst (Cases.built Quad.bubble 2 Quad.cell) in
  let n := nth 0 (children root) root in
  2 <= 3
  /\ Quad.run Quad.bubble 2 Quad.cell = Done (root, snd (Cases.built Quad.bubble 2 Quad.cell))
  /\ subtree n root
  /\ square 2 (AtA n) /\ symmetric (AtA n).
Proof.
  assert (Hsub : subtree (nth 0 (children (fst (Cases.built Quad.bubble 2 Quad.cell)))
                              (fst (Cases.built Quad.bubble 2 Quad.cell)))
                         (fst (Cases.built Quad.bubble 2 Quad.cell))).
  { eapply subtree_below; [| constructor]. vm_compute. left. reflexivity. }
  split; [lia |]. split; [vm_compute; reflexivity |]. split; [exact Hsub |].
  apply (@AtA_is_symmetric Quad.dim Quad.header Quad.Tape (Quad.evaluator Quad.bubble)
           2 Quad.cell Quad.start
           (fst (Cases.built Quad.bubble 2 Quad.cell))
           (snd (Cases.built Quad.bubble 2 Quad.cell))
           (nth 0 (children (fst (Cases.built Quad.bubble 2 Quad.cell)))
                (fst (Cases.built Quad.bubble 2 Quad.cell)))).
  - cbn. lia.
  - vm_compute. reflexivity.
  - exact Hsub.
Defined.

Lemma rank_is_at_most_N_witness :
  let root := fst (Cases.built Quad.arc 2 Quad.cell) in
  (forall m, length (eigenvalues (Quad.solve m)) <= 2)
  /\ Quad.run Quad.arc 2 Quad.cell = Done (root, snd (Cases.built Quad.arc 2 Quad.cell))
  /\ subtree root root
  /\ rank root <= 2.
Proof.
  split; [exact Quad_solve_eigenvalues |]. split; [vm_compute; reflexivity |].
  split; [constructor |].
  apply (@rank_is_at_most_N Quad.dim Quad.header Quad.Tape (Quad.evaluator Quad.arc)
           2 Quad.cell Quad.start
           (fst (Cases.built Quad.arc 2 Quad.cell))
           (snd (Cases.built Quad.arc 2 Quad.cell))
           (fst (Cases.built Quad.arc 2 Quad.cell))).
  - exact Quad_solve_eigenvalues.
  - vm_compute. reflexivity.
  - constructor.
Defined.

Lemma simplify_never_stops_witness :
  let b := Cases.plane_branch in
  isBranch b = true
  /\ exists t,
      @simplify Quad.dim Quad.header b = Done t
      /\ type t = type b /\ corners t = corners b /\ region t = region b
      /\ (children t = children b \/ children t = []).
Proof.
  split; [vm_compute; reflexivity |].
  apply (@simplify_never_stops Quad.dim Quad.header Cases.plane_branch).
  vm_compute. reflexivity.
Defined.

Lemma search_pass_outcome_witness :
  let t := @init Quad.dim Quad.quarter in
  let a := [0; 0]%float in
  let b := [0x1p-5; 0]%float in
  let out := @answers Quad.dim Quad.Tape (Quad.evaluator Quad.plane) t a b (ev Quad.start) in
  (forall i, i < 1 -> (0 <=? out i)%float = false)
  /\ (1 = NUM ->
      @search Quad.dim Quad.Tape (Quad.evaluator Quad.plane) t 0 (a, b) Quad.start
      = Done ((a, b), @answered Quad.dim Quad.Tape (Quad.evaluator Quad.plane) t a b Quad.start))
  /\ (1 < NUM -> (0 <=? out 1%nat)%float = true ->
      @search Quad.dim Quad.Tape (Quad.evaluator Quad.plane) t 0 (a, b) Quad.start
      = Done ((@candidate Quad.dim a b 0, @candidate Quad.dim a b 1),
              @answered Quad.dim Quad.Tape (Quad.evaluator Quad.plane) t a b Quad.start)).
Proof.
  assert (Hlow : forall i, i < 1 ->
            (0 <=? @answers Quad.dim Quad.Tape (Quad.evaluator Quad.plane)
                     (@init Quad.dim Quad.quarter) [0; 0]%float [0x1p-5; 0]%float
                     (ev Quad.start) i)%float = false).
  { intros i Hi. assert (i = 0) as -> by lia. vm_compute. reflexivity. }
  split; [exact Hlow |].
  apply (@search_pass_outcome Quad.dim Quad.Tape (Quad.evaluator Quad.plane)
           (@init Quad.dim Quad.quarter) 0 [0; 0]%float [0x1p-5; 0]%float Quad.start 1).
  exact Hlow.
Defined.

Lemma terminal_corners_are_sampled_signs_witness :
  let r := Quad.quarter in
  let t := fst (Cases.built Cases.saddle 1 r) in
  Quad.run Cases.saddle 1 r = Done (t, snd (Cases.built Cases.saddle 1 r))
  /\ @pruned Quad.header
       (@first_interval Quad.Tape (Quad.evaluator Cases.saddle) r Quad.start) = false
  /\ (0.001 <? volume r)%float = false
  /\ corners t
     = map (sampled (@corner_values Quad.dim Quad.Tape (Quad.evaluator Cases.saddle)
                       r Quad.start))
           (seq 0 (@size Quad.dim))
  /\ type t = aggregate (corners t)
  /\ children t = [] /\ level t = 0.
Proof.
  split; [vm_compute; reflexivity |]. split; [vm_compute; reflexivity |].
  split; [vm_compute; reflexivity |].
  apply (@terminal_corners_are_sampled_signs Quad.dim Quad.header Quad.Tape
           (Quad.evaluator Cases.saddle) 1 Quad.quarter Quad.start
           (fst (Cases.built Cases.saddle 1 Quad.quarter))
           (snd (Cases.built Cases.saddle 1 Quad.quarter)));
    vm_compute; reflexivity.
Defined.
